(** * TF-K8s scenario runner: a shallow embedding and its properties

    The development follows [tf-k8s/scripts/scenario-runner.py] function by
    function, then the validator [.bot/scripts/validate-failing-test.py]
    (its definition check first, the other checks further down) and the
    verification script [verify_hashing.py] of the command-line hashing
    scenario.

    Conventions of the embedding:
    - a mapping read with [d.get(key, default)] is a record of optional
      fields, [None] standing for an absent key;
    - the operating system (sub-processes, file system, clock) is an
      interface [System] over an abstract world; every call is recorded in a
      trace, in program order, next to the lines printed;
    - a raised exception is a [Raise] result threaded through the monad [M];
    - a string is the sequence of bytes of its UTF-8 encoding, and
      [str.lower] is rendered on ASCII letters; thresholds are integers (a
      YAML float has no exact counterpart here);
    - a document is a [Scenario] record: a mapping whose sections, where
      present, have the expected shape (a list of steps with a list of
      command strings, a metadata mapping with a string [id], and so on). *)

From Stdlib Require Import ZArith Ascii String List Bool Lia.
From stdpp Require Import base option list strings gmap.

Set Warnings "-register-all".
Local Open Scope Z_scope.

(** ** String helpers mirroring the Python string methods used *)

Module Str.

Fixpoint prefix (p s : string) : bool :=
  match p, s with
  | EmptyString, _ => true
  | String a p', String b s' => if Ascii.eqb a b then prefix p' s' else false
  | String _ _, EmptyString => false
  end.

(** [needle in s] *)
Fixpoint contains (needle s : string) : bool :=
  prefix needle s ||
  match s with
  | EmptyString => false
  | String _ s' => contains needle s'
  end.

(** [s.replace(old, new)] for a non-empty [old]: occurrences are replaced
    from the left and do not overlap. [skip] counts the characters of a
    match still to be dropped. *)
Fixpoint replace_from (old new : string) (skip : nat) (s : string) : string :=
  match s with
  | EmptyString => EmptyString
  | String c s' =>
      match skip with
      | S k => replace_from old new k s'
      | O =>
          if prefix old s
          then new +:+ replace_from old new (Nat.pred (String.length old)) s'
          else String c (replace_from old new O s')
      end
  end.

Definition replace (old new s : string) : string := replace_from old new O s.

Definition lower_ascii (c : ascii) : ascii :=
  let n := N_of_ascii c in
  if ((65 <=? n) && (n <=? 90))%N then ascii_of_N (n + 32) else c.

(** [s.lower()]: the letters [A] to [Z] are lowered. Python also lowers
    the cased letters outside ASCII; on a text with such letters this
    definition and [str.lower] differ. *)
Fixpoint lower (s : string) : string :=
  match s with
  | EmptyString => EmptyString
  | String c s' => String (lower_ascii c) (lower s')
  end.

Definition digit (n : nat) : ascii := ascii_of_nat (48 + n mod 10).

(** the last [k] decimal digits of [n], most significant first *)
Fixpoint digits (k n : nat) (acc : string) : string :=
  match k with
  | O => acc
  | S k' => digits k' (n / 10) (String (digit n) acc)
  end.

(** [str(n)] for a natural number *)
Fixpoint of_nat_fuel (fuel n : nat) (acc : string) : string :=
  match fuel with
  | O => acc
  | S f =>
      let acc' := String (digit n) acc in
      if (n / 10 =? 0)%nat then acc' else of_nat_fuel f (n / 10) acc'
  end.

Definition of_nat (n : nat) : string := of_nat_fuel (S n) n EmptyString.

(** [os.path.dirname]: everything before the last slash, trailing slashes
    dropped unless the head is made of slashes only. *)
Fixpoint rstrip_slash_rev (r : list ascii) : list ascii :=
  match r with
  | "/"%char :: r' => rstrip_slash_rev r'
  | _ => r
  end.

Fixpoint drop_to_slash_rev (r : list ascii) : list ascii :=
  match r with
  | [] => []
  | "/"%char :: _ => r
  | _ :: r' => drop_to_slash_rev r'
  end.

Definition dirname (p : string) : string :=
  let head := drop_to_slash_rev (rev (list_ascii_of_string p)) in
  match rstrip_slash_rev head with
  | [] => string_of_list_ascii (rev head)
  | stripped => string_of_list_ascii (rev stripped)
  end.

Definition ends_with_slash (p : string) : bool :=
  match rev (list_ascii_of_string p) with
  | "/"%char :: _ => true
  | _ => false
  end.

(** [os.path.join(a, b)] for a relative [b] *)
Definition join (a b : string) : string :=
  match a with
  | EmptyString => b
  | _ => if ends_with_slash a then a +:+ b else a +:+ "/" +:+ b
  end.

End Str.

(** ** The scenario definition document, as [yaml.safe_load] returns it *)

Record Step := {
  step_name : option string;
  step_commands : option (list string);
  (** truth value of the [critical] entry, when the entry is present *)
  step_critical : option bool
}.

Record Criterion := {
  crit_name : option string;
  crit_metric : option string;
  crit_threshold : option Z
}.

Record Metadata := {
  md_id : option string;
  md_name : option string;
  md_description : option string;
  md_version : option string;
  md_tags : option (list string);
  md_eidc_references : option (list string)
}.

Record Requirements := {
  req_cluster_type : option string;
  req_components : option (list string)
}.

Record Scenario := {
  sc_metadata : option Metadata;
  sc_requirements : option Requirements;
  sc_steps : option (list Step);
  sc_success_criteria : option (list Criterion)
}.

(** ** The result record built by [run_scenario] *)

Record StepResult := {
  sr_name : string;
  sr_success : bool;
  sr_output : list string
}.

Record CriterionResult := {
  cr_name : string;
  cr_threshold : Z;
  cr_actual : Z;
  cr_success : bool
}.

(** [res_criteria] and [res_end_time] are [None] until the keys are set. *)
Record Results := {
  res_scenario_id : string;
  res_start_time : string;
  res_steps : list StepResult;
  res_success : bool;
  res_criteria : option (list CriterionResult);
  res_end_time : option string
}.

(** ** Wall-clock time *)

Record datetime := {
  dt_year : nat; dt_month : nat; dt_day : nat;
  dt_hour : nat; dt_minute : nat; dt_second : nat;
  dt_microsecond : nat
}.

(** [dt.strftime("%Y%m%d-%H%M%S")] *)
Definition strftime_stamp (d : datetime) : string :=
  Str.digits 4 (dt_year d) "" +:+ Str.digits 2 (dt_month d) "" +:+
  Str.digits 2 (dt_day d) "" +:+ "-" +:+
  Str.digits 2 (dt_hour d) "" +:+ Str.digits 2 (dt_minute d) "" +:+
  Str.digits 2 (dt_second d) "".

(** [dt.isoformat()] *)
Definition isoformat (d : datetime) : string :=
  Str.digits 4 (dt_year d) "" +:+ "-" +:+ Str.digits 2 (dt_month d) "" +:+ "-" +:+
  Str.digits 2 (dt_day d) "" +:+ "T" +:+
  Str.digits 2 (dt_hour d) "" +:+ ":" +:+ Str.digits 2 (dt_minute d) "" +:+ ":" +:+
  Str.digits 2 (dt_second d) "" +:+
  (if (dt_microsecond d =? 0)%nat then ""
   else "." +:+ Str.digits 6 (dt_microsecond d) "").

(** the second a moment falls in *)
Definition same_second (a b : datetime) : Prop :=
  dt_year a = dt_year b ∧ dt_month a = dt_month b ∧ dt_day a = dt_day b ∧
  dt_hour a = dt_hour b ∧ dt_minute a = dt_minute b ∧ dt_second a = dt_second b.

(** ** JSON documents and [json.dump(_, indent=2)] *)

Inductive json :=
| JNull
| JBool (b : bool)
| JInt (z : Z)
| JStr (s : string)
| JArr (items : list json)
| JObj (members : list (string * json)).

Module Json.

Definition chars (s : string) : list ascii := list_ascii_of_string s.

Fixpoint uint_chars (d : Decimal.uint) : list ascii :=
  match d with
  | Decimal.Nil => []
  | Decimal.D0 d => "0"%char :: uint_chars d
  | Decimal.D1 d => "1"%char :: uint_chars d
  | Decimal.D2 d => "2"%char :: uint_chars d
  | Decimal.D3 d => "3"%char :: uint_chars d
  | Decimal.D4 d => "4"%char :: uint_chars d
  | Decimal.D5 d => "5"%char :: uint_chars d
  | Decimal.D6 d => "6"%char :: uint_chars d
  | Decimal.D7 d => "7"%char :: uint_chars d
  | Decimal.D8 d => "8"%char :: uint_chars d
  | Decimal.D9 d => "9"%char :: uint_chars d
  end.

(** [repr] of an integer *)
Definition encode_int (z : Z) : list ascii :=
  match z with
  | Z0 => ["0"%char]
  | Zpos p => uint_chars (Pos.to_uint p)
  | Zneg p => "-"%char :: uint_chars (Pos.to_uint p)
  end.

Definition hex_digit (n : N) : ascii :=
  if (n <? 10)%N then ascii_of_N (48 + n) else ascii_of_N (87 + n).

(** [\uXXXX] for a code unit *)
Definition escape_unit (n : N) : list ascii :=
  chars "\u" ++ [hex_digit (n / 4096); hex_digit ((n / 256) mod 16);
                 hex_digit ((n / 16) mod 16); hex_digit (n mod 16)].

(** a code point escaped as [ensure_ascii=True] does: one unit, or a
    surrogate pair above the basic plane *)
Definition escape_code_point (n : N) : list ascii :=
  if (n <? 65536)%N then escape_unit n
  else
    let v := (n - 65536)%N in
    escape_unit (55296 + v / 1024) ++ escape_unit (56320 + v mod 1024).

(** one ASCII character of a string *)
Definition encode_char (c : ascii) : list ascii :=
  let n := N_of_ascii c in
  if (n =? 34)%N then ["\"%char; "034"%char]
  else if (n =? 92)%N then chars "\\"
  else if (n =? 10)%N then chars "\n"
  else if (n =? 13)%N then chars "\r"
  else if (n =? 9)%N then chars "\t"
  else if (n =? 8)%N then chars "\b"
  else if (n =? 12)%N then chars "\f"
  else if ((32 <=? n) && (n <=? 126))%N then [c]
  else escape_unit n.

(** the six payload bits of a continuation byte of UTF-8 *)
Definition continuation (c : ascii) : option N :=
  let n := N_of_ascii c in
  if ((128 <=? n) && (n <? 192))%N then Some (n - 128)%N else None.

(** the code point that starts with the byte [c], the bytes [s] following
    it, and the number of these bytes that belong to it *)
Definition code_point (c : ascii) (s : string) : option (N * nat) :=
  let n := N_of_ascii c in
  match s with
  | String c1 (String c2 (String c3 _)) =>
      match continuation c1, continuation c2, continuation c3 with
      | Some a, Some b, Some d =>
          if ((240 <=? n) && (n <? 248))%N
          then Some ((n - 240) * 262144 + a * 4096 + b * 64 + d, 3%nat)%N
          else if ((224 <=? n) && (n <? 240))%N
          then Some ((n - 224) * 4096 + a * 64 + b, 2%nat)%N
          else if ((192 <=? n) && (n <? 224))%N
          then Some ((n - 192) * 64 + a, 1%nat)%N
          else None
      | Some a, Some b, None =>
          if ((224 <=? n) && (n <? 240))%N
          then Some ((n - 224) * 4096 + a * 64 + b, 2%nat)%N
          else if ((192 <=? n) && (n <? 224))%N
          then Some ((n - 192) * 64 + a, 1%nat)%N
          else None
      | Some a, None, _ =>
          if ((192 <=? n) && (n <? 224))%N
          then Some ((n - 192) * 64 + a, 1%nat)%N
          else None
      | None, _, _ => None
      end
  | String c1 (String c2 EmptyString) =>
      match continuation c1, continuation c2 with
      | Some a, Some b =>
          if ((224 <=? n) && (n <? 240))%N
          then Some ((n - 224) * 4096 + a * 64 + b, 2%nat)%N
          else if ((192 <=? n) && (n <? 224))%N
          then Some ((n - 192) * 64 + a, 1%nat)%N
          else None
      | Some a, None =>
          if ((192 <=? n) && (n <? 224))%N
          then Some ((n - 192) * 64 + a, 1%nat)%N
          else None
      | None, _ => None
      end
  | String c1 EmptyString =>
      match continuation c1 with
      | Some a =>
          if ((192 <=? n) && (n <? 224))%N
          then Some ((n - 192) * 64 + a, 1%nat)%N
          else None
      | None => None
      end
  | EmptyString => None
  end.

(** the characters of a string, escaped as [ensure_ascii=True] does: an
    ASCII character by [encode_char], any other code point by its
    escape. [skip] counts the bytes of the current code point still to be
    passed. (A byte that is not part of UTF-8 text, which a [str] read
    from a YAML file never holds, is written as one unit.) *)
Fixpoint encode_from (skip : nat) (s : string) : list ascii :=
  match s with
  | EmptyString => []
  | String c s' =>
      match skip with
      | S k => encode_from k s'
      | O =>
          if (N_of_ascii c <? 128)%N then encode_char c ++ encode_from O s'
          else
            match code_point c s' with
            | Some (n, k) => escape_code_point n ++ encode_from k s'
            | None => escape_unit (N_of_ascii c) ++ encode_from O s'
            end
      end
  end.

Definition encode_chars (s : string) : list ascii := encode_from O s.

Definition encode_string (s : string) : list ascii :=
  "034"%char :: encode_chars s ++ ["034"%char].

(** a line break followed by the indentation of nesting level [lvl] *)
Definition newline_indent (lvl : nat) : list ascii :=
  "010"%char :: repeat " "%char (2 * lvl).

Fixpoint encode (lvl : nat) (v : json) : list ascii :=
  match v with
  | JNull => chars "null"
  | JBool true => chars "true"
  | JBool false => chars "false"
  | JInt z => encode_int z
  | JStr s => encode_string s
  | JArr [] => chars "[]"
  | JArr (x :: xs) =>
      "["%char :: newline_indent (S lvl) ++ encode (S lvl) x ++
      (fix items (l : list json) : list ascii :=
         match l with
         | [] => []
         | y :: l' =>
             ","%char :: newline_indent (S lvl) ++ encode (S lvl) y ++ items l'
         end) xs ++
      newline_indent lvl ++ ["]"%char]
  | JObj [] => chars "{}"
  | JObj ((k, x) :: ms) =>
      "{"%char :: newline_indent (S lvl) ++
      encode_string k ++ chars ": " ++ encode (S lvl) x ++
      (fix members (l : list (string * json)) : list ascii :=
         match l with
         | [] => []
         | (k', y) :: l' =>
             ","%char :: newline_indent (S lvl) ++
             encode_string k' ++ chars ": " ++ encode (S lvl) y ++ members l'
         end) ms ++
      newline_indent lvl ++ ["}"%char]
  end.

Definition dumps (v : json) : string := string_of_list_ascii (encode 0 v).

End Json.

(** The result record as the dictionary handed to [json.dump], keys in
    insertion order. *)
Definition step_result_json (r : StepResult) : json :=
  JObj [("name", JStr (sr_name r));
        ("success", JBool (sr_success r));
        ("output", JArr (JStr <$> sr_output r))].

Definition criterion_result_json (r : CriterionResult) : json :=
  JObj [("name", JStr (cr_name r));
        ("threshold", JInt (cr_threshold r));
        ("actual", JInt (cr_actual r));
        ("success", JBool (cr_success r))].

Definition results_json (r : Results) : json :=
  JObj ([("scenario_id", JStr (res_scenario_id r));
         ("start_time", JStr (res_start_time r));
         ("steps", JArr (step_result_json <$> res_steps r));
         ("success", JBool (res_success r))] ++
        match res_criteria r with
        | Some cs => [("criteria", JArr (criterion_result_json <$> cs))]
        | None => []
        end ++
        match res_end_time r with
        | Some t => [("end_time", JStr t)]
        | None => []
        end).

(** ** The operating-system boundary *)

(** Exceptions carry the text that [str(e)] gives. *)
Inductive exn :=
| CalledProcessError (msg : string)
| OSError (msg : string)
| UnicodeDecodeError (msg : string)
| ValueError (msg : string).

Definition exn_str (e : exn) : string :=
  match e with
  | CalledProcessError msg => msg
  | OSError msg => msg
  | UnicodeDecodeError msg => msg
  | ValueError msg => msg
  end.

(** What the runner asks of its environment. [W] is the state of the
    cluster, the file system and the clock. A [Some msg] answer of an
    operation that may fail is the text of the exception it raises. *)
Class System (W : Type) := {
  (** [subprocess.check_output(cmd, shell=True, text=True)]: the captured
      output, or the exception raised: [CalledProcessError] when the
      command exits with a status other than 0, [UnicodeDecodeError] when
      its output is not text, [OSError] when the shell cannot be started,
      [ValueError] for a command with a null character *)
  sys_check_output : string → W → W * (string + exn);
  (** [subprocess.run(argv, check=True)] *)
  sys_run : list string → W → W * option string;
  (** [glob.glob(pattern)] *)
  sys_glob : string → W → list string;
  (** [os.path.exists(path)] *)
  sys_exists : string → W → bool;
  (** [open(path)] followed by [yaml.safe_load] *)
  sys_load_yaml : string → W → string + Scenario;
  (** [datetime.now()] *)
  sys_now : W → W * datetime;
  (** [os.makedirs(path, exist_ok=True)] *)
  sys_makedirs : string → W → W * option string;
  (** [open(path, 'w')] followed by writing the whole text *)
  sys_write : string → string → W → W * option string
}.

(** What the program did, in program order. *)
Inductive event :=
| EvPrint (line : string)
| EvShell (cmd : string)
| EvRun (argv : list string)
| EvMakedirs (path : string)
| EvWrite (path text : string).

Record State (W : Type) := mkState {
  world : W;
  trace : list event
}.
Arguments mkState {W} _ _.
Arguments world {W} _.
Arguments trace {W} _.

Inductive result (A : Type) :=
| Ok (a : A)
| Raise (e : exn).
Arguments Ok {A} _.
Arguments Raise {A} _.

(** State and exceptions. *)
Definition M (W A : Type) : Type := State W → State W * result A.

Definition ret {W A} (a : A) : M W A := fun st => (st, Ok a).

Definition bind {W A B} (m : M W A) (k : A → M W B) : M W B :=
  fun st =>
    match m st with
    | (st', Ok a) => k a st'
    | (st', Raise e) => (st', Raise e)
    end.

Definition raise {W A} (e : exn) : M W A := fun st => (st, Raise e).

(** [try: body  except Exception as e: handler(e)] *)
Definition try_except {W A} (body : M W A) (handler : exn → M W A) : M W A :=
  fun st =>
    match body st with
    | (st', Ok a) => (st', Ok a)
    | (st', Raise e) => handler e st'
    end.

Declare Scope runner_scope.
Delimit Scope runner_scope with runner.
Notation "'let*' x ':=' m 'in' k" := (bind m (fun x => k))
  (at level 10, x name, m at level 100, k at level 200) : runner_scope.
Notation "m '>>' k" := (bind m (fun _ => k))
  (at level 100, k at level 200, right associativity) : runner_scope.
Local Open Scope runner_scope.

Section Runner.

Context {W : Type} `{System W}.

Definition emit (e : event) (st : State W) : State W :=
  mkState (world st) (trace st ++ [e]).

Definition print (line : string) : M W unit :=
  fun st => (emit (EvPrint line) st, Ok tt).

(** [subprocess.check_output(cmd, shell=True, text=True)] inside its
    [try ... except subprocess.CalledProcessError as e]: [inl] is the
    output, [inr] the text of the caught [CalledProcessError]; any other
    exception is not caught there. *)
Definition check_output (cmd : string) : M W (string + string) :=
  fun st =>
    let '(w, r) := sys_check_output cmd (world st) in
    let st' := mkState w (trace st ++ [EvShell cmd]) in
    match r with
    | inl output => (st', Ok (inl output))
    | inr (CalledProcessError msg) => (st', Ok (inr msg))
    | inr e => (st', Raise e)
    end.

(** [subprocess.run(argv, check=True)] *)
Definition run_checked (argv : list string) : M W unit :=
  fun st =>
    let '(w, r) := sys_run argv (world st) in
    let st' := mkState w (trace st ++ [EvRun argv]) in
    match r with
    | None => (st', Ok tt)
    | Some msg => (st', Raise (CalledProcessError msg))
    end.

Definition glob (pattern : string) : M W (list string) :=
  fun st => (st, Ok (sys_glob pattern (world st))).

Definition path_exists (path : string) : M W bool :=
  fun st => (st, Ok (sys_exists path (world st))).

Definition load_yaml (path : string) : M W Scenario :=
  fun st =>
    match sys_load_yaml path (world st) with
    | inr sc => (st, Ok sc)
    | inl msg => (st, Raise (OSError msg))
    end.

Definition now : M W datetime :=
  fun st =>
    let '(w, d) := sys_now (world st) in
    (mkState w (trace st), Ok d).

Definition makedirs (path : string) : M W unit :=
  fun st =>
    let '(w, r) := sys_makedirs path (world st) in
    let st' := mkState w (trace st ++ [EvMakedirs path]) in
    match r with
    | None => (st', Ok tt)
    | Some msg => (st', Raise (OSError msg))
    end.

Definition write_file (path text : string) : M W unit :=
  fun st =>
    let '(w, r) := sys_write path text (world st) in
    let st' := mkState w (trace st ++ [EvWrite path text]) in
    match r with
    | None => (st', Ok tt)
    | Some msg => (st', Raise (OSError msg))
    end.

(** *** The scenario catalog *)

Definition SCENARIO_GROUPS : gmap string (list string) :=
  list_to_map [
    ("slo-core",
      ["TF-SLO-VOL_DataVolumeReduction_SteadyWorkload";
       "TF-SLO-SER_ProcessCardinalityReduction_MixedWorkload";
       "TF-SLO-TOP5_DiagnosticIntegrity_TopCPUProcesses"]);
    ("slo-perf",
      ["TF-SLO-CPU_CollectorPerf_LoadTest_10Kdps_cAdvisor";
       "TF-SLO-RAM_CollectorPerf_LoadTest_10Kdps_HighState_cAdvisor";
       "TF-SLO-LAT_CollectorPipelineLatency_SteadyWorkload"]);
    ("slo-alert",
      ["TF-SLO-ALR_Recall_CPUSpikeReplay";
       "TF-SLO-ALR_Precision_NoSpikeWindow"]);
    ("mfr-basic",
      ["TF-MFR-SC.1_IngestionSources";
       "TF-MFR-SC.3_ExportSchema";
       "TF-MFR-SC.4_AttributeHandling"]);
    ("mfr-advanced",
      ["TF-MFR-SC.1.4_PidEnrichment_HostmetricsVariations";
       "TF-MFR-SC.5_Deduplication_MultiSourceMultiNode";
       "TF-MFR-SC.2_AggregationLogic_DiskIONetworkIO"]);
    ("mfr-components",
      ["TF-MFR-EP_AllRequirements";
       "TF-MFR-LA_AllRequirements"]);
    ("regression",
      ["TF-REG-Filter_HighCard_Memory_Scale";
       "TF-LINT-OTTL_StrictErrorMode"]);
    ("security",
      ["TF-SEC-1_SBOM_Validation";
       "TF-SEC-2_ImageSignature_Validation";
       "TF-SEC-3_EdgeProbeHardening"])
  ].

Definition enabled_pattern (scenario_id : string) : string :=
  "tf-k8s/scenarios/enabled/" +:+ scenario_id +:+ "/scenario_definition.yaml".

Definition pending_pattern (scenario_id : string) : string :=
  "tf-k8s/scenarios/pending/" +:+ scenario_id +:+ "/scenario_definition.yaml".

Definition wildcard_pattern (group : string) : string :=
  "tf-k8s/scenarios/enabled/" +:+ group +:+ "*/scenario_definition.yaml".

(** truth value of an optional string argument *)
Definition truthy (s : option string) : option string :=
  match s with
  | Some EmptyString => None
  | _ => s
  end.

(** the loop over the identifiers of a known group *)
Fixpoint find_group (ids : list string) (scenarios : list string)
  : M W (list string) :=
  match ids with
  | [] => ret scenarios
  | scenario_id :: ids' =>
      let* found := glob (enabled_pattern scenario_id) in
      match found with
      | [] =>
          print ("WARNING: Scenario " +:+ scenario_id +:+
                 " not found or not enabled") >>
          find_group ids' scenarios
      | _ => find_group ids' (scenarios ++ found)
      end
  end.

Definition find_scenarios (group : string) (scenario_id : option string)
  : M W (list string) :=
  match truthy scenario_id with
  | Some sid =>
      let* scenarios := glob (enabled_pattern sid) in
      match scenarios with
      | [] =>
          let* pending_scenarios := glob (pending_pattern sid) in
          match pending_scenarios with
          | _ :: _ =>
              print ("WARNING: Scenario " +:+ sid +:+
                     " is in pending status and won't be executed") >>
              ret scenarios
          | [] =>
              print ("ERROR: Scenario " +:+ sid +:+ " not found") >>
              ret scenarios
          end
      | _ => ret scenarios
      end
  | None =>
      match SCENARIO_GROUPS !! group with
      | Some ids => find_group ids []
      | None => glob (wildcard_pattern group)
      end
  end.

(** *** Namespace set-up and clean-up *)

(** [scenario.get('metadata', {}).get('id', 'unknown')] *)
Definition scenario_id_of (scenario : Scenario) : string :=
  match sc_metadata scenario with
  | Some md => default "unknown" (md_id md)
  | None => "unknown"
  end.

Definition namespace_of (scenario_id : string) : string :=
  "tf-k8s-" +:+ Str.replace "_" "-" (Str.lower scenario_id).

Fixpoint apply_manifests (manifest_files : list string) (namespace : string)
  : M W unit :=
  match manifest_files with
  | [] => ret tt
  | manifest :: rest =>
      print ("Applying " +:+ manifest) >>
      run_checked ["kubectl"; "apply"; "-f"; manifest; "-n"; namespace] >>
      apply_manifests rest namespace
  end.

Definition setup_scenario (scenario_path cluster_type : string)
  : M W (Scenario * string) :=
  print ("Setting up scenario from " +:+ scenario_path) >>
  let* scenario := load_yaml scenario_path in
  let scenario_id := scenario_id_of scenario in
  let namespace := namespace_of scenario_id in
  run_checked ["kubectl"; "create"; "namespace"; namespace] >>
  print ("Created namespace " +:+ namespace) >>
  let k8s_dir := Str.join (Str.dirname scenario_path) "k8s" in
  let* present := path_exists k8s_dir in
  (if present
   then let* manifest_files := glob (k8s_dir +:+ "/*.yaml") in
        apply_manifests manifest_files namespace
   else ret tt) >>
  ret (scenario, namespace).

Definition cleanup_scenario (scenario : Scenario) (namespace : string)
  : M W unit :=
  print ("Cleaning up scenario in namespace " +:+ namespace) >>
  run_checked ["kubectl"; "delete"; "namespace"; namespace; "--timeout=60s"].

(** *** Running the steps and evaluating the criteria *)

Definition set_success (b : bool) (r : Results) : Results :=
  {| res_scenario_id := res_scenario_id r;
     res_start_time := res_start_time r;
     res_steps := res_steps r;
     res_success := b;
     res_criteria := res_criteria r;
     res_end_time := res_end_time r |}.

Definition append_step (s : StepResult) (r : Results) : Results :=
  {| res_scenario_id := res_scenario_id r;
     res_start_time := res_start_time r;
     res_steps := res_steps r ++ [s];
     res_success := res_success r;
     res_criteria := res_criteria r;
     res_end_time := res_end_time r |}.

Definition set_criteria (cs : list CriterionResult) (r : Results) : Results :=
  {| res_scenario_id := res_scenario_id r;
     res_start_time := res_start_time r;
     res_steps := res_steps r;
     res_success := res_success r;
     res_criteria := Some cs;
     res_end_time := res_end_time r |}.

Definition append_criterion (c : CriterionResult) (r : Results) : Results :=
  set_criteria (default [] (res_criteria r) ++ [c]) r.

Definition set_end_time (t : string) (r : Results) : Results :=
  {| res_scenario_id := res_scenario_id r;
     res_start_time := res_start_time r;
     res_steps := res_steps r;
     res_success := res_success r;
     res_criteria := res_criteria r;
     res_end_time := Some t |}.

(** The variables the loop over the commands of one step updates:
    [step_success], [step_output] and the shared [results]. *)
Record StepVars := {
  step_success : bool;
  step_output : list string;
  step_results : Results
}.

(** [for cmd in commands: ...], the [except] branch ending in [break] *)
Fixpoint run_commands (commands : list string) (namespace : string)
    (v : StepVars) : M W StepVars :=
  match commands with
  | [] => ret v
  | cmd :: rest =>
      let cmd := Str.replace "{namespace}" namespace cmd in
      print ("Running command: " +:+ cmd) >>
      let* r := check_output cmd in
      match r with
      | inl output =>
          run_commands rest namespace
            {| step_success := step_success v;
               step_output := step_output v ++ [output];
               step_results := step_results v |}
      | inr e =>
          print ("Command failed: " +:+ e) >>
          ret {| step_success := false;
                 step_output := step_output v ++ ["ERROR: " +:+ e];
                 step_results := set_success false (step_results v) |}
      end
  end.

(** [step.get('critical', True)] *)
Definition critical (step : Step) : bool := default true (step_critical step).

(** the body of the loop over the steps, up to the abort test *)
Definition run_step (i : nat) (step : Step) (namespace : string)
    (results : Results) : M W (StepResult * Results) :=
  let step_name := default ("Step " +:+ Str.of_nat (i + 1)) (step_name step) in
  print ("Executing step: " +:+ step_name) >>
  let commands := default [] (step_commands step) in
  let* v := run_commands commands namespace
              {| step_success := true; step_output := [];
                 step_results := results |} in
  let sr := {| sr_name := step_name;
               sr_success := step_success v;
               sr_output := step_output v |} in
  ret (sr, append_step sr (step_results v)).

(** [for i, step in enumerate(steps): ...] *)
Fixpoint run_steps (i : nat) (steps : list Step) (namespace : string)
    (results : Results) : M W Results :=
  match steps with
  | [] => ret results
  | step :: rest =>
      let* p := run_step i step namespace results in
      let '(sr, results) := p in
      if negb (sr_success sr) && critical step
      then print ("Critical step " +:+ sr_name sr +:+
                  " failed - aborting scenario") >>
           ret results
      else run_steps (S i) rest namespace results
  end.

(** the body of the loop over the success criteria *)
Definition evaluate_criterion (criterion : Criterion) (results : Results)
  : Results :=
  let criterion_name := default "Unnamed criterion" (crit_name criterion) in
  let threshold := default 0 (crit_threshold criterion) in
  let actual := 0 in
  let criterion_success := true in
  let results :=
    append_criterion {| cr_name := criterion_name;
                        cr_threshold := threshold;
                        cr_actual := actual;
                        cr_success := criterion_success |} results in
  if negb criterion_success then set_success false results else results.

Definition evaluate_criteria (criteria : list Criterion) (results : Results)
  : Results :=
  foldl (fun r c => evaluate_criterion c r) (set_criteria [] results) criteria.

Definition run_scenario (scenario : Scenario) (namespace : string)
  : M W Results :=
  let scenario_id := scenario_id_of scenario in
  print ("Running scenario " +:+ scenario_id +:+ " in namespace " +:+
         namespace) >>
  let steps := default [] (sc_steps scenario) in
  let* start := now in
  let results := {| res_scenario_id := scenario_id;
                    res_start_time := isoformat start;
                    res_steps := [];
                    res_success := true;
                    res_criteria := None;
                    res_end_time := None |} in
  let* results := run_steps 0 steps namespace results in
  let criteria := default [] (sc_success_criteria scenario) in
  let results := evaluate_criteria criteria results in
  let* finish := now in
  ret (set_end_time (isoformat finish) results).

(** *** Saving the results *)

Definition results_filename (output_dir scenario_id : string) (d : datetime)
  : string :=
  output_dir +:+ "/" +:+ scenario_id +:+ "_" +:+ strftime_stamp d +:+ ".json".

Definition save_results (results : Results) (output_dir : string)
  : M W string :=
  makedirs output_dir >>
  let scenario_id := res_scenario_id results in
  let* stamp := now in
  let filename := results_filename output_dir scenario_id stamp in
  write_file filename (Json.dumps (results_json results)) >>
  print ("Results saved to " +:+ filename) >>
  ret filename.

Definition default_output_dir : string := "tf-k8s/reports".

(** *** The driver *)

Record Args := {
  arg_group : string;
  arg_cluster : string;
  arg_scenario : option string
}.

(** the body of the [try] block for one scenario file; its value is the
    [success] entry of the results *)
Definition execute_scenario (scenario_file cluster : string) : M W bool :=
  let* p := setup_scenario scenario_file cluster in
  let '(scenario, namespace) := p in
  let* results := run_scenario scenario namespace in
  save_results results default_output_dir >>
  cleanup_scenario scenario namespace >>
  ret (res_success results).

(** [for scenario_file in scenario_files: try: ... except Exception ...] *)
Fixpoint main_loop (scenario_files : list string) (cluster : string)
    (success : bool) : M W bool :=
  match scenario_files with
  | [] => ret success
  | scenario_file :: rest =>
      let* ok :=
        try_except (execute_scenario scenario_file cluster)
          (fun e =>
             print ("Error executing scenario " +:+ scenario_file +:+ ": " +:+
                    exn_str e) >>
             ret false) in
      main_loop rest cluster (if ok then success else false)
  end.

(** [main] after argument parsing; the value is the exit status. *)
Definition main (args : Args) : M W Z :=
  let* scenario_files :=
    match truthy (arg_scenario args) with
    | Some sid => find_scenarios (arg_group args) (Some sid)
    | None => find_scenarios (arg_group args) None
    end in
  match scenario_files with
  | [] =>
      print ("No enabled scenarios found for group " +:+ arg_group args) >>
      ret 1
  | _ =>
      let* success := main_loop scenario_files (arg_cluster args) true in
      if success then ret 0 else ret 1
  end.

End Runner.

(** ** The definition check of the separate validator
    ([TestValidator.validate_scenario_definition]) *)

Module Validator.

Definition is_upper (c : ascii) : bool :=
  let n := N_of_ascii c in ((65 <=? n) && (n <=? 90))%N.
Definition is_lower (c : ascii) : bool :=
  let n := N_of_ascii c in ((97 <=? n) && (n <=? 122))%N.
Definition is_digit (c : ascii) : bool :=
  let n := N_of_ascii c in ((48 <=? n) && (n <=? 57))%N.
Definition is_word (c : ascii) : bool :=
  is_upper c || is_lower c || is_digit c || Ascii.eqb c "_"%char.

(** the characters left after the longest run satisfying [p] *)
Fixpoint skip_run (p : ascii → bool) (l : list ascii) : list ascii :=
  match l with
  | c :: l' => if p c then skip_run p l' else l
  | [] => []
  end.

(** a non-empty run of word characters up to the end of the text, or up
    to a final line break *)
Fixpoint word_tail (l : list ascii) : bool :=
  match l with
  | [] => false
  | [c] => is_word c
  | [c; "010"%char] => is_word c
  | c :: l' => is_word c && word_tail l'
  end.

(** [re.match(r"^TF-[A-Z]+-[0-9]+_[A-Za-z0-9_]+$", s)] *)
Definition id_matches (s : string) : bool :=
  match list_ascii_of_string s with
  | "T"%char :: "F"%char :: "-"%char :: (c :: _) as l1 =>
      is_upper c &&
      match skip_run is_upper l1 with
      | "-"%char :: (d :: _) as l2 =>
          is_digit d &&
          match skip_run is_digit l2 with
          | "_"%char :: l3 => word_tail l3
          | _ => false
          end
      | _ => false
      end
  | _ => false
  end.

Definition missing {A} (field : option A) (msg : string) : list string :=
  match field with
  | Some _ => []
  | None => [msg]
  end.

Definition check_sections (sc : Scenario) : list string :=
  missing (sc_metadata sc)
    "Required section missing in scenario definition: metadata" ++
  missing (sc_requirements sc)
    "Required section missing in scenario definition: requirements" ++
  missing (sc_steps sc)
    "Required section missing in scenario definition: steps" ++
  missing (sc_success_criteria sc)
    "Required section missing in scenario definition: success_criteria".

Definition check_metadata (md : Metadata) : list string :=
  missing (md_id md) "Required metadata field missing: id" ++
  missing (md_name md) "Required metadata field missing: name" ++
  missing (md_description md) "Required metadata field missing: description" ++
  missing (md_version md) "Required metadata field missing: version" ++
  missing (md_tags md) "Required metadata field missing: tags" ++
  missing (md_eidc_references md)
    "Required metadata field missing: eidc_references" ++
  match md_id md with
  | Some i => if id_matches i then []
              else ["Invalid scenario ID format: " +:+ i]
  | None => []
  end.

Definition check_requirements (rq : Requirements) : list string :=
  match req_cluster_type rq with
  | None => ["Cluster type not specified in requirements"]
  | Some ct =>
      if bool_decide (ct = "kind") || bool_decide (ct = "k3d-duo") then []
      else ["Invalid cluster type: " +:+ ct]
  end ++
  match req_components rq with
  | None | Some [] => ["No components specified in requirements"]
  | Some (_ :: _) => []
  end.

(** [any(needle in cmd for cmd in s.get("commands", []))] *)
Definition step_mentions (needle : string) (s : Step) : bool :=
  existsb (Str.contains needle) (default [] (step_commands s)).

Definition deploy_steps (steps : list Step) : list Step :=
  filter (fun s => step_mentions "kubectl apply" s = true) steps.

Definition verify_steps (steps : list Step) : list Step :=
  filter (fun s => step_mentions "verify" s = true) steps.

Definition check_steps (steps : list Step) : list string :=
  (if (length steps <? 3)%nat
   then ["Insufficient steps in scenario: " +:+ Str.of_nat (length steps)]
   else []) ++
  match deploy_steps steps with
  | [] => ["No deployment step found"]
  | _ => []
  end ++
  match verify_steps steps with
  | [] => ["No verification step found"]
  | _ => []
  end.

Definition check_criterion (i : nat) (c : Criterion) : list string :=
  missing (crit_name c)
    ("Name missing in success criterion " +:+ Str.of_nat (i + 1)) ++
  missing (crit_threshold c)
    ("Threshold missing in success criterion " +:+ Str.of_nat (i + 1)) ++
  missing (crit_metric c)
    ("Metric missing in success criterion " +:+ Str.of_nat (i + 1)).

Fixpoint check_each_criterion (i : nat) (cs : list Criterion) : list string :=
  match cs with
  | [] => []
  | c :: cs' => check_criterion i c ++ check_each_criterion (S i) cs'
  end.

Definition check_criteria (cs : list Criterion) : list string :=
  (match cs with
   | [] => ["No success criteria specified"]
   | _ => []
   end) ++ check_each_criterion 0 cs.

Definition on_section {A} (section : option A) (check : A → list string)
  : list string :=
  match section with
  | Some a => check a
  | None => []
  end.

(** The errors recorded for a loaded definition, in the order of the
    checks. *)
Definition definition_errors (sc : Scenario) : list string :=
  check_sections sc ++
  on_section (sc_metadata sc) check_metadata ++
  on_section (sc_requirements sc) check_requirements ++
  on_section (sc_steps sc) check_steps ++
  on_section (sc_success_criteria sc) check_criteria.

(** [validate_scenario_definition]: [errors] is [self.errors] on entry;
    [loaded] is what opening and parsing the file gave. The value is
    [self.errors] on exit and the boolean returned. A document whose
    sections have another shape than the record's (a null [steps] entry,
    say) makes the checks of the source raise inside their [try], and the
    source then records an "Unexpected error" message; such a document
    has no [Scenario] record and is outside this definition. *)
Definition validate_scenario_definition (loaded : string + Scenario)
    (errors : list string) : list string * bool :=
  match loaded with
  | inr sc =>
      let errors := errors ++ definition_errors sc in
      (errors, bool_decide (length errors = 0%nat))
  | inl msg =>
      (errors ++ ["Error parsing scenario definition: " +:+ msg], false)
  end.

End Validator.

(** ** A simulated system, to run the program on concrete inputs *)

Module Sim.

Record World := {
  (** the scenario definition files and what they parse to *)
  definitions : list (string * Scenario);
  (** directories that exist *)
  directories : list string;
  (** files written so far *)
  files : list (string * string);
  (** words that make a [kubectl] invocation exit with a failure *)
  broken : list string;
  (** seconds elapsed *)
  clock : nat
}.

(** [*] matches any run of characters other than [/]. *)
Fixpoint glob_match (pat s : list ascii) : bool :=
  match pat with
  | [] => match s with [] => true | _ => false end
  | "*"%char :: pat' =>
      (fix star (s : list ascii) : bool :=
         glob_match pat' s ||
         match s with
         | c :: s' => negb (Ascii.eqb c "/"%char) && star s'
         | [] => false
         end) s
  | c :: pat' =>
      match s with
      | c' :: s' => Ascii.eqb c c' && glob_match pat' s'
      | [] => false
      end
  end.

Definition matches (pattern path : string) : bool :=
  glob_match (list_ascii_of_string pattern) (list_ascii_of_string path).

Definition lookup {A} (key : string) (l : list (string * A)) : option A :=
  snd <$> find (fun p => bool_decide (fst p = key)) l.

Definition tick (w : World) : World :=
  {| definitions := definitions w; directories := directories w;
     files := files w; broken := broken w; clock := S (clock w) |}.

Definition store (path text : string) (w : World) : World :=
  {| definitions := definitions w; directories := directories w;
     files := (path, text) :: files w; broken := broken w;
     clock := clock w |}.

Definition time_of (w : World) : datetime :=
  {| dt_year := 2025; dt_month := 6; dt_day := 1;
     dt_hour := 12; dt_minute := (clock w / 60) mod 60;
     dt_second := clock w mod 60; dt_microsecond := 0 |}.

(** A shell command fails when it starts with [false]; the output of a
    command that starts with [garbled] is not text. *)
Definition shell (cmd : string) (w : World) : World * (string + exn) :=
  if Str.prefix "false" cmd
  then (w, inr (CalledProcessError
                  ("Command '" +:+ cmd +:+
                   "' returned non-zero exit status 1.")))
  else if Str.prefix "garbled" cmd
  then (w, inr (UnicodeDecodeError
                  "'utf-8' codec can't decode byte 0xff in position 0: invalid start byte"))
  else (w, inl ("ran " +:+ cmd)).

Definition kubectl (argv : list string) (w : World) : World * option string :=
  if existsb (fun word => bool_decide (word ∈ broken w)) argv
  then (w, Some "Command 'kubectl' returned non-zero exit status 1.")
  else (w, None).

#[global] Instance system : System World := {|
  sys_check_output := shell;
  sys_run := kubectl;
  sys_glob pattern w :=
    filter (fun p => matches pattern p = true) (fst <$> definitions w);
  sys_exists path w := bool_decide (path ∈ directories w);
  sys_load_yaml path w :=
    match lookup path (definitions w) with
    | Some sc => inr sc
    | None => inl ("No such file or directory: " +:+ path)
    end;
  sys_now w := (tick w, time_of w);
  sys_makedirs path w := (w, None);
  sys_write path text w := (store path text w, None)
|}.

Definition step (name : string) (commands : list string)
    (is_critical : option bool) : Step :=
  {| step_name := Some name; step_commands := Some commands;
     step_critical := is_critical |}.

Definition criterion (name : string) (threshold : Z) : Criterion :=
  {| crit_name := Some name; crit_metric := Some name;
     crit_threshold := Some threshold |}.

Definition scenario (id : string) (steps : list Step)
    (criteria : list Criterion) : Scenario :=
  {| sc_metadata := Some {| md_id := Some id; md_name := Some id;
                            md_description := Some ""; md_version := Some "1";
                            md_tags := Some []; md_eidc_references := Some [] |};
     sc_requirements := Some {| req_cluster_type := Some "kind";
                                req_components := Some ["collector"] |};
     sc_steps := Some steps;
     sc_success_criteria := Some criteria |}.

Definition path_of (id : string) : string :=
  "tf-k8s/scenarios/enabled/" +:+ id +:+ "/scenario_definition.yaml".

Definition world_of (defs : list (string * Scenario)) (bad : list string)
  : World :=
  {| definitions := defs; directories := []; files := [];
     broken := bad; clock := 0 |}.

Definition start (w : World) : State World := mkState w [].

(** the value of a computation that returned *)
Definition value {A} (d : A) (r : State World * result A) : A :=
  match r with
  | (_, Ok a) => a
  | (_, Raise _) => d
  end.

Definition no_results : Results :=
  {| res_scenario_id := ""; res_start_time := ""; res_steps := [];
     res_success := false; res_criteria := None; res_end_time := None |}.

(** apply, a wait that fails, verify: the wait is critical by default *)
Definition wait_step (is_critical : option bool) : Step :=
  step "wait" ["sleep 1"; "false {namespace}"; "echo done"] is_critical.

Definition demo_steps (is_critical : option bool) : list Step :=
  [step "apply" ["kubectl apply -f app.yaml -n {namespace}"] None;
   wait_step is_critical;
   step "verify" ["python verify.py {namespace}"] None].

Definition demo (is_critical : option bool) : Scenario :=
  scenario "TF-DEMO-1_Wait" (demo_steps is_critical) [criterion "x" 10].

Definition demo_world (is_critical : option bool) (bad : list string) : World :=
  world_of [(path_of "TF-DEMO-1_Wait", demo is_critical)] bad.

Definition demo_namespace : string := "tf-k8s-tf-demo-1-wait".

Definition run_demo (is_critical : option bool)
  : State World * result Results :=
  run_scenario (demo is_critical) demo_namespace
    (start (demo_world is_critical [])).

(** a step that may fail, then a critical one, both failing *)
Definition warmup_step : Step := step "warmup" ["false warmup"] (Some false).
Definition deploy_step : Step := step "deploy" ["false deploy"] None.
Definition verify_step : Step := step "verify" ["python verify.py"] None.

Definition two_failures : Scenario :=
  scenario "TF-DEMO-2_Two" [warmup_step; deploy_step; verify_step]
    [criterion "x" 10].

(** three steps, none of which applies a manifest; all succeed *)
Definition no_apply : Scenario :=
  scenario "TF-DEMO-3_NoApply"
    [step "wait" ["sleep 1"] None; verify_step; step "report" ["echo ok"] None]
    [criterion "x" 10].

Definition no_apply_world (bad : list string) : World :=
  world_of [(path_of "TF-DEMO-3_NoApply", no_apply)] bad.

Definition run_two_failures : State World * result Results :=
  run_scenario two_failures "tf-k8s-tf-demo-2-two"
    (start (world_of [(path_of "TF-DEMO-2_Two", two_failures)] [])).


End Sim.

(** ** Notions used to state the properties *)

Section Notions.

Context {W : Type} `{System W}.

(** The environment lets every command of [cmds] succeed, one after the
    other from world [w]: the world reached and the outputs captured. *)
Fixpoint all_succeed (cmds : list string) (w : W)
  : option (W * list string) :=
  match cmds with
  | [] => Some (w, [])
  | cmd :: rest =>
      match sys_check_output cmd w with
      | (w', inl output) =>
          match all_succeed rest w' with
          | Some (w'', outputs) => Some (w'', output :: outputs)
          | None => None
          end
      | (_, inr _) => None
      end
  end.

(** what the runner prints and runs for commands that all succeed *)
Definition command_events (cmds : list string) : list event :=
  flat_map (fun cmd => [EvPrint ("Running command: " +:+ cmd); EvShell cmd])
           cmds.

Definition substituted (namespace : string) (cmds : list string)
  : list string :=
  Str.replace "{namespace}" namespace <$> cmds.

(** [step.get('name', f"Step {i+1}")] *)
Definition step_label (i : nat) (s : Step) : string :=
  default ("Step " +:+ Str.of_nat (i + 1)) (step_name s).

(** The step results recorded for a list of steps numbered from [i]: one
    per step, in order and under the step's name, up to and including the
    first step that failed while critical. *)
Fixpoint recorded (i : nat) (steps : list Step) (srs : list StepResult)
  : Prop :=
  match steps, srs with
  | [], [] => True
  | s :: steps', sr :: srs' =>
      sr_name sr = step_label i s ∧
      if negb (sr_success sr) && critical s
      then srs' = []
      else recorded (S i) steps' srs'
  | _, _ => False
  end.

(** the entry the criteria loop appends for one criterion *)
Definition criterion_result (c : Criterion) : CriterionResult :=
  {| cr_name := default "Unnamed criterion" (crit_name c);
     cr_threshold := default 0 (crit_threshold c);
     cr_actual := 0;
     cr_success := true |}.

(** the scenario with another list of steps *)
Definition with_steps (steps : list Step) (sc : Scenario) : Scenario :=
  {| sc_metadata := sc_metadata sc;
     sc_requirements := sc_requirements sc;
     sc_steps := Some steps;
     sc_success_criteria := sc_success_criteria sc |}.

(** [datetime.now()]: the state after the call and the value read *)
Definition now_state (st : State W) : State W :=
  mkState (fst (sys_now (world st))) (trace st).
Definition now_value (st : State W) : datetime := snd (sys_now (world st)).

(** the record [run_scenario] starts from *)
Definition initial_results (scenario_id : string) (start : datetime)
  : Results :=
  {| res_scenario_id := scenario_id;
     res_start_time := isoformat start;
     res_steps := [];
     res_success := true;
     res_criteria := None;
     res_end_time := None |}.

(** One scenario goes through set-up, run, save and clean-up without an
    exception, and its results say success. *)
Definition scenario_passes (scenario_file cluster : string)
    (st st' : State W) : Prop :=
  ∃ scenario namespace st1 results st2 filename st3,
    setup_scenario scenario_file cluster st = (st1, Ok (scenario, namespace)) ∧
    run_scenario scenario namespace st1 = (st2, Ok results) ∧
    res_success results = true ∧
    save_results results default_output_dir st2 = (st3, Ok filename) ∧
    cleanup_scenario scenario namespace st3 = (st', Ok tt).

(** every scenario of the list passes, each from the state the previous
    one left *)
Fixpoint all_pass (scenario_files : list string) (cluster : string)
    (st st' : State W) : Prop :=
  match scenario_files with
  | [] => st' = st
  | f :: rest =>
      ∃ st1, scenario_passes f cluster st st1 ∧ all_pass rest cluster st1 st'
  end.

(** what a step's command loop did to the variables it updates *)
Definition commands_effect (v v' : StepVars) : Prop :=
  (step_success v' = step_success v ∧ step_results v' = step_results v) ∨
  (step_success v' = false ∧
   step_results v' = set_success false (step_results v)).

(** fields of the results that the loops over steps never touch *)
Definition same_header (r r' : Results) : Prop :=
  res_scenario_id r' = res_scenario_id r ∧
  res_start_time r' = res_start_time r ∧
  res_criteria r' = res_criteria r ∧
  res_end_time r' = res_end_time r.

(** the line printed when a step starts *)
Definition step_announcement (sr : StepResult) : event :=
  EvPrint ("Executing step: " +:+ sr_name sr).

(** the commands of all the steps of a definition, after substitution *)
Definition listed_commands (scenario : Scenario) (namespace : string)
  : list string :=
  substituted namespace
    (concat ((λ s, default [] (step_commands s)) <$>
             default [] (sc_steps scenario))).


(** what the runner prints and runs for a command that exits with a
    failure, [e] being the text of the [CalledProcessError] *)
Definition failure_events (cmd e : string) : list event :=
  [EvPrint ("Running command: " +:+ cmd); EvShell cmd;
   EvPrint ("Command failed: " +:+ e)].

(** Step [s], the step numbered [i], is executed from world [w] and
    recorded as [sr]: the step is announced under its name; then either
    all its commands are run and succeed, their outputs being the output
    recorded, or its commands are run up to the first one that exits with
    a failure, and the outputs so far and the error entry are recorded.
    [evs] is what is printed and run, [w'] the world reached. *)
Definition step_executed (i : nat) (s : Step) (namespace : string) (w : W)
    (sr : StepResult) (evs : list event) (w' : W) : Prop :=
  let commands := default [] (step_commands s) in
  let announced := EvPrint ("Executing step: " +:+ step_label i s) in
  sr_name sr = step_label i s ∧
  ((sr_success sr = true ∧
    all_succeed (substituted namespace commands) w = Some (w', sr_output sr) ∧
    evs = announced :: command_events (substituted namespace commands)) ∨
   (sr_success sr = false ∧
    ∃ pre cmd post w1 outputs e,
      commands = pre ++ cmd :: post ∧
      all_succeed (substituted namespace pre) w = Some (w1, outputs) ∧
      sys_check_output (Str.replace "{namespace}" namespace cmd) w1 =
        (w', inr (CalledProcessError e)) ∧
      sr_output sr = outputs ++ ["ERROR: " +:+ e] ∧
      evs = announced :: command_events (substituted namespace pre) ++
            failure_events (Str.replace "{namespace}" namespace cmd) e)).

(** The steps [steps], numbered from [i], are executed one after the
    other from world [w] and recorded as [srs], up to and including the
    first step that fails while critical, after which the abort line is
    printed. *)
Fixpoint steps_executed (i : nat) (steps : list Step) (namespace : string)
    (w : W) (srs : list StepResult) (evs : list event) (w' : W) : Prop :=
  match steps, srs with
  | [], [] => evs = [] ∧ w' = w
  | s :: steps', sr :: srs' =>
      ∃ w1 evs1 evs2,
        step_executed i s namespace w sr evs1 w1 ∧
        evs = evs1 ++ evs2 ∧
        if negb (sr_success sr) && critical s
        then srs' = [] ∧ w' = w1 ∧
             evs2 = [EvPrint ("Critical step " +:+ sr_name sr +:+
                              " failed - aborting scenario")]
        else steps_executed (S i) steps' namespace w1 srs' evs2 w'
  | _, _ => False
  end.

End Notions.

(** ** Notions used to state the properties of the catalog and the set-up *)

(** a text of ASCII characters only: on such a text the byte strings of
    the embedding are Python's strings, character by character *)
Definition ascii_only (s : string) : bool :=
  forallb (λ c, (N_of_ascii c <? 128)%N) (list_ascii_of_string s).

Section DriverNotions.

Context {W : Type} `{System W}.

(** the files the catalog returns for the identifiers of a group *)
Definition enabled_files (ids : list string) (w : W) : list string :=
  flat_map (fun scenario_id => sys_glob (enabled_pattern scenario_id) w) ids.

(** the warnings it prints on the way, one per identifier without a file *)
Definition not_enabled_warnings (ids : list string) (w : W) : list event :=
  flat_map (fun scenario_id =>
              match sys_glob (enabled_pattern scenario_id) w with
              | [] => [EvPrint ("WARNING: Scenario " +:+ scenario_id +:+
                                " not found or not enabled")]
              | _ => []
              end) ids.

(** the line printed for a requested scenario that is not enabled *)
Definition not_enabled_notice (sid : string) (w : W) : event :=
  match sys_glob (pending_pattern sid) w with
  | _ :: _ => EvPrint ("WARNING: Scenario " +:+ sid +:+
                       " is in pending status and won't be executed")
  | [] => EvPrint ("ERROR: Scenario " +:+ sid +:+ " not found")
  end.

Definition apply_argv (namespace manifest : string) : list string :=
  ["kubectl"; "apply"; "-f"; manifest; "-n"; namespace].

(** The cluster accepts every manifest of the list, one after the other
    from world [w]: the world reached. *)
Fixpoint all_applied (manifest_files : list string) (namespace : string) (w : W)
  : option W :=
  match manifest_files with
  | [] => Some w
  | manifest :: rest =>
      match sys_run (apply_argv namespace manifest) w with
      | (w', None) => all_applied rest namespace w'
      | (_, Some _) => None
      end
  end.

(** what the set-up prints and runs for manifests that are all accepted *)
Definition apply_events (manifest_files : list string) (namespace : string)
  : list event :=
  flat_map (fun manifest => [EvPrint ("Applying " +:+ manifest);
                             EvRun (apply_argv namespace manifest)])
           manifest_files.

(** the directory of manifests next to a definition file *)
Definition k8s_dir_of (scenario_path : string) : string :=
  Str.join (Str.dirname scenario_path) "k8s".

(** the manifests the set-up applies, as world [w] lists them *)
Definition manifests_of (scenario_path : string) (w : W) : list string :=
  if sys_exists (k8s_dir_of scenario_path) w
  then sys_glob (k8s_dir_of scenario_path +:+ "/*.yaml") w
  else [].

(** what the set-up prints and runs up to the creation of the namespace *)
Definition namespace_events (scenario_path namespace : string) : list event :=
  [EvPrint ("Setting up scenario from " +:+ scenario_path);
   EvRun ["kubectl"; "create"; "namespace"; namespace];
   EvPrint ("Created namespace " +:+ namespace)].

(** a [kubectl delete] call that the runner makes itself, through
    [subprocess.run]; what a command of a step does through the shell is
    not seen here *)
Definition deletes (e : event) : bool :=
  match e with
  | EvRun argv => bool_decide (argv !! 1%nat = Some "delete")
  | _ => false
  end.

(** a printed line, or the run of one of the commands [cmds] *)
Definition prints_or_runs (cmds : list string) (e : event) : Prop :=
  match e with
  | EvPrint _ => True
  | EvShell cmd => cmd ∈ cmds
  | _ => False
  end.

(** The environment lets every command of every step succeed, one after
    the other from world [w]: the world reached and the outputs captured,
    step by step. *)
Fixpoint steps_succeed (steps : list Step) (namespace : string) (w : W)
  : option (W * list (list string)) :=
  match steps with
  | [] => Some (w, [])
  | s :: rest =>
      match all_succeed (substituted namespace (default [] (step_commands s)))
                        w with
      | Some (w', outputs) =>
          match steps_succeed rest namespace w' with
          | Some (w'', more) => Some (w'', outputs :: more)
          | None => None
          end
      | None => None
      end
  end.

(** what the runner prints and runs for steps, numbered from [i], whose
    commands all succeed *)
Fixpoint step_events (i : nat) (steps : list Step) (namespace : string)
  : list event :=
  match steps with
  | [] => []
  | s :: rest =>
      EvPrint ("Executing step: " +:+ step_label i s) ::
      command_events (substituted namespace (default [] (step_commands s))) ++
      step_events (S i) rest namespace
  end.

(** the results recorded for such steps, given the outputs captured *)
Fixpoint step_successes (i : nat) (steps : list Step)
    (outputs : list (list string)) : list StepResult :=
  match steps, outputs with
  | s :: rest, output :: more =>
      {| sr_name := step_label i s; sr_success := true; sr_output := output |} ::
      step_successes (S i) rest more
  | _, _ => []
  end.

(** The output recorded for a step fits its outcome: one entry per
    command when the step succeeded; otherwise the outputs of the
    commands that succeeded, fewer than the step has commands, followed
    by one error entry. *)
Definition output_fits (step : Step) (sr : StepResult) : Prop :=
  let n := length (default [] (step_commands step)) in
  if sr_success sr
  then length (sr_output sr) = n
  else ∃ outputs e, sr_output sr = outputs ++ ["ERROR: " +:+ e] ∧
                    (length outputs < n)%nat.

End DriverNotions.

(** ** More simulated worlds *)

Module SimFiles.

Definition manifest (name : string) : string :=
  "tf-k8s/scenarios/enabled/TF-DEMO-3_NoApply/k8s/" +:+ name.

(** the scenario [Sim.no_apply] with three manifests next to it; the
    listing of a directory is the part of [Sim.definitions] it matches *)
Definition manifest_world (bad : list string) : Sim.World :=
  {| Sim.definitions :=
       [(Sim.path_of "TF-DEMO-3_NoApply", Sim.no_apply);
        (manifest "a.yaml", Sim.no_apply);
        (manifest "b.yaml", Sim.no_apply);
        (manifest "c.yaml", Sim.no_apply)];
     Sim.directories := ["tf-k8s/scenarios/enabled/TF-DEMO-3_NoApply/k8s"];
     Sim.files := [];
     Sim.broken := bad;
     Sim.clock := 0 |}.

Definition namespace : string := "tf-k8s-tf-demo-3-noapply".

End SimFiles.

(** ** Notions used to state the properties of the validator *)

Module WellFormed.

(** [TF-<category>-<number>_<name>], with an optional final line break:
    a category of upper-case letters, a number of digits, a name of
    letters, digits and underscores, none of them empty *)
Definition identifier (s : string) : Prop :=
  ∃ category number name ending,
    list_ascii_of_string s =
      ["T"; "F"; "-"]%char ++ category ++ "-"%char :: number ++
      "_"%char :: name ++ ending ∧
    category ≠ [] ∧ Forall (λ c, Validator.is_upper c = true) category ∧
    number ≠ [] ∧ Forall (λ c, Validator.is_digit c = true) number ∧
    name ≠ [] ∧ Forall (λ c, Validator.is_word c = true) name ∧
    (ending = [] ∨ ending = ["010"%char]).

Definition metadata (md : Metadata) : Prop :=
  (∃ i, md_id md = Some i ∧ Validator.id_matches i = true) ∧
  is_Some (md_name md) ∧ is_Some (md_description md) ∧
  is_Some (md_version md) ∧ is_Some (md_tags md) ∧
  is_Some (md_eidc_references md).

Definition requirements (rq : Requirements) : Prop :=
  (req_cluster_type rq = Some "kind" ∨ req_cluster_type rq = Some "k3d-duo") ∧
  ∃ c cs, req_components rq = Some (c :: cs).

Definition steps (l : list Step) : Prop :=
  (3 ≤ length l)%nat ∧
  (∃ s, s ∈ l ∧ Validator.step_mentions "kubectl apply" s = true) ∧
  (∃ s, s ∈ l ∧ Validator.step_mentions "verify" s = true).

Definition criterion (c : Criterion) : Prop :=
  is_Some (crit_name c) ∧ is_Some (crit_threshold c) ∧ is_Some (crit_metric c).

Definition criteria (l : list Criterion) : Prop :=
  l ≠ [] ∧ Forall criterion l.

(** a definition with the four sections, each as the validator wants it *)
Definition definition (sc : Scenario) : Prop :=
  ∃ md rq l cs,
    sc_metadata sc = Some md ∧ sc_requirements sc = Some rq ∧
    sc_steps sc = Some l ∧ sc_success_criteria sc = Some cs ∧
    metadata md ∧ requirements rq ∧ steps l ∧ criteria cs.

End WellFormed.

(** ** The whole validator ([TestValidator] of
    [.bot/scripts/validate-failing-test.py])

    The validator reads the scenario directory and runs tools on its
    files; it changes nothing that it reads later, so that its
    environment is an interface of read-only questions over a type [P] of
    paths. Every exception is caught inside the check that meets it. A
    Kubernetes resource document is a mapping or an empty document, and
    its [metadata] entry a mapping. *)

(** what opening and parsing the definition file gives *)
Inductive loaded :=
| Loaded (scenario : Scenario)
| YamlError (msg : string)
| OtherError (msg : string).

Record ResourceMetadata := {
  rm_name : option string
}.

Record Resource := {
  rs_kind : option string;
  rs_metadata : option ResourceMetadata
}.

(** what reading a resource file and [list(yaml.safe_load_all(content))]
    give; [None] is a document that counts as false (no content, or an
    empty mapping), [Some] a mapping with at least one entry *)
Inductive documents :=
| Documents (docs : list (option Resource))
| DocumentsYamlError (msg : string)
| DocumentsOtherError (msg : string).

(** [subprocess.run(argv, capture_output=True, text=True)] *)
Inductive process :=
| Exited (returncode : Z) (stdout stderr : string)
| NotStarted (msg : string).

Class Files (P : Type) := {
  (** [path / name] *)
  fs_child : P → string → P;
  (** [str(path)] *)
  fs_show : P → string;
  (** [path.exists()] *)
  fs_exists : P → bool;
  (** [list(path.glob(pattern))] *)
  fs_glob : P → string → list P;
  (** [open(path)] followed by [yaml.safe_load] *)
  fs_load_definition : P → loaded;
  (** [os.access(path, os.X_OK)] *)
  fs_executable : P → bool;
  (** [open(path).read()]: the text of the exception, or the content *)
  fs_read : P → string + string;
  (** [re.search(pattern, content)] finds a match *)
  fs_search : string → string → bool;
  (** [open(path).read()] followed by [list(yaml.safe_load_all(content))] *)
  fs_load_all : P → documents;
  (** [python -m py_compile path] *)
  fs_py_compile : P → process;
  (** [which yamllint] *)
  fs_which_yamllint : process;
  (** [yamllint -d relaxed path] *)
  fs_yamllint : P → process
}.

Module TestValidator.

(** [self.errors], [self.warnings] and the lines printed *)
Record Report := {
  errors : list string;
  warnings : list string;
  printed : list string
}.

(** the validator as [__init__] leaves it *)
Definition fresh : Report :=
  {| errors := []; warnings := []; printed := [] |}.

Definition add_error (msg : string) (r : Report) : Report :=
  {| errors := errors r ++ [msg]; warnings := warnings r;
     printed := printed r |}.

Definition add_warning (msg : string) (r : Report) : Report :=
  {| errors := errors r; warnings := warnings r ++ [msg];
     printed := printed r |}.

Definition print_line (line : string) (r : Report) : Report :=
  {| errors := errors r; warnings := warnings r;
     printed := printed r ++ [line] |}.

Definition set_errors (l : list string) (r : Report) : Report :=
  {| errors := l; warnings := warnings r; printed := printed r |}.

(** What a check may do to the report: it adds the errors [added] after
    those recorded, and keeps the warnings and the lines printed. *)
Definition grows (added : list string) (r r' : Report) : Prop :=
  errors r' = errors r ++ added ∧
  warnings r `prefix_of` warnings r' ∧
  printed r `prefix_of` printed r'.

(** [len(self.errors) == 0] *)
Definition no_errors (r : Report) : bool :=
  bool_decide (length (errors r) = 0%nat).

Definition required_files : list string := ["scenario_definition.yaml"].

Definition quote : string := String "034"%char "".

(** the patterns looked for in a verification script, with their
    descriptions *)
Definition patterns : list (string * string) :=
  [("if\s+__name__\s*==\s*['\" +:+ quote +:+ "]__main__['\" +:+ quote +:+ "]",
    "Main execution block");
   ("sys\.exit", "Exit with status code");
   ("parse_args|argparse", "Command-line argument parsing");
   ("class\s+\w+", "Class definition")].

Section Checks.

Context {P : Type} `{Files P}.

Variable scenario_path : P.
Variable verbose : bool.

Definition log (message : string) (r : Report) : Report :=
  if verbose then print_line message r else r.

(** the loop over the required files: [Some] is the early return *)
Fixpoint check_required (file_names : list string) (r : Report)
  : option Report :=
  match file_names with
  | [] => None
  | file_name :: rest =>
      let file_path := fs_child scenario_path file_name in
      if negb (fs_exists file_path)
      then Some (add_error ("Required file missing: " +:+ fs_show file_path) r)
      else check_required rest r
  end.

(** [list(k8s_dir.glob("*.yaml")) + list(k8s_dir.glob("*.yml"))] *)
Definition resource_files (k8s_dir : P) : list P :=
  fs_glob k8s_dir "*.yaml" ++ fs_glob k8s_dir "*.yml".

Definition check_directory_structure (r : Report) : Report * bool :=
  let r := log ("Checking directory structure for " +:+
                fs_show scenario_path) r in
  if negb (fs_exists scenario_path)
  then (add_error ("Scenario directory does not exist: " +:+
                   fs_show scenario_path) r, false)
  else
    match check_required required_files r with
    | Some r => (r, false)
    | None =>
        let k8s_dir := fs_child scenario_path "k8s" in
        let r :=
          if negb (fs_exists k8s_dir)
          then add_warning ("K8s directory missing: " +:+ fs_show k8s_dir) r
          else
            match resource_files k8s_dir with
            | [] => add_warning ("No Kubernetes resource files found in " +:+
                                 fs_show k8s_dir) r
            | _ => r
            end in
        (r, no_errors r)
    end.

Definition validate_scenario_definition (r : Report) : Report * bool :=
  let scenario_file := fs_child scenario_path "scenario_definition.yaml" in
  let r := log ("Validating scenario definition: " +:+
                fs_show scenario_file) r in
  match fs_load_definition scenario_file with
  | Loaded scenario =>
      let '(l, ok) :=
        Validator.validate_scenario_definition (inr scenario) (errors r) in
      (set_errors l r, ok)
  | YamlError msg =>
      let '(l, ok) :=
        Validator.validate_scenario_definition (inl msg) (errors r) in
      (set_errors l r, ok)
  | OtherError msg =>
      (add_error ("Unexpected error validating scenario definition: " +:+
                  msg) r, false)
  end.

(** the loop over the patterns *)
Fixpoint check_patterns (l : list (string * string)) (content : string)
    (r : Report) : Report :=
  match l with
  | [] => r
  | (pattern, description) :: rest =>
      let r :=
        if negb (fs_search pattern content)
        then add_warning ("Verification script missing: " +:+ description) r
        else r in
      check_patterns rest content r
  end.

Definition check_verification_script (r : Report) : Report * bool :=
  match fs_glob scenario_path "verify*.py" with
  | [] => (add_warning "No verification script found" r, true)
  | verify_script :: _ =>
      let r := log ("Checking verification script: " +:+
                    fs_show verify_script) r in
      let r :=
        if negb (fs_executable verify_script)
        then add_warning ("Verification script is not executable: " +:+
                          fs_show verify_script) r
        else r in
      match fs_read verify_script with
      | inr content => (check_patterns patterns content r, true)
      | inl e =>
          (add_warning ("Error checking verification script: " +:+ e) r, true)
      end
  end.

(** the body of the loop over the documents of one resource file *)
Definition check_document (yaml_file : P) (i : nat) (doc : option Resource)
    (r : Report) : Report :=
  let place := "YAML document " +:+ Str.of_nat (i + 1) +:+ " in " +:+
               fs_show yaml_file in
  match doc with
  | None => add_warning ("Empty " +:+ place) r
  | Some doc =>
      let r :=
        match rs_kind doc with
        | None => add_warning ("Missing 'kind' in " +:+ place) r
        | Some _ => r
        end in
      match rs_metadata doc with
      | None => add_warning ("Missing 'metadata' in " +:+ place) r
      | Some metadata =>
          match rm_name metadata with
          | None => add_warning ("Missing 'metadata.name' in " +:+ place) r
          | Some _ => r
          end
      end
  end.

Fixpoint check_documents (yaml_file : P) (i : nat)
    (docs : list (option Resource)) (r : Report) : Report :=
  match docs with
  | [] => r
  | doc :: rest =>
      check_documents yaml_file (S i) rest (check_document yaml_file i doc r)
  end.

(** the body of the loop over the resource files *)
Definition check_resource_file (yaml_file : P) (r : Report) : Report :=
  match fs_load_all yaml_file with
  | Documents [] => add_warning ("Empty YAML file: " +:+ fs_show yaml_file) r
  | Documents docs => check_documents yaml_file 0 docs r
  | DocumentsYamlError e =>
      add_error ("Error parsing YAML file " +:+ fs_show yaml_file +:+ ": " +:+
                 e) r
  | DocumentsOtherError e =>
      add_warning ("Unexpected error checking YAML file " +:+
                   fs_show yaml_file +:+ ": " +:+ e) r
  end.

Definition check_k8s_resources (r : Report) : Report * bool :=
  let k8s_dir := fs_child scenario_path "k8s" in
  if negb (fs_exists k8s_dir) then (r, true)
  else
    match resource_files k8s_dir with
    | [] => (r, true)
    | yaml_files =>
        let r := log ("Checking " +:+ Str.of_nat (length yaml_files) +:+
                      " Kubernetes resource files") r in
        let r := foldl (λ r yaml_file, check_resource_file yaml_file r)
                       r yaml_files in
        (r, no_errors r)
    end.

(** the body of the loop over the Python files *)
Definition check_python_file (py_file : P) (r : Report) : Report :=
  match fs_py_compile py_file with
  | Exited returncode _ stderr =>
      if negb (returncode =? 0)
      then add_error ("Python syntax error in " +:+ fs_show py_file +:+
                      ": " +:+ stderr) r
      else r
  | NotStarted e =>
      add_warning ("Error checking Python syntax for " +:+ fs_show py_file +:+
                   ": " +:+ e) r
  end.

(** the body of the loop over the YAML files handed to [yamllint] *)
Definition lint_yaml_file (yaml_file : P) (r : Report) : Report :=
  match fs_yamllint yaml_file with
  | Exited returncode stdout _ =>
      if negb (returncode =? 0)
      then add_warning ("YAML lint issues in " +:+ fs_show yaml_file +:+
                        ": " +:+ stdout) r
      else r
  | NotStarted e =>
      add_warning ("Error checking YAML syntax for " +:+ fs_show yaml_file +:+
                   ": " +:+ e) r
  end.

Definition check_syntax (r : Report) : Report * bool :=
  let r := log "Running syntax checks" r in
  let py_files := fs_glob scenario_path "*.py" in
  let r := foldl (λ r py_file, check_python_file py_file r) r py_files in
  let r :=
    match fs_which_yamllint with
    | Exited returncode _ _ =>
        if returncode =? 0
        then
          let yaml_files := fs_glob scenario_path "**/*.yaml" ++
                            fs_glob scenario_path "**/*.yml" in
          foldl (λ r yaml_file, lint_yaml_file yaml_file r) r yaml_files
        else r
    | NotStarted _ =>
        log "yamllint not available, skipping YAML syntax check" r
    end in
  (r, no_errors r).

Definition checks : list (Report → Report * bool) :=
  [check_directory_structure;
   validate_scenario_definition;
   check_verification_script;
   check_k8s_resources;
   check_syntax].

(** [for check in checks: if not check(): all_passed = False] *)
Fixpoint run_checks (l : list (Report → Report * bool)) (all_passed : bool)
    (r : Report) : Report * bool :=
  match l with
  | [] => (r, all_passed)
  | check :: rest =>
      let '(r, ok) := check r in
      run_checks rest (if negb ok then false else all_passed) r
  end.

Definition validate (r : Report) : Report * bool :=
  let r := log ("Validating failing test: " +:+ fs_show scenario_path) r in
  run_checks checks true r.

(** the numbered lines of [print_results] *)
Fixpoint numbered (i : nat) (l : list string) : list string :=
  match l with
  | [] => []
  | x :: rest =>
      ("  " +:+ Str.of_nat (i + 1) +:+ ". " +:+ x) :: numbered (S i) rest
  end.

Definition print_results (r : Report) : Report * bool :=
  match errors r, warnings r with
  | [], [] =>
      (print_line ("✅ Test scenario " +:+ fs_show scenario_path +:+
                   " is valid") r, true)
  | _, _ =>
      let lines :=
        match errors r with
        | [] => []
        | l => ("❌ Found " +:+ Str.of_nat (length l) +:+ " errors:") ::
               numbered 0 l
        end ++
        match warnings r with
        | [] => []
        | l => ("⚠️ Found " +:+ Str.of_nat (length l) +:+ " warnings:") ::
               numbered 0 l
        end in
      ({| errors := errors r; warnings := warnings r;
          printed := printed r ++ lines |}, no_errors r)
  end.

(** the script: the report at the end and the exit status *)
Definition script : Report * Z :=
  let '(r, valid) := validate fresh in
  let '(r, _) := print_results r in
  (r, if valid then 0 else 1).

(** *** What the validator asks of a scenario directory *)

(** the directory and the required files exist *)
Definition directory_ok : Prop :=
  fs_exists scenario_path = true ∧
  ∀ file_name, file_name ∈ required_files →
               fs_exists (fs_child scenario_path file_name) = true.

(** the definition file is read and is well formed *)
Definition definition_ok : Prop :=
  ∃ scenario,
    fs_load_definition (fs_child scenario_path "scenario_definition.yaml") =
      Loaded scenario ∧
    WellFormed.definition scenario.

(** no resource file of the [k8s] directory, if there is one, has a YAML
    error *)
Definition resources_ok : Prop :=
  fs_exists (fs_child scenario_path "k8s") = true →
  ∀ yaml_file msg,
    yaml_file ∈ resource_files (fs_child scenario_path "k8s") →
    fs_load_all yaml_file ≠ DocumentsYamlError msg.

(** no Python file of the directory is refused by [py_compile] *)
Definition python_ok : Prop :=
  ∀ py_file returncode stdout stderr,
    py_file ∈ fs_glob scenario_path "*.py" →
    fs_py_compile py_file = Exited returncode stdout stderr →
    returncode = 0.

End Checks.

End TestValidator.

(** ** A simulated scenario directory *)

Module SimDir.

(** A directory [dir] holding the definition of [Sim.demo], one
    verification script and one resource file. [syntax_error] makes the
    script fail to compile; [bad_resource] makes the resource file
    unreadable as YAML. *)
Record Setting := {
  syntax_error : bool;
  bad_resource : bool
}.

Definition present : list string :=
  ["dir"; "dir/scenario_definition.yaml"; "dir/k8s"].

Definition files (s : Setting) : Files string := {|
  fs_child path name := path +:+ "/" +:+ name;
  fs_show path := path;
  fs_exists path := bool_decide (path ∈ present);
  fs_glob path pattern :=
    if bool_decide (path = "dir") &&
       (bool_decide (pattern = "verify*.py") || bool_decide (pattern = "*.py"))
    then ["dir/verify_demo.py"]
    else if bool_decide (path = "dir/k8s") && bool_decide (pattern = "*.yaml")
    then ["dir/k8s/app.yaml"]
    else [];
  fs_load_definition path :=
    if bool_decide (path = "dir/scenario_definition.yaml")
    then Loaded (Sim.demo None)
    else OtherError ("No such file or directory: " +:+ path);
  fs_executable path := false;
  fs_read path := inr "import sys";
  fs_search pattern content := Str.contains pattern content;
  fs_load_all path :=
    if bad_resource s then DocumentsYamlError "mapping values are not allowed here"
    else Documents [Some {| rs_kind := Some "Deployment";
                            rs_metadata := Some {| rm_name := None |} |}];
  fs_py_compile path :=
    if syntax_error s then Exited 1 "" "SyntaxError: invalid syntax"
    else Exited 0 "" "";
  fs_which_yamllint := Exited 1 "" "";
  fs_yamllint path := Exited 0 "" ""
|}.

End SimDir.

(** ** The verification script of the command-line hashing scenario
    ([verify_hashing.py])

    The script divides two integers and multiplies the quotient by 100;
    Python does this in binary floating point. The embedding keeps the
    type of floats abstract: the script is a function of the arithmetic
    it is run with. Strings are compared with ASCII patterns only, for
    which the bytes of the UTF-8 text and its characters agree. *)

Class FloatArith (F : Type) := {
  (** [a / b] for two integers, [b] not zero *)
  flt_div : Z → Z → F;
  (** [x * n] for an integer [n] *)
  flt_mul : F → Z → F;
  (** [x == n] for an integer [n] *)
  flt_eq : F → Z → bool;
  (** [str(x)] *)
  flt_str : F → string
}.

Module Hashing.

(** a value that is an integer or a float *)
Inductive number (F : Type) :=
| Int (z : Z)
| Float (x : F).
Arguments Int {F} _.
Arguments Float {F} _.

(** how the script ends: [sys.exit(code)], or an exception nobody catches *)
Inductive outcome :=
| Exit (code : Z)
| Uncaught (msg : string).

(** [[a-f0-9]] *)
Definition is_hex (c : ascii) : bool :=
  let n := N_of_ascii c in
  (((97 <=? n) && (n <=? 102)) || ((48 <=? n) && (n <=? 57)))%N.

(** [s] without the prefix [p], when it starts with it *)
Fixpoint strip_prefix (p s : string) : option string :=
  match p, s with
  | EmptyString, _ => Some s
  | String a p', String b s' =>
      if Ascii.eqb a b then strip_prefix p' s' else None
  | String _ _, EmptyString => None
  end.

(** exactly [n] characters of [[a-f0-9]] at the start of [s]: these
    characters and what follows them *)
Fixpoint take_hex (n : nat) (s : string) : option (string * string) :=
  match n with
  | O => Some (EmptyString, s)
  | S n' =>
      match s with
      | String c s' =>
          if is_hex c
          then match take_hex n' s' with
               | Some (h, rest) => Some (String c h, rest)
               | None => None
               end
          else None
      | EmptyString => None
      end
  end.

Definition quote : string := String "034"%char "".

(** a match of [process[._]command_line_hash="([a-f0-9]{64})"] at the
    start of [s]: the text of the group *)
Definition match_hash (s : string) : option string :=
  match strip_prefix "process" s with
  | Some (String c rest) =>
      if Ascii.eqb c "." || Ascii.eqb c "_"
      then
        match strip_prefix ("command_line_hash=" +:+ quote) rest with
        | Some rest =>
            match take_hex 64 rest with
            | Some (group, String q _) =>
                if Ascii.eqb q "034" then Some group else None
            | _ => None
            end
        | None => None
        end
      else None
  | _ => None
  end.

(** the number of characters of a match *)
Definition match_length : nat := 92.

(** [re.findall(hash_pattern, s)]: the matches are searched from left to
    right, the search resuming where a match ended. [skip] counts the
    characters of a match still to be passed. *)
Fixpoint findall (skip : nat) (s : string) : list string :=
  match s with
  | EmptyString => []
  | String _ s' =>
      match skip with
      | S k => findall k s'
      | O =>
          match match_hash s with
          | Some group => group :: findall (Nat.pred match_length) s'
          | None => findall O s'
          end
      end
  end.

Definition sensitive_patterns : list string :=
  ["username=admin"; "password=S3cr3tP@ssw0rd"; "api_key=12345abcdef"].

(** [hashlib.sha256("Running test process with username=admin
    password=S3cr3tP@ssw0rd api_key=12345abcdef".encode()).hexdigest()] *)
Definition expected_hash : string :=
  "b95e2061550455aa767e0b8283329e4646555d56898d64e90e29f5ecca8d595b".

Record Results (F : Type) := {
  hashing_success_percentage : Z;
  original_command_found_count : nat;
  hash_consistency_percentage : number F
}.
Arguments hashing_success_percentage {F} _.
Arguments original_command_found_count {F} _.
Arguments hash_consistency_percentage {F} _.

Definition line_break : string := String "010"%char "".

Section Script.

Context {F : Type} `{FloatArith F}.

(** [f"{v}"] *)
Definition number_str (v : number F) : string :=
  match v with
  | Int z => if z <? 0 then "-" +:+ Str.of_nat (Z.to_nat (- z))
             else Str.of_nat (Z.to_nat z)
  | Float x => flt_str x
  end.

(** [v == n] *)
Definition number_eq (v : number F) (n : Z) : bool :=
  match v with
  | Int z => z =? n
  | Float x => flt_eq x n
  end.

(** [sum(hash_matches)] *)
Definition count_true (l : list bool) : Z :=
  foldl (λ acc (b : bool), acc + (if b then 1 else 0)) 0 l.

(** [check_hashed_command_lines] on the text read from the metrics file:
    the lines printed and the value returned *)
Definition check_hashed_command_lines (metrics_content : string)
  : list string * Z :=
  let hashed_commands := findall O metrics_content in
  let leaked_sensitive_info :=
    filter (λ pattern, Str.contains pattern metrics_content = true)
           sensitive_patterns in
  let hash_matches :=
    (λ h, bool_decide (h = expected_hash)) <$> hashed_commands in
  let results :=
    {| hashing_success_percentage :=
         match hashed_commands with [] => 0 | _ => 100 end;
       original_command_found_count := length leaked_sensitive_info;
       hash_consistency_percentage :=
         match hashed_commands with
         | [] => Int 0
         | _ => Float (flt_mul (flt_div (count_true hash_matches)
                                        (Z.of_nat (length hashed_commands)))
                               100)
         end |} in
  let printed :=
    [line_break +:+ "=== Command Line Hashing Verification Results ===";
     "Hashed command lines found: " +:+ Str.of_nat (length hashed_commands);
     "Hashing success percentage: " +:+
       Str.of_nat (Z.to_nat (hashing_success_percentage results)) +:+ "%";
     "Original sensitive info instances found: " +:+
       Str.of_nat (original_command_found_count results)] ++
    match leaked_sensitive_info with
    | [] => []
    | _ =>
        "WARNING: The following sensitive patterns were found in plaintext:" ::
        ((λ pattern, "  - " +:+ pattern) <$> leaked_sensitive_info)
    end ++
    ["Hash consistency percentage: " +:+
       number_str (hash_consistency_percentage results) +:+ "%"] in
  if (hashing_success_percentage results =? 100) &&
     (original_command_found_count results =? 0)%nat &&
     number_eq (hash_consistency_percentage results) 100
  then (printed ++
        [line_break +:+
         "OVERALL RESULT: PASS - Command line hashing is working correctly"],
        0)
  else (printed ++
        [line_break +:+
         "OVERALL RESULT: FAIL - Command line hashing is not working correctly"],
        1).

(** the script, given [sys.argv] and what reading a file gives (the text
    of the exception, or the content) *)
Definition main (read_text : string → string + string) (argv : list string)
  : list string * outcome :=
  match argv with
  | [_; metrics_file] =>
      match read_text metrics_file with
      | inr metrics_content =>
          let '(printed, exit_code) :=
            check_hashed_command_lines metrics_content in
          (printed, Exit exit_code)
      | inl e => ([], Uncaught e)
      end
  | _ => (["Usage: verify_hashing.py <metrics_file>"], Exit 1)
  end.

(** arithmetic in which a share [k / n * 100] of fewer than [2 ^ 53]
    items (the counts that a binary64 float holds exactly) equals 100
    only for the whole *)
Definition exact_percentage : Prop :=
  ∀ k n, 0 <= k → k <= n → 0 < n → n < 2 ^ 53 →
         (flt_eq (flt_mul (flt_div k n) 100) 100 = true ↔ k = n).

End Script.

(** exact arithmetic on fractions, to run the script *)
Definition fractions : FloatArith (Z * Z) := {|
  flt_div a b := (a, b);
  flt_mul x n := (fst x * n, snd x);
  flt_eq x n := fst x =? n * snd x;
  flt_str x := Str.of_nat (Z.to_nat (fst x)) +:+ "/" +:+
               Str.of_nat (Z.to_nat (snd x))
|}.

(** a metrics text with one hashed command line *)
Definition sample (digest : string) : string :=
  "process_cpu{process.command_line_hash=" +:+ quote +:+ digest +:+ quote +:+
  "} 1".

End Hashing.

(** * Properties *)

Section RunnerFacts.

Context {W : Type} `{System W}.

(** Commands that succeed are run in order, their outputs appended. *)
Lemma run_commands_prefix pre rest namespace v (st : State W) w1 outputs :
  all_succeed (substituted namespace pre) (world st) = Some (w1, outputs) →
  run_commands (pre ++ rest) namespace v st =
  run_commands rest namespace
    {| step_success := step_success v;
       step_output := step_output v ++ outputs;
       step_results := step_results v |}
    (mkState w1 (trace st ++ command_events (substituted namespace pre))).
Proof.
  revert v st outputs. induction pre as [|cmd pre IH]; intros v st outputs Hok.
  - cbn in Hok. injection Hok as <- <-. cbn [app substituted fmap list_fmap
      command_events flat_map]. rewrite !app_nil_r. by destruct v, st.
  - cbn [substituted fmap list_fmap all_succeed] in Hok.
    destruct (sys_check_output _ (world st)) as [w' [output|e]] eqn:E; [|done].
    destruct (all_succeed _ w') as [[w'' outs]|] eqn:E'; [|done].
    injection Hok as <- <-.
    cbn [app run_commands]. unfold bind at 1 2, print, check_output.
    cbn [world trace emit]. rewrite E.
    erewrite IH by exact E'. cbn [step_success step_output step_results trace].
    cbn [substituted fmap list_fmap command_events flat_map app].
    by rewrite <- !app_assoc.
Qed.

(** When all the commands succeed, the loop runs them all. *)
Lemma run_commands_success commands namespace v (st : State W) w1 outputs :
  all_succeed (substituted namespace commands) (world st) = Some (w1, outputs) →
  run_commands commands namespace v st =
    (mkState w1 (trace st ++ command_events (substituted namespace commands)),
     Ok {| step_success := step_success v;
           step_output := step_output v ++ outputs;
           step_results := step_results v |}).
Proof.
  intros Hok.
  pose proof (run_commands_prefix commands [] namespace v st w1 outputs Hok)
    as Hrun.
  rewrite app_nil_r in Hrun. exact Hrun.
Qed.

(** The loop ends at the first command that does not succeed: with a
    failed step when the command exits with a failure, with the
    exception when [check_output] raises another one. *)
Lemma run_commands_stop pre cmd post namespace v (st : State W) w1 outputs
    w2 e :
  all_succeed (substituted namespace pre) (world st) = Some (w1, outputs) →
  sys_check_output (Str.replace "{namespace}" namespace cmd) w1 = (w2, inr e) →
  run_commands (pre ++ cmd :: post) namespace v st =
    match e with
    | CalledProcessError msg =>
        (mkState w2
           (trace st ++ command_events (substituted namespace pre) ++
            failure_events (Str.replace "{namespace}" namespace cmd) msg),
         Ok {| step_success := false;
               step_output := (step_output v ++ outputs) ++ ["ERROR: " +:+ msg];
               step_results := set_success false (step_results v) |})
    | _ =>
        (mkState w2
           (trace st ++ command_events (substituted namespace pre) ++
            [EvPrint ("Running command: " +:+
                      Str.replace "{namespace}" namespace cmd);
             EvShell (Str.replace "{namespace}" namespace cmd)]),
         Raise e)
    end.
Proof.
  intros Hpre Hfail.
  erewrite run_commands_prefix by exact Hpre.
  cbn [run_commands step_success step_output step_results].
  unfold bind at 1 2, print, check_output. cbn [emit world trace].
  rewrite Hfail.
  destruct e; unfold bind, print, ret, emit, failure_events; cbn [world trace];
    by rewrite <- ?app_assoc.
Qed.

(** When not all the commands succeed, there is a first one that does
    not. *)
Lemma first_failure commands namespace (w : W) :
  all_succeed (substituted namespace commands) w = None →
  ∃ pre cmd post w1 outputs w2 e,
    commands = pre ++ cmd :: post ∧
    all_succeed (substituted namespace pre) w = Some (w1, outputs) ∧
    sys_check_output (Str.replace "{namespace}" namespace cmd) w1 =
      (w2, inr e).
Proof.
  revert w. induction commands as [|cmd rest IH]; intros w Hnone; [done|].
  cbn [substituted fmap list_fmap all_succeed] in Hnone.
  destruct (sys_check_output _ w) as [w' [output|e]] eqn:E.
  - destruct (all_succeed _ w') as [[w'' outs]|] eqn:E'; [done|].
    destruct (IH w' E')
      as (pre & c & post & w1 & outputs & w2 & e & -> & Hpre & Hfail).
    exists (cmd :: pre), c, post, w1, (output :: outputs), w2, e.
    split; [done|]. split; [|done].
    cbn [substituted fmap list_fmap all_succeed]. rewrite E.
    unfold substituted in Hpre. by rewrite Hpre.
  - by exists [], cmd, rest, w, [], w', e.
Qed.


Lemma same_header_refl r : same_header r r.
Proof. by repeat split. Qed.

Lemma same_header_trans r1 r2 r3 :
  same_header r1 r2 → same_header r2 r3 → same_header r1 r3.
Proof. intros (?&?&?&?) (?&?&?&?). repeat split; congruence. Qed.

(** What one turn of the loop over the steps does, when it returns. *)
Lemma run_step_ok i step namespace results (st st' : State W) sr results' :
  run_step i step namespace results st = (st', Ok (sr, results')) →
  res_steps results' = res_steps results ++ [sr] ∧
  res_success results' = res_success results && sr_success sr ∧
  same_header results results' ∧
  sr_name sr = step_label i step ∧
  ∃ evs, trace st' = trace st ++ evs ∧
         step_executed i step namespace (world st) sr evs (world st').
Proof.
  unfold run_step, bind at 1, print. unfold bind. unfold step_executed.
  cbv zeta. fold (step_label i step).
  remember (default [] (step_commands step)) as commands eqn:Hcmds.
  set (st0 := emit (EvPrint ("Executing step: " +:+ step_label i step)) st).
  destruct (all_succeed (substituted namespace commands) (world st))
    as [[w1 outputs]|] eqn:E.
  - rewrite (run_commands_success commands namespace _ st0 w1 outputs E).
    unfold ret. intros [= <- <- <-].
    cbn [res_steps res_success append_step step_results step_success
         step_output sr_success sr_name sr_output world trace emit st0 app].
    rewrite andb_true_r.
    split; [done|]. split; [done|]. split; [by repeat split|]. split; [done|].
    eexists. split; [by rewrite <- app_assoc|]. split; [done|]. left. done.
  - destruct (first_failure _ _ _ E)
      as (pre & cmd & post & w1 & outputs & w2 & e & -> & Hpre & Hfail).
    rewrite (run_commands_stop pre cmd post namespace _ st0 w1 outputs w2 e
               Hpre Hfail).
    destruct e as [msg| | |]; try discriminate.
    unfold ret. intros [= <- <- <-].
    cbn [res_steps res_success append_step set_success step_results
         step_success step_output sr_success sr_name sr_output world trace
         emit st0 app].
    rewrite andb_false_r.
    split; [done|]. split; [done|]. split; [by repeat split|]. split; [done|].
    eexists. split; [by rewrite <- app_assoc|]. split; [done|]. right.
    split; [done|]. by exists pre, cmd, post, w1, outputs, msg.
Qed.


Lemma steps_executed_recorded i steps namespace (w : W) srs evs w' :
  steps_executed i steps namespace w srs evs w' → recorded i steps srs.
Proof.
  revert i w srs evs. induction steps as [|s steps IH]; intros i w [|sr srs] evs;
    cbn [steps_executed recorded]; try done.
  intros (w1 & evs1 & evs2 & [Hname _] & _ & Hrest). split; [done|].
  destruct (negb (sr_success sr) && critical s).
  - by destruct Hrest as [-> _].
  - by eapply IH.
Qed.

(** What the loop over the steps does, when it returns. *)
Lemma run_steps_ok steps i namespace results (st st' : State W) results' :
  run_steps i steps namespace results st = (st', Ok results') →
  ∃ srs evs,
    res_steps results' = res_steps results ++ srs ∧
    res_success results' = res_success results && forallb sr_success srs ∧
    same_header results results' ∧
    trace st' = trace st ++ evs ∧
    steps_executed i steps namespace (world st) srs evs (world st').
Proof.
  revert i results st.
  induction steps as [|step rest IH]; intros i results st.
  - intros [= <- <-]. exists [], []. cbn. rewrite !app_nil_r, andb_true_r.
    repeat split; reflexivity.
  - cbn [run_steps]. unfold bind at 1.
    destruct (run_step i step namespace results st)
      as [st1 [[sr r1]|e]] eqn:Hstep; [|done].
    destruct (run_step_ok _ _ _ _ _ _ _ _ Hstep)
      as (Hsteps & Hsucc & Hhead & Hname & evs1 & Hevs1 & Hexec).
    destruct (negb (sr_success sr) && critical step) eqn:Habort.
    + unfold bind, print, ret. intros [= <- <-].
      exists [sr], (evs1 ++ [EvPrint ("Critical step " +:+ sr_name sr +:+
                                      " failed - aborting scenario")]).
      cbn [forallb steps_executed emit trace world]. rewrite Habort, andb_true_r.
      split; [done|]. split; [done|]. split; [done|].
      split; [by rewrite Hevs1, <- app_assoc|].
      by exists (world st1), evs1, [EvPrint ("Critical step " +:+ sr_name sr +:+
                                            " failed - aborting scenario")].
    + intros Hrun.
      destruct (IH _ _ _ Hrun) as (srs & evs2 & Hs' & Hsucc' & Hh' & Hevs2 & Hex').
      exists (sr :: srs), (evs1 ++ evs2).
      cbn [forallb steps_executed]. rewrite Habort.
      rewrite Hs', Hsteps, <- app_assoc, Hsucc', Hsucc, andb_assoc.
      split; [done|]. split; [done|].
      split; [eapply same_header_trans; eassumption|].
      split; [by rewrite Hevs2, Hevs1, <- app_assoc|].
      by exists (world st1), evs1, evs2.
Qed.


Lemma recorded_length i steps srs :
  recorded i steps srs → (length srs ≤ length steps)%nat.
Proof.
  revert i srs. induction steps as [|s steps IH]; intros i [|sr srs] Hrec;
    cbn in *; try done; try lia.
  destruct Hrec as [_ Hrec].
  destruct (negb (sr_success sr) && critical s).
  - subst. cbn. lia.
  - apply IH in Hrec. lia.
Qed.

(** A recorded step that failed while critical is the last one recorded. *)
Lemma recorded_abort_last i steps srs k s sr :
  recorded i steps srs → steps !! k = Some s → srs !! k = Some sr →
  sr_success sr = false → critical s = true → length srs = S k.
Proof.
  revert i srs k.
  induction steps as [|s0 steps IH]; intros i [|sr0 srs] k Hrec Hs Hsr Hf Hc;
    cbn in *; try done.
  destruct Hrec as [_ Hrec].
  destruct k as [|k]; cbn in *.
  - injection Hs as ->. injection Hsr as ->. rewrite Hf, Hc in Hrec.
    cbn in Hrec. by subst.
  - destruct (negb (sr_success sr0) && critical s0).
    + by subst.
    + f_equal. by eapply IH.
Qed.

(** A step is recorded when no step before it is recorded as failed
    while critical. *)
Lemma recorded_reach i steps srs k s :
  recorded i steps srs → steps !! k = Some s →
  (∀ j s' sr', (j < k)%nat → steps !! j = Some s' → srs !! j = Some sr' →
               negb (sr_success sr') && critical s' = false) →
  is_Some (srs !! k).
Proof.
  revert i srs k.
  induction steps as [|s0 steps IH]; intros i [|sr0 srs] k Hrec Hs Hno;
    cbn in *; try done.
  destruct Hrec as [_ Hrec].
  destruct k as [|k]; cbn in *; [by eexists|].
  rewrite (Hno 0%nat s0 sr0) in Hrec by (done || lia).
  eapply IH; [exact Hrec | exact Hs |].
  intros j s' sr' Hj Hs' Hsr'. apply (Hno (S j)); [lia | done | done].
Qed.

(** A recorded result carries the name of the step at its position. *)
Lemma recorded_name i steps srs k s sr :
  recorded i steps srs → steps !! k = Some s → srs !! k = Some sr →
  sr_name sr = step_label (i + k) s.
Proof.
  revert i srs k.
  induction steps as [|s0 steps IH]; intros i [|sr0 srs] k Hrec Hs Hsr;
    cbn in *; try done.
  destruct Hrec as [Hname Hrec].
  destruct k as [|k]; cbn in *.
  - injection Hs as ->. injection Hsr as ->. by rewrite Nat.add_0_r.
  - destruct (negb (sr_success sr0) && critical s0); [by subst|].
    rewrite <- Nat.add_succ_comm. by eapply IH.
Qed.

(** Every recorded step was executed: what it printed and ran is part of
    what the loop printed and ran. *)
Lemma steps_executed_lookup i steps namespace (w : W) srs evs w' k s sr :
  steps_executed i steps namespace w srs evs w' →
  steps !! k = Some s → srs !! k = Some sr →
  ∃ w1 w2 evs1 before after,
    step_executed (i + k) s namespace w1 sr evs1 w2 ∧
    evs = before ++ evs1 ++ after.
Proof.
  revert i w srs evs k.
  induction steps as [|s0 steps IH]; intros i w [|sr0 srs] evs k Hex Hs Hsr;
    cbn [steps_executed] in Hex; try done.
  destruct Hex as (w1 & evs1 & evs2 & Hstep & -> & Hrest).
  destruct k as [|k]; cbn in Hs, Hsr.
  - injection Hs as ->. injection Hsr as ->. rewrite Nat.add_0_r.
    by exists w, w1, evs1, [], evs2.
  - destruct (negb (sr_success sr0) && critical s0).
    + destruct Hrest as [-> _]. done.
    + destruct (IH _ _ _ _ _ Hrest Hs Hsr)
        as (wa & wb & evsk & before & after & Hk & ->).
      rewrite <- Nat.add_succ_comm.
      exists wa, wb, evsk, (evs1 ++ before), after. split; [done|].
      by rewrite <- !app_assoc.
Qed.

(** Two recorded steps were executed in the order of the list. *)
Lemma steps_executed_in_order i steps namespace (w : W) srs evs w' k1 k2
    s1 s2 sr1 sr2 :
  steps_executed i steps namespace w srs evs w' →
  (k1 < k2)%nat →
  steps !! k1 = Some s1 → srs !! k1 = Some sr1 →
  steps !! k2 = Some s2 → srs !! k2 = Some sr2 →
  ∃ wa wb evs1 wc wd evs2 before between after,
    step_executed (i + k1) s1 namespace wa sr1 evs1 wb ∧
    step_executed (i + k2) s2 namespace wc sr2 evs2 wd ∧
    evs = before ++ evs1 ++ between ++ evs2 ++ after.
Proof.
  revert i w srs evs k1 k2.
  induction steps as [|s0 steps IH];
    intros i w [|sr0 srs] evs k1 k2 Hex Hlt Hs1 Hsr1 Hs2 Hsr2;
    cbn [steps_executed] in Hex; try done.
  destruct Hex as (w1 & evs0 & evs' & Hstep & -> & Hrest).
  destruct k2 as [|k2]; [lia|]. cbn in Hs2, Hsr2.
  destruct (negb (sr_success sr0) && critical s0).
  { destruct Hrest as [-> _]. done. }
  destruct k1 as [|k1]; cbn in Hs1, Hsr1.
  - injection Hs1 as ->. injection Hsr1 as ->. rewrite Nat.add_0_r.
    destruct (steps_executed_lookup _ _ _ _ _ _ _ _ _ _ Hrest Hs2 Hsr2)
      as (wc & wd & evs2 & before & after & Hk & ->).
    rewrite <- Nat.add_succ_comm.
    by exists w, w1, evs0, wc, wd, evs2, [], before, after.
  - assert (k1 < k2)%nat as Hlt' by lia.
    destruct (IH _ _ _ _ _ _ Hrest Hlt' Hs1 Hsr1 Hs2 Hsr2)
      as (wa & wb & evs1 & wc & wd & evs2 & before & between & after &
          H1 & H2 & ->).
    rewrite <- !Nat.add_succ_comm.
    exists wa, wb, evs1, wc, wd, evs2, (evs0 ++ before), between, after.
    split; [done|]. split; [done|]. by rewrite <- !app_assoc.
Qed.

(** When the step at position [length pre] fails while critical, the run
    is the run of the list cut after that step. *)
Lemma run_steps_truncate pre step post i namespace results (st st' : State W)
    results' srs sr :
  run_steps i (pre ++ step :: post) namespace results st = (st', Ok results') →
  res_steps results' = res_steps results ++ srs →
  srs !! length pre = Some sr →
  sr_success sr = false → critical step = true →
  run_steps i (pre ++ [step]) namespace results st = (st', Ok results').
Proof.
  revert i results st srs.
  induction pre as [|p pre IH]; intros i results st srs Hrun Hsteps Hsr Hf Hc.
  - cbn [app run_steps length] in *. unfold bind at 1 in Hrun. unfold bind at 1.
    destruct (run_step i step namespace results st)
      as [st1 [[sr0 r1]|e]] eqn:Hstep; [|done].
    destruct (run_step_ok _ _ _ _ _ _ _ _ Hstep) as (Hs1 & _).
    destruct (negb (sr_success sr0) && critical step) eqn:Habort; [done|].
    exfalso.
    destruct (run_steps_ok _ _ _ _ _ _ _ Hrun) as (srs2 & evs2 & Hs2 & _).
    rewrite Hs2, Hs1, <- app_assoc in Hsteps.
    apply app_inv_head in Hsteps. subst srs. cbn in Hsr. injection Hsr as ->.
    by rewrite Hf, Hc in Habort.
  - cbn [app run_steps length] in *. unfold bind at 1 in Hrun. unfold bind at 1.
    destruct (run_step i p namespace results st)
      as [st1 [[sr0 r1]|e]] eqn:Hstep; [|done].
    destruct (run_step_ok _ _ _ _ _ _ _ _ Hstep) as (Hs1 & _).
    destruct (negb (sr_success sr0) && critical p) eqn:Habort.
    + exfalso. unfold bind, print, ret in Hrun. injection Hrun as <- <-.
      rewrite Hs1 in Hsteps. apply app_inv_head in Hsteps. by subst srs.
    + destruct (run_steps_ok _ _ _ _ _ _ _ Hrun) as (srs2 & evs2 & Hs2 & _).
      eapply IH; [exact Hrun | exact Hs2 | | done | done].
      rewrite Hs2, Hs1, <- app_assoc in Hsteps.
      apply app_inv_head in Hsteps. by subst srs.
Qed.

Lemma evaluate_criteria_from criteria acc l :
  res_criteria acc = Some l →
  foldl (fun r c => evaluate_criterion c r) acc criteria =
  set_criteria (l ++ (criterion_result <$> criteria)) acc.
Proof.
  revert acc l. induction criteria as [|c cs IH]; intros acc l Hl.
  - cbn. rewrite app_nil_r. destruct acc; cbn in *. by subst.
  - cbn [foldl fmap list_fmap].
    assert (evaluate_criterion c acc = set_criteria (l ++ [criterion_result c]) acc)
      as ->.
    { unfold evaluate_criterion, append_criterion. cbn [negb]. by rewrite Hl. }
    erewrite IH by reflexivity. rewrite <- app_assoc. by destruct acc.
Qed.

(** The criteria loop appends one placeholder entry per criterion and
    changes nothing else. *)
Lemma evaluate_criteria_eq criteria results :
  evaluate_criteria criteria results =
  set_criteria (criterion_result <$> criteria) results.
Proof.
  unfold evaluate_criteria. erewrite evaluate_criteria_from by reflexivity.
  by destruct results.
Qed.

Lemma run_scenario_eq scenario namespace (st : State W) :
  let st0 := emit (EvPrint ("Running scenario " +:+ scenario_id_of scenario +:+
                            " in namespace " +:+ namespace)) st in
  run_scenario scenario namespace st =
  match run_steps 0 (default [] (sc_steps scenario)) namespace
          (initial_results (scenario_id_of scenario) (now_value st0))
          (now_state st0) with
  | (st1, Ok r1) =>
      (now_state st1,
       Ok (set_end_time (isoformat (now_value st1))
             (evaluate_criteria (default [] (sc_success_criteria scenario)) r1)))
  | (st1, Raise e) => (st1, Raise e)
  end.
Proof.
  intros st0. unfold run_scenario, bind at 1, print. fold st0.
  unfold bind at 1, now at 1, now_state, now_value.
  destruct (sys_now (world st0)) as [w0 d0]. cbn [fst snd].
  unfold bind at 1. unfold initial_results.
  destruct (run_steps _ _ _ _ _) as [st1 [r1|e]]; [|done].
  unfold bind, now, ret. by destruct (sys_now (world st1)).
Qed.

(** What [run_scenario] returns, when it returns: the outcome of the loop
    over the steps, the placeholder criteria entries and the end time. *)
Lemma run_scenario_ok scenario namespace (st st' : State W) results :
  run_scenario scenario namespace st = (st', Ok results) →
  ∃ st1 r1,
    run_steps 0 (default [] (sc_steps scenario)) namespace
      (initial_results (scenario_id_of scenario)
         (now_value (emit (EvPrint ("Running scenario " +:+
                                    scenario_id_of scenario +:+
                                    " in namespace " +:+ namespace)) st)))
      (now_state (emit (EvPrint ("Running scenario " +:+
                                 scenario_id_of scenario +:+
                                 " in namespace " +:+ namespace)) st))
      = (st1, Ok r1) ∧
    st' = now_state st1 ∧
    res_steps results = res_steps r1 ∧
    recorded 0 (default [] (sc_steps scenario)) (res_steps results) ∧
    res_success results = forallb sr_success (res_steps results) ∧
    res_criteria results =
      Some (criterion_result <$> default [] (sc_success_criteria scenario)) ∧
    res_scenario_id results = scenario_id_of scenario.
Proof.
  rewrite run_scenario_eq. cbv zeta.
  destruct (run_steps _ _ _ _ _) as [st1 [r1|e]] eqn:Hrun; [|done].
  intros [= <- <-].
  destruct (run_steps_ok _ _ _ _ _ _ _ Hrun)
    as (srs & evs & Hsteps & Hsucc & Hhead & _ & Hexec).
  cbn in Hsteps, Hsucc. destruct Hhead as (Hid & _).
  exists st1, r1. split; [done|]. split; [done|].
  rewrite evaluate_criteria_eq. cbn. rewrite Hsteps.
  split; [done|]. split; [by eapply steps_executed_recorded|]. by repeat split.
Qed.


End RunnerFacts.

(** ** Steps and commands *)

Section StepProperties.

Context {W : Type} `{System W}.

(** C6. When a command of a step fails after the commands before it
    succeeded, the step's success flag is false, the error marker follows
    the outputs captured so far, the commands after it are never run, and
    the overall flag is cleared. The failure itself ends only the step:
    when the step is not critical the loop goes on with the next step. *)
Theorem step_command_failure i step namespace results (st : State W)
    pre cmd post w1 outputs w2 e :
  step_commands step = Some (pre ++ cmd :: post) →
  all_succeed (substituted namespace pre) (world st) = Some (w1, outputs) →
  sys_check_output (Str.replace "{namespace}" namespace cmd) w1 =
    (w2, inr (CalledProcessError e)) →
  let name := default ("Step " +:+ Str.of_nat (i + 1)) (step_name step) in
  let cmd' := Str.replace "{namespace}" namespace cmd in
  let sr := {| sr_name := name; sr_success := false;
               sr_output := outputs ++ ["ERROR: " +:+ e] |} in
  let results' := append_step sr (set_success false results) in
  let st' :=
    mkState w2
      (trace st ++ [EvPrint ("Executing step: " +:+ name)] ++
       command_events (substituted namespace pre) ++
       [EvPrint ("Running command: " +:+ cmd'); EvShell cmd';
        EvPrint ("Command failed: " +:+ e)]) in
  run_step i step namespace results st = (st', Ok (sr, results')) ∧
  (critical step = false →
   ∀ rest, run_steps i (step :: rest) namespace results st =
           run_steps (S i) rest namespace results' st').
Proof.
  intros Hcmds Hpre Hfail name cmd' sr results' st'.
  assert (run_step i step namespace results st = (st', Ok (sr, results')))
    as Hstep.
  { unfold run_step, bind at 1, print. rewrite Hcmds. cbn [default].
    unfold bind at 1, id.
    erewrite run_commands_stop by (cbn [emit world]; eassumption).
    unfold ret, failure_events. cbn [emit world trace app].
    subst st' results' sr name cmd'. cbn [step_success step_output step_results].
    unfold default. by rewrite <- !app_assoc. }
  split; [exact Hstep|].
  intros Hnc rest. cbn [run_steps]. unfold bind at 1. rewrite Hstep.
  cbn [sr_success sr negb]. by rewrite Hnc.
Qed.

End StepProperties.

Lemma step_command_failure_witness :
  let w := Sim.demo_world (Some false) [] in
  let e := "Command 'false tf-k8s-tf-demo-1-wait' returned non-zero exit status 1." in
  ∃ st' sr results',
    run_step 1 (Sim.wait_step (Some false)) Sim.demo_namespace Sim.no_results
      (Sim.start w) = (st', Ok (sr, results')) ∧
    sr_success sr = false ∧
    sr_output sr = ["ran sleep 1"; "ERROR: " +:+ e] ∧
    res_success results' = false ∧
    ∀ rest, run_steps 1 (Sim.wait_step (Some false) :: rest) Sim.demo_namespace
              Sim.no_results (Sim.start w) =
            run_steps 2 rest Sim.demo_namespace results' st'.
Proof.
  intros w e.
  destruct (step_command_failure 1 (Sim.wait_step (Some false))
              Sim.demo_namespace Sim.no_results (Sim.start w)
              ["sleep 1"] "false {namespace}" ["echo done"]
              w ["ran sleep 1"] w e) as [Hstep Hnext];
    [vm_compute; reflexivity ..|].
  eexists _, _, _. split; [exact Hstep|].
  split; [reflexivity|]. split; [reflexivity|]. split; [reflexivity|].
  apply Hnext. reflexivity.
Defined.

(** ** Whole scenario executions *)

Section ScenarioProperties.

Context {W : Type} `{System W}.

(** C3. In the result that [run_scenario] returns, the overall success
    flag is the conjunction of the success flags of all recorded steps
    and of all criterion entries. *)
Theorem overall_success_is_conjunction scenario namespace (st st' : State W)
    results :
  run_scenario scenario namespace st = (st', Ok results) →
  res_success results =
    forallb sr_success (res_steps results) &&
    forallb cr_success (default [] (res_criteria results)).
Proof.
  intros Hrun.
  destruct (run_scenario_ok _ _ _ _ _ Hrun)
    as (st1 & r1 & _ & _ & _ & _ & Hsucc & Hcrit & _).
  rewrite Hsucc, Hcrit. cbn [default id from_option].
  assert (forallb cr_success
            (criterion_result <$> default [] (sc_success_criteria scenario))
          = true) as ->; [|by rewrite andb_true_r].
  clear. induction (default [] (sc_success_criteria scenario)) as [|c cs IHcs];
    [done|exact IHcs].
Qed.


(** C2. When a step whose [critical] entry is true or absent fails, its
    result is the last one recorded, and the whole execution (final
    state, trace and results) is that of the scenario cut after this
    step: no later step is run. *)
Theorem critical_failure_aborts scenario namespace (st st' : State W)
    results pre step post sr :
  sc_steps scenario = Some (pre ++ step :: post) →
  run_scenario scenario namespace st = (st', Ok results) →
  res_steps results !! length pre = Some sr →
  sr_success sr = false →
  step_critical step = Some true ∨ step_critical step = None →
  length (res_steps results) = S (length pre) ∧
  run_scenario (with_steps (pre ++ [step]) scenario) namespace st =
    (st', Ok results).
Proof.
  intros Hsteps Hrun Hsr Hfail Hcrit.
  assert (critical step = true) as Hc.
  { unfold critical. by destruct Hcrit as [-> | ->]. }
  destruct (run_scenario_ok _ _ _ _ _ Hrun)
    as (st1 & r1 & Hrun1 & -> & Hs1 & Hrec & _).
  rewrite Hsteps in Hrun1, Hrec. cbn [default id from_option] in Hrun1, Hrec.
  split.
  - eapply recorded_abort_last; [exact Hrec | | exact Hsr | done | done].
    by rewrite lookup_app_r, Nat.sub_diag.
  - pose proof Hrun1 as Hfull.
    eapply run_steps_truncate in Hrun1; [| by rewrite <- Hs1 | exact Hsr | done..].
    rewrite run_scenario_eq in Hrun |- *. rewrite Hsteps in Hrun.
    cbn [default id from_option] in Hrun. rewrite Hfull in Hrun.
    change (scenario_id_of (with_steps (pre ++ [step]) scenario))
      with (scenario_id_of scenario).
    cbn [with_steps sc_steps sc_success_criteria default id from_option].
    by rewrite Hrun1.
Qed.

(** C5, as the code has it. When a step whose [critical] entry is false
    fails, the run goes on: every later step is recorded and executed,
    after the failed step (it is announced and its commands are run from
    the first one, up to its end or to its first command that fails),
    provided no step between the two is recorded as failed while
    critical. *)
Theorem noncritical_failure_continues scenario namespace (st st' : State W)
    results pre step post sr k next :
  sc_steps scenario = Some (pre ++ step :: post) →
  run_scenario scenario namespace st = (st', Ok results) →
  res_steps results !! length pre = Some sr →
  sr_success sr = false →
  step_critical step = Some false →
  post !! k = Some next →
  (∀ j s' sr', (j < k)%nat → post !! j = Some s' →
     res_steps results !! (S (length pre) + j)%nat = Some sr' →
     negb (sr_success sr') && critical s' = false) →
  ∃ sr' w0 w1 evs0 w w' evs before between after,
    res_steps results !! (S (length pre) + k)%nat = Some sr' ∧
    step_executed (length pre) step namespace w0 sr evs0 w1 ∧
    step_executed (S (length pre) + k) next namespace w sr' evs w' ∧
    trace st' = trace st ++ before ++ evs0 ++ between ++ evs ++ after.
Proof.
  intros Hsteps Hrun Hsr Hfail Hcrit Hnext Hbetween.
  assert (critical step = false) as Hc by (unfold critical; by rewrite Hcrit).
  destruct (run_scenario_ok _ _ _ _ _ Hrun)
    as (st1 & r1 & Hrun1 & -> & Hs1 & Hrec & _).
  rewrite Hsteps in Hrun1, Hrec. cbn [default id from_option] in Hrun1, Hrec.
  destruct (run_steps_ok _ _ _ _ _ _ _ Hrun1)
    as (srs & evs & Hsrs & _ & _ & Hevs & Hexec).
  cbn [initial_results res_steps app] in Hsrs. rewrite Hs1, Hsrs in *.
  assert (Hstep : (pre ++ step :: post) !! length pre = Some step)
    by (by rewrite lookup_app_r, Nat.sub_diag).
  assert (Hlater : (pre ++ step :: post) !! (S (length pre) + k)%nat =
                   Some next).
  { rewrite lookup_app_r by lia.
    by replace (S (length pre) + k - length pre)%nat with (S k) by lia. }
  assert (is_Some (srs !! (S (length pre) + k)%nat)) as [sr' Hsr'].
  { eapply recorded_reach; [exact Hrec | exact Hlater |].
    intros j s' sr0 Hj Hs' Hsr0.
    destruct (decide (j < length pre)%nat) as [Hlt|Hge].
    - destruct (negb (sr_success sr0) && critical s') eqn:E; [|done].
      apply andb_true_iff in E as [Hf' Hc']. apply negb_true_iff in Hf'.
      assert (length srs = S j) as Hlen
        by (eapply recorded_abort_last; eauto).
      apply lookup_lt_Some in Hsr. lia.
    - destruct (decide (j = length pre)) as [->|Hne].
      + rewrite Hstep in Hs'. injection Hs' as <-. by rewrite Hc, andb_false_r.
      + apply (Hbetween (j - S (length pre))%nat).
        * lia.
        * rewrite lookup_app_r in Hs' by lia.
          replace (j - length pre)%nat with (S (j - S (length pre))) in Hs'
            by lia.
          exact Hs'.
        * by replace (S (length pre) + (j - S (length pre)))%nat with j by lia. }
  destruct (steps_executed_in_order _ _ _ _ _ _ _ (length pre)
              (S (length pre) + k)%nat _ _ _ _ Hexec ltac:(lia)
              Hstep Hsr Hlater Hsr')
    as (w0 & w1 & evs0 & w & w' & evs' & before & between & after &
        H0 & H1 & Hsplit).
  cbn [Nat.add] in H0, H1.
  exists sr', w0, w1, evs0, w, w', evs',
    (EvPrint ("Running scenario " +:+ scenario_id_of scenario +:+
              " in namespace " +:+ namespace) :: before), between, after.
  split; [done|]. split; [done|]. split; [done|].
  cbn [now_state trace]. rewrite Hevs, Hsplit. cbn [now_state emit trace].
  by rewrite <- app_assoc.
Qed.

(** C1, as the code has it. The criteria loop takes no observed values:
    it records [0] as the observed value of every criterion and marks
    every criterion successful, whatever its threshold, and it leaves the
    overall flag as it was. *)
Theorem criteria_are_placeholders criteria results :
  let results' := evaluate_criteria criteria results in
  res_criteria results' = Some (criterion_result <$> criteria) ∧
  (∀ cr, cr ∈ default [] (res_criteria results') →
         cr_actual cr = 0 ∧ cr_success cr = true) ∧
  res_success results' = res_success results.
Proof.
  intros results'. subst results'. rewrite evaluate_criteria_eq.
  cbn [set_criteria res_criteria res_success default id from_option].
  split; [done|]. split; [|done].
  intros cr (c & -> & _)%list_elem_of_fmap. done.
Qed.

End ScenarioProperties.

Lemma overall_success_is_conjunction_witness :
  let run := Sim.run_demo (Some false) in
  let results := Sim.value Sim.no_results run in
  res_success results =
    forallb sr_success (res_steps results) &&
    forallb cr_success (default [] (res_criteria results)) ∧
  res_success results = false.
Proof.
  intros run results. split; [|vm_compute; reflexivity].
  apply (overall_success_is_conjunction (Sim.demo (Some false))
           Sim.demo_namespace (Sim.start (Sim.demo_world (Some false) []))
           (fst run) results).
  vm_compute. reflexivity.
Defined.



Lemma critical_failure_aborts_witness :
  let run := Sim.run_demo None in
  length (res_steps (Sim.value Sim.no_results run)) = 2%nat ∧
  run_scenario
    (with_steps [Sim.step "apply" ["kubectl apply -f app.yaml -n {namespace}"] None;
                 Sim.wait_step None] (Sim.demo None))
    Sim.demo_namespace (Sim.start (Sim.demo_world None [])) =
  (fst run, Ok (Sim.value Sim.no_results run)).
Proof.
  intros run.
  eapply (critical_failure_aborts (Sim.demo None) Sim.demo_namespace
            (Sim.start (Sim.demo_world None [])) (fst run)
            (Sim.value Sim.no_results run)
            [Sim.step "apply" ["kubectl apply -f app.yaml -n {namespace}"] None]
            (Sim.wait_step None)
            [Sim.step "verify" ["python verify.py {namespace}"] None]).
  - reflexivity.
  - vm_compute. reflexivity.
  - vm_compute. reflexivity.
  - reflexivity.
  - right. reflexivity.
Defined.

(** The claim C5 as stated fails: the first step is not critical and fails,
    the second fails while critical, and the third step, which comes after
    the first, is neither run nor recorded. *)
Lemma noncritical_failure_then_abort :
  let run := Sim.run_two_failures in
  let results := Sim.value Sim.no_results run in
  sc_steps Sim.two_failures =
    Some ([] ++ Sim.warmup_step :: [Sim.deploy_step; Sim.verify_step]) ∧
  (∃ st', run = (st', Ok results)) ∧
  (∃ sr, res_steps results !! 0%nat = Some sr ∧ sr_success sr = false) ∧
  step_critical Sim.warmup_step = Some false ∧
  length (res_steps results) = 2%nat ∧
  ¬ (∃ sr, res_steps results !! 2%nat = Some sr) ∧
  EvShell "python verify.py" ∉ trace (fst run).
Proof.
  intros run results. split; [reflexivity|].
  split; [eexists; vm_compute; reflexivity|].
  split; [eexists; split; vm_compute; reflexivity|].
  split; [reflexivity|]. split; [vm_compute; reflexivity|].
  split.
  - intros [sr Hsr]. vm_compute in Hsr. discriminate.
  - vm_compute. intros Hin.
    repeat (apply elem_of_cons in Hin as [Heq|Hin]; [discriminate Heq|]).
    inversion Hin.
Qed.

Lemma noncritical_failure_continues_witness :
  let run := Sim.run_demo (Some false) in
  let results := Sim.value Sim.no_results run in
  let failed :=
    {| sr_name := "wait"; sr_success := false;
       sr_output := ["ran sleep 1";
         "ERROR: Command 'false tf-k8s-tf-demo-1-wait' returned non-zero exit status 1."] |} in
  ∃ sr' w0 w1 evs0 w w' evs before between after,
    res_steps results !! 2%nat = Some sr' ∧
    step_executed 1 (Sim.wait_step (Some false)) Sim.demo_namespace
      w0 failed evs0 w1 ∧
    step_executed 2 (Sim.step "verify" ["python verify.py {namespace}"] None)
      Sim.demo_namespace w sr' evs w' ∧
    trace (fst run) =
      trace (Sim.start (Sim.demo_world (Some false) [])) ++
      before ++ evs0 ++ between ++ evs ++ after.
Proof.
  intros run results failed.
  apply (noncritical_failure_continues (Sim.demo (Some false))
           Sim.demo_namespace (Sim.start (Sim.demo_world (Some false) []))
           (fst run) results
           [Sim.step "apply" ["kubectl apply -f app.yaml -n {namespace}"] None]
           (Sim.wait_step (Some false))
           [Sim.step "verify" ["python verify.py {namespace}"] None]
           failed 0%nat
           (Sim.step "verify" ["python verify.py {namespace}"] None)).
  - reflexivity.
  - vm_compute. reflexivity.
  - vm_compute. reflexivity.
  - reflexivity.
  - reflexivity.
  - reflexivity.
  - intros j s' sr' Hj. lia.
Defined.

(** The claim C1 as stated fails: with threshold 10 the recorded observed
    value is 0, below the threshold, and the criterion is marked
    successful. *)
Lemma success_below_threshold :
  ¬ (∀ criteria results cr,
       cr ∈ default [] (res_criteria (evaluate_criteria criteria results)) →
       (cr_success cr = true ↔ (cr_threshold cr <= cr_actual cr)%Z)).
Proof.
  intros Hclaim.
  destruct (Hclaim [Sim.criterion "x" 10] Sim.no_results
              (criterion_result (Sim.criterion "x" 10))) as [Hle _].
  - vm_compute. apply list_elem_of_here.
  - specialize (Hle eq_refl). vm_compute in Hle. by apply Hle.
Qed.

(** ** Catalog, set-up and the driver *)

Section DriverProperties.

Context {W : Type} `{System W}.

(** C8. For a group that is not in the group table, and without a
    scenario identifier, the catalog returns what the wildcard pattern
    built on the group name matches; it never raises, and gives the empty
    list when nothing matches. *)
Theorem unknown_group_wildcard group scenario_id (st : State W) :
  SCENARIO_GROUPS !! group = None →
  scenario_id = None ∨ scenario_id = Some "" →
  find_scenarios group scenario_id st =
    (st, Ok (sys_glob ("tf-k8s/scenarios/enabled/" +:+ group +:+
                       "*/scenario_definition.yaml") (world st))) ∧
  (sys_glob (wildcard_pattern group) (world st) = [] →
   find_scenarios group scenario_id st = (st, Ok [])).
Proof.
  intros Hgroup Hid.
  assert (find_scenarios group scenario_id st =
          (st, Ok (sys_glob (wildcard_pattern group) (world st)))) as Heq.
  { unfold find_scenarios. destruct Hid as [-> | ->]; cbn [truthy];
      by rewrite Hgroup. }
  split; [exact Heq|]. intros Hnone. by rewrite Heq, Hnone.
Qed.

Lemma find_group_returns ids scenarios (st : State W) :
  ∃ st' files, find_group ids scenarios st = (st', Ok files).
Proof.
  revert scenarios st. induction ids as [|i ids IH]; intros scenarios st.
  - by eexists _, _.
  - cbn [find_group]. unfold bind at 1, glob at 1.
    destruct (sys_glob _ _); [|apply IH].
    unfold bind, print. apply IH.
Qed.

(** The catalog never raises. *)
Lemma find_scenarios_returns group scenario_id (st : State W) :
  ∃ st' files, find_scenarios group scenario_id st = (st', Ok files).
Proof.
  unfold find_scenarios. destruct (truthy scenario_id) as [sid|].
  - unfold bind at 1, glob at 1. destruct (sys_glob _ _); [|by eexists _, _].
    unfold bind at 1, glob at 1. destruct (sys_glob _ _); by eexists _, _.
  - destruct (SCENARIO_GROUPS !! group); [apply find_group_returns|].
    by eexists _, _.
Qed.

Lemma apply_manifests_outcome manifest_files namespace (st : State W) :
  ∃ st' r evs,
    apply_manifests manifest_files namespace st = (st', r) ∧
    trace st' = trace st ++ evs ∧
    (r = Ok tt ∨ ∃ msg, r = Raise (CalledProcessError msg)).
Proof.
  revert st. induction manifest_files as [|m rest IH]; intros st.
  - exists st, (Ok tt), []. rewrite app_nil_r. split; [done|]. split; [done|]. by left.
  - cbn [apply_manifests]. unfold bind at 1 2, print, run_checked.
    cbn [emit world trace].
    destruct (sys_run _ (world st)) as [w [msg|]].
    + eexists _, _, _. split; [reflexivity|]. cbn [trace].
      rewrite <- app_assoc. split; [reflexivity|]. right. by eexists.
    + edestruct IH as (st' & r & evs & -> & Hevs & Hr).
      eexists _, _, _. split; [reflexivity|]. rewrite Hevs. cbn [trace].
      rewrite <- !app_assoc. by split.
Qed.

(** What [setup_scenario] does with a definition it could read: it
    creates the namespace first, whatever the definition says, and can
    only fail through a failing [kubectl] call. *)
Lemma setup_scenario_outcome scenario_path cluster_type (st : State W) scenario :
  sys_load_yaml scenario_path (world st) = inr scenario →
  let namespace := namespace_of (scenario_id_of scenario) in
  ∃ st' r evs,
    setup_scenario scenario_path cluster_type st = (st', r) ∧
    trace st' = trace st ++
      EvPrint ("Setting up scenario from " +:+ scenario_path) ::
      EvRun ["kubectl"; "create"; "namespace"; namespace] :: evs ∧
    (r = Ok (scenario, namespace) ∨ ∃ msg, r = Raise (CalledProcessError msg)).
Proof.
  intros Hload namespace. unfold setup_scenario.
  unfold bind at 1 2, print at 1, load_yaml. cbn [emit world trace].
  rewrite Hload. fold namespace.
  unfold bind at 1, run_checked at 1. cbn [emit world trace].
  destruct (sys_run ["kubectl"; "create"; "namespace"; namespace] (world st))
    as [w [msg|]].
  - eexists _, _, []. split; [reflexivity|]. cbn [trace].
    rewrite <- app_assoc. split; [reflexivity|]. right. by eexists.
  - unfold bind at 1 2, print, path_exists. cbn [emit world trace].
    destruct (sys_exists _ w).
    + unfold bind at 1 2, glob. cbn [world].
      edestruct apply_manifests_outcome as (st' & r & evs & -> & Hevs & Hr).
      cbn [emit trace] in Hevs.
      destruct Hr as [-> | [msg ->]].
      * eexists _, _, _. split; [reflexivity|]. rewrite Hevs.
        rewrite <- !app_assoc. split; [reflexivity|]. by left.
      * eexists _, _, _. split; [reflexivity|]. rewrite Hevs.
        rewrite <- !app_assoc. split; [reflexivity|]. right. by eexists.
    + eexists _, _, _. split; [reflexivity|]. cbn [emit trace].
      rewrite <- !app_assoc. split; [reflexivity|]. by left.
Qed.

(** C4, as the code has it. For a definition that was loaded and in
    which no step has a command containing [kubectl apply], the runner's
    set-up makes no such check and raises no error about the definition:
    its first action after loading is the creation of the namespace, and
    it fails only if a [kubectl] call fails. *)
Theorem missing_apply_step_is_not_checked_at_setup scenario_path cluster_type
    (st : State W) scenario :
  sys_load_yaml scenario_path (world st) = inr scenario →
  Validator.deploy_steps (default [] (sc_steps scenario)) = [] →
  ∃ st' r evs,
    setup_scenario scenario_path cluster_type st = (st', r) ∧
    trace st' = trace st ++
      EvPrint ("Setting up scenario from " +:+ scenario_path) ::
      EvRun ["kubectl"; "create"; "namespace";
             namespace_of (scenario_id_of scenario)] :: evs ∧
    (r = Ok (scenario, namespace_of (scenario_id_of scenario)) ∨
     ∃ msg, r = Raise (CalledProcessError msg)).
Proof.
  intros Hload _. by apply setup_scenario_outcome.
Qed.

(** The body of the [try] block ends with the value true exactly when
    all four phases went through and the results say success. *)
Lemma execute_scenario_true scenario_file cluster (st st' : State W) :
  execute_scenario scenario_file cluster st = (st', Ok true) ↔
  scenario_passes scenario_file cluster st st'.
Proof.
  unfold execute_scenario, scenario_passes. split.
  - unfold bind at 1.
    destruct (setup_scenario scenario_file cluster st)
      as [st1 [[scenario namespace]|e]] eqn:E1; [|done].
    unfold bind at 1.
    destruct (run_scenario scenario namespace st1) as [st2 [results|e]] eqn:E2;
      [|done].
    unfold bind at 1.
    destruct (save_results results default_output_dir st2)
      as [st3 [filename|e]] eqn:E3; [|done].
    unfold bind at 1.
    destruct (cleanup_scenario scenario namespace st3) as [st4 [[]|e]] eqn:E4;
      [|done].
    unfold ret. intros [= <- Hs]. by eexists _, _, _, _, _, _, _.
  - intros (scenario & namespace & st1 & results & st2 & filename & st3 &
            E1 & E2 & Hs & E3 & E4).
    unfold bind. rewrite E1, E2, E3, E4. unfold ret. by rewrite Hs.
Qed.

(** One turn of the driver's loop never raises: an exception of any
    phase is caught and counts as a failure. *)
Lemma guarded_scenario_outcome scenario_file cluster (st : State W) :
  ∃ st1 ok,
    try_except (execute_scenario scenario_file cluster)
      (fun e =>
         print ("Error executing scenario " +:+ scenario_file +:+ ": " +:+
                exn_str e) >> ret false) st = (st1, Ok ok) ∧
    (ok = true → scenario_passes scenario_file cluster st st1) ∧
    (∀ st1', scenario_passes scenario_file cluster st st1' →
             st1' = st1 ∧ ok = true).
Proof.
  unfold try_except.
  destruct (execute_scenario scenario_file cluster st) as [st1 [ok|e]] eqn:E.
  - exists st1, ok. split; [done|]. split.
    + intros ->. by apply execute_scenario_true.
    + intros st1' Hp%execute_scenario_true. rewrite E in Hp.
      by injection Hp as <- <-.
  - unfold bind, print, ret. eexists _, _. split; [reflexivity|]. split; [done|].
    intros st1' Hp%execute_scenario_true. rewrite E in Hp. discriminate.
Qed.

Lemma main_loop_outcome scenario_files cluster success (st : State W) :
  ∃ st' b,
    main_loop scenario_files cluster success st = (st', Ok b) ∧
    (b = true ↔ success = true ∧ all_pass scenario_files cluster st st').
Proof.
  revert success st.
  induction scenario_files as [|f rest IH]; intros success st.
  - exists st, success. split; [done|]. cbn.
    split; [by intros -> | by intros [-> _]].
  - cbn [main_loop all_pass]. unfold bind at 1.
    destruct (guarded_scenario_outcome f cluster st)
      as (st1 & ok & -> & Hok & Hdet).
    destruct (IH (if ok then success else false) st1) as (st' & b & -> & Hb).
    exists st', b. split; [done|]. rewrite Hb. split.
    + intros [Hs Hall]. destruct ok; [|done]. split; [done|].
      exists st1. split; [by apply Hok | done].
    + intros [-> (st1' & Hp & Hall)].
      destruct (Hdet _ Hp) as [-> ->]. done.
Qed.

(** C7, as the code has it. [main] exits with status 0 or 1. The status
    is 0 exactly when the catalog found at least one scenario and every
    scenario went through set-up, run, save and clean-up without an
    exception with results that say success; an exception in any phase,
    clean-up included, gives status 1, as does an empty catalog
    answer. *)
Theorem exit_status_reflects_every_phase args (st : State W) :
  ∃ st1 scenario_files st' status,
    find_scenarios (arg_group args) (arg_scenario args) st =
      (st1, Ok scenario_files) ∧
    main args st = (st', Ok status) ∧
    (status = 0 ∨ status = 1) ∧
    (status = 0 ↔
     scenario_files ≠ [] ∧
     all_pass scenario_files (arg_cluster args) st1 st').
Proof.
  destruct (find_scenarios_returns (arg_group args) (arg_scenario args) st)
    as (st1 & files & Hfind).
  assert (match truthy (arg_scenario args) with
          | Some sid => find_scenarios (arg_group args) (Some sid)
          | None => find_scenarios (arg_group args) None
          end st = (st1, Ok files)) as Hfind'.
  { rewrite <- Hfind. unfold find_scenarios.
    destruct (arg_scenario args) as [[|c sid]|]; reflexivity. }
  exists st1, files. unfold main, bind at 1. rewrite Hfind'.
  destruct files as [|f rest].
  - unfold bind, print, ret. eexists _, 1. split; [done|]. split; [done|].
    split; [by right|]. split; [done|]. by intros [? _].
  - destruct (main_loop_outcome (f :: rest) (arg_cluster args) true st1)
      as (st' & b & Hloop & Hb).
    unfold bind. rewrite Hloop. exists st'.
    destruct b; unfold ret.
    + exists 0. split; [done|]. split; [done|]. split; [by left|].
      split; [|done]. intros _. split; [done|]. by apply Hb.
    + exists 1. split; [done|]. split; [done|]. split; [by right|].
      split; [done|]. intros [_ Hall]. assert (false = true); [|done].
      apply Hb. by split.
Qed.

End DriverProperties.

Lemma unknown_group_wildcard_witness :
  let st := Sim.start (Sim.demo_world None []) in
  find_scenarios "TF-DEMO" None st = (st, Ok [Sim.path_of "TF-DEMO-1_Wait"]) ∧
  find_scenarios "TF-OTHER" (Some "") st = (st, Ok []).
Proof.
  intros st. split.
  - destruct (unknown_group_wildcard "TF-DEMO" None st) as [Heq _];
      [vm_compute; reflexivity | left; reflexivity |].
    rewrite Heq. vm_compute. reflexivity.
  - destruct (unknown_group_wildcard "TF-OTHER" (Some "") st) as [_ Hempty];
      [vm_compute; reflexivity | right; reflexivity |].
    apply Hempty. vm_compute. reflexivity.
Defined.

(** The claim C4 as stated fails: a definition without any apply command
    is loaded by the set-up without an error, and the namespace is
    created. *)
Lemma setup_without_apply_step_creates_namespace :
  let st := Sim.start (Sim.no_apply_world []) in
  Validator.deploy_steps (default [] (sc_steps Sim.no_apply)) = [] ∧
  ∃ st', setup_scenario (Sim.path_of "TF-DEMO-3_NoApply") "kind" st =
           (st', Ok (Sim.no_apply, "tf-k8s-tf-demo-3-noapply")) ∧
         EvRun ["kubectl"; "create"; "namespace"; "tf-k8s-tf-demo-3-noapply"]
           ∈ trace st'.
Proof.
  intros st. split; [vm_compute; reflexivity|].
  eexists. split; [vm_compute; reflexivity|].
  cbn [trace]. apply list_elem_of_further, list_elem_of_here.
Qed.

Lemma missing_apply_step_is_not_checked_at_setup_witness :
  let st := Sim.start (Sim.no_apply_world ["apply"]) in
  let path := Sim.path_of "TF-DEMO-3_NoApply" in
  ∃ st' r evs,
    setup_scenario path "kind" st = (st', r) ∧
    trace st' = trace st ++
      EvPrint ("Setting up scenario from " +:+ path) ::
      EvRun ["kubectl"; "create"; "namespace";
             namespace_of (scenario_id_of Sim.no_apply)] :: evs ∧
    (r = Ok (Sim.no_apply, namespace_of (scenario_id_of Sim.no_apply)) ∨
     ∃ msg, r = Raise (CalledProcessError msg)).
Proof.
  intros st path.
  apply (missing_apply_step_is_not_checked_at_setup path "kind" st Sim.no_apply).
  - vm_compute. reflexivity.
  - vm_compute. reflexivity.
Defined.

(** The claim C7 as stated fails: one scenario is found and run, its
    overall result is success, the namespace deletion fails, and the exit
    status is 1. *)
Lemma cleanup_failure_gives_exit_status_1 :
  let st := Sim.start (Sim.no_apply_world ["delete"]) in
  let args := {| arg_group := "TF-DEMO"; arg_cluster := "kind";
                 arg_scenario := None |} in
  let f := Sim.path_of "TF-DEMO-3_NoApply" in
  let ns := "tf-k8s-tf-demo-3-noapply" in
  find_scenarios "TF-DEMO" None st = (st, Ok [f]) ∧
  (∃ st1 st2 results,
     setup_scenario f "kind" st = (st1, Ok (Sim.no_apply, ns)) ∧
     run_scenario Sim.no_apply ns st1 = (st2, Ok results) ∧
     res_success results = true) ∧
  ∃ st', main args st = (st', Ok 1).
Proof.
  intros st args f ns. split; [vm_compute; reflexivity|]. split.
  - eexists _, _, _. split; [vm_compute; reflexivity|].
    split; [vm_compute; reflexivity|]. reflexivity.
  - eexists. vm_compute. reflexivity.
Qed.

(** ** The names of the result files *)

Lemma list_of_string_app a b :
  list_ascii_of_string (a +:+ b) =
  list_ascii_of_string a ++ list_ascii_of_string b.
Proof. induction a as [|c a IH]; [reflexivity|]. cbn. by rewrite <- IH. Qed.

Lemma string_app_inv_tail a b t : a +:+ t = b +:+ t → a = b.
Proof.
  intros Heq. apply (f_equal list_ascii_of_string) in Heq.
  rewrite !list_of_string_app in Heq. apply app_inv_tail in Heq.
  rewrite <- (string_of_list_ascii_of_string a),
          <- (string_of_list_ascii_of_string b). by rewrite Heq.
Qed.

(** The stamp in the file name depends on the second only. *)
Lemma strftime_stamp_second d1 d2 :
  same_second d1 d2 → strftime_stamp d1 = strftime_stamp d2.
Proof.
  intros (Hy & Hm & Hd & Hh & Hmi & Hs). unfold strftime_stamp.
  by rewrite Hy, Hm, Hd, Hh, Hmi, Hs.
Qed.

Lemma results_filename_distinct output_dir id1 id2 d1 d2 :
  id1 ≠ id2 → same_second d1 d2 →
  results_filename output_dir id1 d1 ≠ results_filename output_dir id2 d2.
Proof.
  intros Hne Hsec Heq. apply Hne. unfold results_filename in Heq.
  rewrite (strftime_stamp_second d1 d2 Hsec) in Heq.
  apply String.app_inj in Heq. apply (String.app_inj "/") in Heq.
  by apply string_app_inv_tail in Heq.
Qed.

(** ** Strings: substitution and namespace names *)

Section StringFacts.

Lemma append_cons c (a b : string) : String c a +:+ b = String c (a +:+ b).
Proof. reflexivity. Qed.

Lemma append_nil (b : string) : "" +:+ b = b.
Proof. reflexivity. Qed.

Lemma prefix_app old rest : Str.prefix old (old +:+ rest) = true.
Proof.
  induction old as [|c old IH]; [done|].
  rewrite append_cons. cbn [Str.prefix]. by rewrite Ascii.eqb_refl.
Qed.

Lemma replace_from_skip old new x rest :
  Str.replace_from old new (String.length x) (x +:+ rest) =
  Str.replace_from old new 0 rest.
Proof.
  induction x as [|c x IH]; [done|].
  rewrite append_cons. cbn [String.length Str.replace_from]. exact IH.
Qed.

Lemma string_length_app (a b : string) :
  String.length (a +:+ b) = (String.length a + String.length b)%nat.
Proof.
  induction a as [|x a IH]; [done|].
  rewrite append_cons. cbn [String.length]. by rewrite IH.
Qed.

Lemma replace_absent old new s :
  Str.contains old s = false → Str.replace old new s = s.
Proof.
  unfold Str.replace. induction s as [|c s IH]; [done|].
  cbn [Str.contains Str.replace_from]. intros [Hp Hc]%orb_false_iff.
  rewrite Hp. by rewrite IH.
Qed.

Lemma replace_first old new c old' a b :
  old = String c old' →
  Str.contains (String c "") a = false →
  Str.replace old new (a +:+ old +:+ b) = a +:+ new +:+ Str.replace old new b.
Proof.
  intros Hold. unfold Str.replace. induction a as [|x a IH]; intros Hnot.
  - rewrite !append_nil.
    pose proof (prefix_app old b) as Hp. rewrite Hold in Hp |- *.
    rewrite append_cons in Hp |- *. cbn [Str.replace_from]. rewrite Hp.
    cbn [String.length Nat.pred]. by rewrite replace_from_skip.
  - rewrite !append_cons. cbn [Str.replace_from Str.contains Str.prefix] in *.
    apply orb_false_iff in Hnot as [Hne Hnot].
    assert (Str.prefix old (String x (a +:+ old +:+ b)) = false) as ->.
    { rewrite Hold. cbn [Str.prefix]. by destruct (Ascii.eqb c x). }
    by rewrite IH.
Qed.

End StringFacts.

Section Substitution.

(** X1. The placeholder substitution of a command. A command that does
    not contain [{namespace}] is run as it is written; in a command, the
    text before the first opening brace is kept, a placeholder that
    follows it is replaced by the namespace, and the text put in is not
    scanned again. *)
Theorem namespace_placeholder namespace :
  (∀ cmd, Str.contains "{namespace}" cmd = false →
          Str.replace "{namespace}" namespace cmd = cmd) ∧
  (∀ before after, Str.contains "{" before = false →
     Str.replace "{namespace}" namespace (before +:+ "{namespace}" +:+ after) =
     before +:+ namespace +:+ Str.replace "{namespace}" namespace after).
Proof.
  split.
  - intros cmd Hc. by apply replace_absent.
  - intros before after Hb. by erewrite replace_first.
Qed.

End Substitution.

Lemma namespace_placeholder_witness :
  Str.replace "{namespace}" "tf-k8s-x" "sleep 1" = "sleep 1" ∧
  Str.replace "{namespace}" "tf-k8s-x"
    ("kubectl get pods -n " +:+ "{namespace}" +:+ " -l ns={namespace}") =
  "kubectl get pods -n " +:+ "tf-k8s-x" +:+
  Str.replace "{namespace}" "tf-k8s-x" " -l ns={namespace}".
Proof.
  destruct (namespace_placeholder "tf-k8s-x") as [Hsame Hfirst]. split.
  - apply Hsame. vm_compute. reflexivity.
  - apply Hfirst. vm_compute. reflexivity.
Defined.

Section NamespaceNames.

Lemma lower_ascii_not_upper c : Validator.is_upper (Str.lower_ascii c) = false.
Proof. destruct c as [[] [] [] [] [] [] [] []]; vm_compute; reflexivity. Qed.

Lemma lower_ascii_keeps c :
  Validator.is_upper c = false → Str.lower_ascii c = c.
Proof. unfold Validator.is_upper, Str.lower_ascii. cbv zeta. by intros ->. Qed.

Lemma lower_chars s :
  list_ascii_of_string (Str.lower s) =
  Str.lower_ascii <$> list_ascii_of_string s.
Proof. induction s as [|c s IH]; [done|]. cbn. by rewrite IH. Qed.

Lemma replace_underscore_chars s :
  list_ascii_of_string (Str.replace "_" "-" s) =
  (λ c, if Ascii.eqb "_" c then "-"%char else c) <$> list_ascii_of_string s.
Proof.
  unfold Str.replace. induction s as [|c s IH]; [done|].
  cbn [Str.replace_from Str.prefix String.length Nat.pred].
  change (list_ascii_of_string (String c s)) with (c :: list_ascii_of_string s).
  rewrite fmap_cons. cbv beta.
  destruct (Ascii.eqb "_" c) eqn:E.
  - by rewrite list_of_string_app, IH.
  - cbn [list_ascii_of_string]. by rewrite IH.
Qed.

Lemma string_length_chars s :
  String.length s = length (list_ascii_of_string s).
Proof. induction s as [|c s IH]; [done|]. cbn. by rewrite IH. Qed.

(** X2. The namespace of a scenario with an ASCII identifier is [tf-k8s-]
    followed by one character per character of the identifier. It
    contains no underscore and no upper-case letter, and every other
    character of the identifier (a dot, for instance) is kept. *)
Theorem namespace_of_shape scenario_id :
  ascii_only scenario_id = true →
  Str.prefix "tf-k8s-" (namespace_of scenario_id) = true ∧
  String.length (namespace_of scenario_id) =
    (7 + String.length scenario_id)%nat ∧
  (∀ c, c ∈ list_ascii_of_string (namespace_of scenario_id) →
        c ≠ "_"%char ∧ Validator.is_upper c = false) ∧
  (∀ c, c ∈ list_ascii_of_string scenario_id →
        c ≠ "_"%char → Validator.is_upper c = false →
        c ∈ list_ascii_of_string (namespace_of scenario_id)).
Proof.
  intros _. unfold namespace_of. split; [apply prefix_app|].
  split.
  { rewrite string_length_app, !string_length_chars.
    rewrite replace_underscore_chars, lower_chars, !length_fmap. done. }
  split.
  - intros c. rewrite list_of_string_app, replace_underscore_chars, lower_chars.
    rewrite elem_of_app. intros [Hc | Hc].
    + cbn in Hc. set_unfold. by destruct Hc as [-> | [-> | [-> | [-> | [-> | [-> | [-> | []]]]]]]].
    + apply list_elem_of_fmap in Hc as (c1 & -> & Hc).
      apply list_elem_of_fmap in Hc as (c0 & -> & _).
      destruct (Ascii.eqb "_" (Str.lower_ascii c0)) eqn:E; [done|].
      split; [|apply lower_ascii_not_upper].
      intros Heq. rewrite Heq in E. done.
  - intros c Hc Hne Hup.
    rewrite list_of_string_app, replace_underscore_chars, lower_chars.
    apply elem_of_app. right.
    apply list_elem_of_fmap. exists c. split.
    + destruct (Ascii.eqb "_" c) eqn:E; [|done].
      apply Ascii.eqb_eq in E. by subst.
    + apply list_elem_of_fmap. exists c. split; [|done].
      by rewrite lower_ascii_keeps.
Qed.

End NamespaceNames.

Lemma namespace_of_shape_witness :
  let scenario_id := "TF-MFR-SC.1_IngestionSources" in
  namespace_of scenario_id = "tf-k8s-tf-mfr-sc.1-ingestionsources" ∧
  String.length (namespace_of scenario_id) =
    (7 + String.length scenario_id)%nat ∧
  "."%char ∈ list_ascii_of_string (namespace_of scenario_id).
Proof.
  intros scenario_id.
  destruct (namespace_of_shape scenario_id) as (_ & Hlen & _ & Hkept);
    [vm_compute; reflexivity|].
  split; [vm_compute; reflexivity|]. split; [exact Hlen|].
  apply Hkept.
  - apply (bool_decide_unpack _). vm_compute. exact I.
  - discriminate.
  - vm_compute. reflexivity.
Defined.

(** ** The catalog *)

Section CatalogProperties.

Context {W : Type} `{System W}.

Lemma find_group_eq ids scenarios (st : State W) :
  find_group ids scenarios st =
  (mkState (world st) (trace st ++ not_enabled_warnings ids (world st)),
   Ok (scenarios ++ enabled_files ids (world st))).
Proof.
  revert scenarios st. induction ids as [|i ids IH]; intros scenarios st.
  - cbn. rewrite !app_nil_r. by destruct st.
  - cbn [find_group enabled_files not_enabled_warnings flat_map].
    unfold bind at 1, glob at 1.
    destruct (sys_glob (enabled_pattern i) (world st)) as [|f found] eqn:E.
    + unfold bind, print. rewrite IH. cbn [emit world trace].
      by rewrite <- app_assoc.
    + rewrite IH. cbn [app]. by rewrite <- app_assoc.
Qed.

(** X3. For a group of the table, and without a scenario identifier, the
    catalog returns the enabled definition files of the group's
    identifiers, in the order of the table, and prints one warning for
    each identifier that has none; it changes nothing else. *)
Theorem known_group_lists_enabled_scenarios group ids scenario_id
    (st : State W) :
  SCENARIO_GROUPS !! group = Some ids →
  truthy scenario_id = None →
  find_scenarios group scenario_id st =
    (mkState (world st) (trace st ++ not_enabled_warnings ids (world st)),
     Ok (enabled_files ids (world st))).
Proof.
  intros Hgroup Hid. unfold find_scenarios. rewrite Hid, Hgroup.
  by rewrite find_group_eq.
Qed.

Lemma find_scenarios_by_id group scenario_id sid (st : State W) :
  truthy scenario_id = Some sid →
  find_scenarios group scenario_id st =
    match sys_glob (enabled_pattern sid) (world st) with
    | [] => (emit (not_enabled_notice sid (world st)) st, Ok [])
    | found => (st, Ok found)
    end.
Proof.
  intros Hid. unfold find_scenarios. rewrite Hid.
  unfold bind at 1, glob at 1.
  destruct (sys_glob (enabled_pattern sid) (world st)); [|done].
  unfold bind at 1, glob at 1, not_enabled_notice.
  by destruct (sys_glob (pending_pattern sid) (world st)).
Qed.

Lemma main_eq args (st : State W) :
  main args st =
  match find_scenarios (arg_group args) (arg_scenario args) st with
  | (st1, Ok []) =>
      (emit (EvPrint ("No enabled scenarios found for group " +:+
                      arg_group args)) st1, Ok 1)
  | (st1, Ok files) =>
      match main_loop files (arg_cluster args) true st1 with
      | (st', Ok true) => (st', Ok 0)
      | (st', Ok false) => (st', Ok 1)
      | (st', Raise e) => (st', Raise e)
      end
  | (st1, Raise e) => (st1, Raise e)
  end.
Proof.
  unfold main, bind at 1.
  assert (match truthy (arg_scenario args) with
          | Some sid => find_scenarios (arg_group args) (Some sid)
          | None => find_scenarios (arg_group args) None
          end st = find_scenarios (arg_group args) (arg_scenario args) st) as ->.
  { unfold find_scenarios. destruct (arg_scenario args) as [[|c sid]|]; reflexivity. }
  destruct (find_scenarios _ _ st) as [st1 [[|f files]|e]]; [done| |done].
  unfold bind. destruct (main_loop _ _ _ _) as [st' [[]|e]]; done.
Qed.

(** X4. Asking for a scenario that has no enabled definition file ends the
    run with exit status 1. The runner prints one line about the
    scenario (a warning if a pending definition exists, an error if not)
    and the line about the group, and does nothing else: no set-up, no
    command, no file. A pending definition is never returned. *)
Theorem requested_scenario_not_enabled args sid (st : State W) :
  truthy (arg_scenario args) = Some sid →
  sys_glob (enabled_pattern sid) (world st) = [] →
  find_scenarios (arg_group args) (arg_scenario args) st =
    (emit (not_enabled_notice sid (world st)) st, Ok []) ∧
  main args st =
    (mkState (world st)
       (trace st ++
        [not_enabled_notice sid (world st);
         EvPrint ("No enabled scenarios found for group " +:+ arg_group args)]),
     Ok 1).
Proof.
  intros Hid Hnone.
  pose proof (find_scenarios_by_id (arg_group args) _ sid st Hid) as Hfind.
  rewrite Hnone in Hfind. split; [done|].
  rewrite main_eq, Hfind. unfold emit. cbn [world trace].
  by rewrite <- app_assoc.
Qed.

(** X5. With a scenario identifier that has an enabled definition file,
    the group plays no role: the catalog returns the files of that
    identifier without printing anything, and the whole run is the same
    under any other group name. *)
Theorem requested_scenario_ignores_group args group' sid file others
    (st : State W) :
  truthy (arg_scenario args) = Some sid →
  sys_glob (enabled_pattern sid) (world st) = file :: others →
  find_scenarios (arg_group args) (arg_scenario args) st =
    (st, Ok (file :: others)) ∧
  main args st =
  main {| arg_group := group'; arg_cluster := arg_cluster args;
          arg_scenario := arg_scenario args |} st.
Proof.
  intros Hid Hfound.
  pose proof (find_scenarios_by_id (arg_group args) _ sid st Hid) as Hfind.
  pose proof (find_scenarios_by_id group' _ sid st Hid) as Hfind'.
  rewrite Hfound in Hfind, Hfind'. split; [done|].
  rewrite !main_eq. cbn [arg_group arg_cluster arg_scenario].
  by rewrite Hfind, Hfind'.
Qed.

End CatalogProperties.

Lemma known_group_lists_enabled_scenarios_witness :
  let w := Sim.world_of
             [(Sim.path_of "TF-SEC-3_EdgeProbeHardening", Sim.no_apply);
              (Sim.path_of "TF-SEC-1_SBOM_Validation", Sim.no_apply)] [] in
  find_scenarios "security" None (Sim.start w) =
    (mkState w
       [EvPrint ("WARNING: Scenario TF-SEC-2_ImageSignature_Validation" +:+
                 " not found or not enabled")],
     Ok [Sim.path_of "TF-SEC-1_SBOM_Validation";
         Sim.path_of "TF-SEC-3_EdgeProbeHardening"]).
Proof.
  intros w.
  rewrite (known_group_lists_enabled_scenarios "security"
             ["TF-SEC-1_SBOM_Validation"; "TF-SEC-2_ImageSignature_Validation";
              "TF-SEC-3_EdgeProbeHardening"] None (Sim.start w)).
  - vm_compute. reflexivity.
  - vm_compute. reflexivity.
  - reflexivity.
Defined.

Lemma requested_scenario_not_enabled_witness :
  let pending := "tf-k8s/scenarios/pending/TF-DEMO-3_NoApply/scenario_definition.yaml" in
  let w := Sim.world_of [(pending, Sim.no_apply)] [] in
  let args := {| arg_group := "security"; arg_cluster := "kind";
                 arg_scenario := Some "TF-DEMO-3_NoApply" |} in
  main args (Sim.start w) =
    (mkState w
       [EvPrint ("WARNING: Scenario TF-DEMO-3_NoApply is in pending status" +:+
                 " and won't be executed");
        EvPrint "No enabled scenarios found for group security"],
     Ok 1).
Proof.
  intros pending w args.
  destruct (requested_scenario_not_enabled args "TF-DEMO-3_NoApply" (Sim.start w))
    as [_ Hmain].
  - reflexivity.
  - vm_compute. reflexivity.
  - rewrite Hmain. vm_compute. reflexivity.
Defined.

Lemma requested_scenario_ignores_group_witness :
  let st := Sim.start (Sim.no_apply_world []) in
  let args := {| arg_group := "security"; arg_cluster := "kind";
                 arg_scenario := Some "TF-DEMO-3_NoApply" |} in
  find_scenarios "security" (Some "TF-DEMO-3_NoApply") st =
    (st, Ok [Sim.path_of "TF-DEMO-3_NoApply"]) ∧
  main args st =
  main {| arg_group := "slo-core"; arg_cluster := "kind";
          arg_scenario := Some "TF-DEMO-3_NoApply" |} st.
Proof.
  intros st args.
  apply (requested_scenario_ignores_group args "slo-core" "TF-DEMO-3_NoApply"
           (Sim.path_of "TF-DEMO-3_NoApply") [] st).
  - reflexivity.
  - vm_compute. reflexivity.
Defined.

(** ** Set-up *)

Section SetupProperties.

Context {W : Type} `{System W}.

Lemma apply_manifests_prefix pre rest namespace (st : State W) w1 :
  all_applied pre namespace (world st) = Some w1 →
  apply_manifests (pre ++ rest) namespace st =
  apply_manifests rest namespace
    (mkState w1 (trace st ++ apply_events pre namespace)).
Proof.
  revert st. induction pre as [|m pre IH]; intros st Hall.
  - cbn in Hall. injection Hall as <-. cbn. rewrite app_nil_r. by destruct st.
  - cbn [all_applied] in Hall. cbn [app apply_manifests].
    unfold bind at 1 2, print, run_checked. cbn [emit world trace].
    unfold apply_argv in Hall.
    destruct (sys_run _ (world st)) as [w [msg|]]; [done|].
    rewrite (IH (mkState w _)) by exact Hall. cbn [trace apply_events flat_map].
    by rewrite <- !app_assoc.
Qed.

Lemma setup_scenario_created scenario_path cluster_type (st : State W)
    scenario w1 :
  sys_load_yaml scenario_path (world st) = inr scenario →
  let namespace := namespace_of (scenario_id_of scenario) in
  sys_run ["kubectl"; "create"; "namespace"; namespace] (world st) =
    (w1, None) →
  setup_scenario scenario_path cluster_type st =
  match apply_manifests (manifests_of scenario_path w1) namespace
          (mkState w1 (trace st ++ namespace_events scenario_path namespace))
  with
  | (st', Ok _) => (st', Ok (scenario, namespace))
  | (st', Raise e) => (st', Raise e)
  end.
Proof.
  intros Hload namespace Hcreate. unfold setup_scenario.
  unfold bind at 1 2, print at 1, load_yaml. cbn [emit world trace].
  rewrite Hload. fold namespace.
  unfold bind at 1, run_checked at 1. cbn [emit world trace].
  rewrite Hcreate.
  unfold bind at 1 2, print, path_exists. cbn [emit world trace].
  unfold manifests_of, k8s_dir_of, namespace_events.
  rewrite <- !app_assoc. cbn [app].
  destruct (sys_exists _ w1).
  - unfold bind at 1 2, glob, emit. cbn [world trace].
    rewrite <- !app_assoc. cbn [app].
    by destruct (apply_manifests _ _ _) as [st' [[]|e]].
  - unfold bind, ret, emit. cbn [world trace apply_manifests].
    by rewrite <- !app_assoc.
Qed.

(** X6. A set-up that goes through. When the definition is read and the
    cluster accepts the namespace and every manifest, the set-up creates
    the namespace first and then applies the manifests of the [k8s]
    directory next to the definition, each one once and in the order they
    are listed; without that directory it applies nothing. It returns the
    definition and the namespace. *)
Theorem setup_applies_manifests_in_order scenario_path cluster_type
    (st : State W) scenario w1 w2 :
  sys_load_yaml scenario_path (world st) = inr scenario →
  sys_run ["kubectl"; "create"; "namespace";
           namespace_of (scenario_id_of scenario)] (world st) = (w1, None) →
  all_applied (manifests_of scenario_path w1)
    (namespace_of (scenario_id_of scenario)) w1 = Some w2 →
  let namespace := namespace_of (scenario_id_of scenario) in
  setup_scenario scenario_path cluster_type st =
    (mkState w2
       (trace st ++ namespace_events scenario_path namespace ++
        apply_events (manifests_of scenario_path w1) namespace),
     Ok (scenario, namespace)).
Proof.
  intros Hload Hcreate Hall namespace.
  rewrite (setup_scenario_created _ _ _ _ _ Hload Hcreate). fold namespace.
  rewrite <- (app_nil_r (manifests_of scenario_path w1)) at 1.
  rewrite (apply_manifests_prefix _ [] namespace _ w2) by exact Hall.
  cbn [apply_manifests ret trace]. by rewrite <- app_assoc.
Qed.

(** X7. A manifest the cluster rejects. The set-up stops at the first
    manifest whose [kubectl apply] fails: the exception of that call
    leaves [setup_scenario], the manifests listed after it are not
    applied, and nothing is undone (the namespace created stays). *)
Theorem setup_stops_at_rejected_manifest scenario_path cluster_type
    (st : State W) scenario w1 pre manifest post w2 w3 msg :
  sys_load_yaml scenario_path (world st) = inr scenario →
  sys_run ["kubectl"; "create"; "namespace";
           namespace_of (scenario_id_of scenario)] (world st) = (w1, None) →
  manifests_of scenario_path w1 = pre ++ manifest :: post →
  all_applied pre (namespace_of (scenario_id_of scenario)) w1 = Some w2 →
  sys_run (apply_argv (namespace_of (scenario_id_of scenario)) manifest) w2 =
    (w3, Some msg) →
  let namespace := namespace_of (scenario_id_of scenario) in
  setup_scenario scenario_path cluster_type st =
    (mkState w3
       (trace st ++ namespace_events scenario_path namespace ++
        apply_events pre namespace ++
        [EvPrint ("Applying " +:+ manifest);
         EvRun (apply_argv namespace manifest)]),
     Raise (CalledProcessError msg)).
Proof.
  intros Hload Hcreate Hlist Hall Hfail namespace.
  rewrite (setup_scenario_created _ _ _ _ _ Hload Hcreate). fold namespace.
  rewrite Hlist.
  rewrite (apply_manifests_prefix _ _ namespace _ w2) by exact Hall.
  cbn [apply_manifests]. unfold bind at 1 2, print, run_checked.
  cbn [emit world trace]. fold (apply_argv namespace manifest).
  unfold namespace at 1. rewrite Hfail. by rewrite <- !app_assoc.
Qed.

(** X8. The cluster type handed to the runner is not used: the set-up of
    a scenario, and with it the whole run, is the same for any two
    values of the [--cluster] option. *)
Theorem cluster_type_is_not_used args cluster' (st : State W) :
  (∀ scenario_path,
     setup_scenario scenario_path (arg_cluster args) st =
     setup_scenario scenario_path cluster' st) ∧
  main args st =
  main {| arg_group := arg_group args; arg_cluster := cluster';
          arg_scenario := arg_scenario args |} st.
Proof.
  split; [done|].
  assert (∀ files c success (st : State W),
            main_loop files c success st = main_loop files cluster' success st)
    as Hloop.
  { intros files c. induction files as [|f files IH]; intros success st0;
      [done|].
    cbn [main_loop]. unfold bind at 1 3.
    change (execute_scenario f c) with (execute_scenario f cluster').
    destruct (try_except _ _ st0) as [st1 [ok|e]]; [apply IH|done]. }
  rewrite !main_eq. cbn [arg_group arg_cluster arg_scenario].
  destruct (find_scenarios _ _ st) as [st1 [[|f files]|e]]; [done| |done].
  by rewrite Hloop.
Qed.

End SetupProperties.

Lemma setup_applies_manifests_in_order_witness :
  let path := Sim.path_of "TF-DEMO-3_NoApply" in
  let w := SimFiles.manifest_world [] in
  let ns := SimFiles.namespace in
  setup_scenario path "kind" (Sim.start w) =
    (mkState w
       ([EvPrint ("Setting up scenario from " +:+ path);
         EvRun ["kubectl"; "create"; "namespace"; ns];
         EvPrint ("Created namespace " +:+ ns)] ++
        [EvPrint ("Applying " +:+ SimFiles.manifest "a.yaml");
         EvRun ["kubectl"; "apply"; "-f"; SimFiles.manifest "a.yaml"; "-n"; ns];
         EvPrint ("Applying " +:+ SimFiles.manifest "b.yaml");
         EvRun ["kubectl"; "apply"; "-f"; SimFiles.manifest "b.yaml"; "-n"; ns];
         EvPrint ("Applying " +:+ SimFiles.manifest "c.yaml");
         EvRun ["kubectl"; "apply"; "-f"; SimFiles.manifest "c.yaml"; "-n"; ns]]),
     Ok (Sim.no_apply, ns)).
Proof.
  intros path w ns.
  rewrite (setup_applies_manifests_in_order path "kind" (Sim.start w)
             Sim.no_apply w w).
  - vm_compute. reflexivity.
  - vm_compute. reflexivity.
  - vm_compute. reflexivity.
  - vm_compute. reflexivity.
Defined.

Lemma setup_stops_at_rejected_manifest_witness :
  let path := Sim.path_of "TF-DEMO-3_NoApply" in
  let w := SimFiles.manifest_world [SimFiles.manifest "b.yaml"] in
  let ns := SimFiles.namespace in
  setup_scenario path "kind" (Sim.start w) =
    (mkState w
       ([EvPrint ("Setting up scenario from " +:+ path);
         EvRun ["kubectl"; "create"; "namespace"; ns];
         EvPrint ("Created namespace " +:+ ns)] ++
        [EvPrint ("Applying " +:+ SimFiles.manifest "a.yaml");
         EvRun ["kubectl"; "apply"; "-f"; SimFiles.manifest "a.yaml"; "-n"; ns]] ++
        [EvPrint ("Applying " +:+ SimFiles.manifest "b.yaml");
         EvRun ["kubectl"; "apply"; "-f"; SimFiles.manifest "b.yaml"; "-n"; ns]]),
     Raise (CalledProcessError
              "Command 'kubectl' returned non-zero exit status 1.")).
Proof.
  intros path w ns.
  rewrite (setup_stops_at_rejected_manifest path "kind" (Sim.start w)
             Sim.no_apply w [SimFiles.manifest "a.yaml"]
             (SimFiles.manifest "b.yaml") [SimFiles.manifest "c.yaml"] w w
             "Command 'kubectl' returned non-zero exit status 1.").
  - vm_compute. reflexivity.
  - vm_compute. reflexivity.
  - vm_compute. reflexivity.
  - vm_compute. reflexivity.
  - vm_compute. reflexivity.
  - vm_compute. reflexivity.
Defined.

(** ** More on the run of a scenario *)

Section RunProperties.

Context {W : Type} `{System W}.

Lemma run_step_eq i step namespace results (st : State W) :
  run_step i step namespace results st =
  match run_commands (default [] (step_commands step)) namespace
          {| step_success := true; step_output := [];
             step_results := results |}
          (emit (EvPrint ("Executing step: " +:+ step_label i step)) st) with
  | (st', Ok v) =>
      let sr := {| sr_name := step_label i step;
                   sr_success := step_success v;
                   sr_output := step_output v |} in
      (st', Ok (sr, append_step sr (step_results v)))
  | (st', Raise e) => (st', Raise e)
  end.
Proof.
  unfold run_step, step_label. unfold bind at 1 2, print.
  by destruct (run_commands _ _ _ _) as [st' [v|e]].
Qed.

Lemma all_succeed_length cmds (w w' : W) outputs :
  all_succeed cmds w = Some (w', outputs) → length outputs = length cmds.
Proof.
  revert w outputs. induction cmds as [|cmd rest IH]; intros w outputs.
  - by intros [= <- <-].
  - cbn [all_succeed].
    destruct (sys_check_output cmd w) as [w1 [output|e]]; [|done].
    destruct (all_succeed rest w1) as [[w2 outs]|] eqn:E; [|done].
    intros [= <- <-]. cbn. f_equal. by eapply IH.
Qed.

Lemma all_succeed_stop pre cmd post (w w1 w2 : W) outputs e :
  all_succeed pre w = Some (w1, outputs) →
  sys_check_output cmd w1 = (w2, inr e) →
  all_succeed (pre ++ cmd :: post) w = None.
Proof.
  revert w outputs. induction pre as [|c pre IH]; intros w outputs.
  - intros [= <- <-] Hfail. cbn. by rewrite Hfail.
  - cbn [all_succeed app].
    destruct (sys_check_output c w) as [w' [output|e']]; [|done].
    destruct (all_succeed pre w') as [[w'' outs]|] eqn:E; [|done].
    intros [= <- <-] Hfail. by rewrite (IH _ _ E Hfail).
Qed.

(** A step that succeeds ran all its commands; a step that fails did
    not. *)
Lemma step_executed_succeeds i step namespace (w : W) sr evs w' :
  step_executed i step namespace w sr evs w' →
  if sr_success sr
  then all_succeed (substituted namespace (default [] (step_commands step))) w
       = Some (w', sr_output sr)
  else all_succeed (substituted namespace (default [] (step_commands step))) w
       = None.
Proof.
  intros [_ [(-> & Hall & _) | (-> & Hfail)]]; [done|].
  destruct Hfail as (pre & cmd & post & w1 & outputs & e & -> & Hpre & Hcmd & _).
  unfold substituted. rewrite fmap_app, fmap_cons.
  by eapply all_succeed_stop.
Qed.

Lemma step_executed_fits i step namespace (w : W) sr evs w' :
  step_executed i step namespace w sr evs w' → output_fits step sr.
Proof.
  intros [_ [(Hs & Hall & _) | (Hs & Hfail)]]; unfold output_fits; rewrite Hs.
  - apply all_succeed_length in Hall. unfold substituted in Hall.
    by rewrite length_fmap in Hall.
  - destruct Hfail
      as (pre & cmd & post & w1 & outputs & e & -> & Hpre & _ & Hout & _).
    exists outputs, e. split; [done|].
    apply all_succeed_length in Hpre. unfold substituted in Hpre.
    rewrite length_fmap in Hpre. rewrite length_app, Hpre. cbn. lia.
Qed.

(** X9. What is recorded for each step. In the result that [run_scenario]
    returns, the entry at position [k] is the result of step [k]: it
    carries the step's name, or [Step k+1] for a step without one, and
    its output fits its outcome: one entry per command of a step that
    succeeded; for a step that failed, the outputs of the commands that
    ran successfully, fewer than the step has commands, and then one
    entry starting with [ERROR: ]. No more results are recorded than
    there are steps. *)
Theorem step_results_fit_their_steps scenario namespace (st st' : State W)
    results :
  run_scenario scenario namespace st = (st', Ok results) →
  (length (res_steps results) ≤ length (default [] (sc_steps scenario)))%nat ∧
  ∀ k s sr,
    default [] (sc_steps scenario) !! k = Some s →
    res_steps results !! k = Some sr →
    sr_name sr = step_label k s ∧ output_fits s sr.
Proof.
  intros Hrun.
  destruct (run_scenario_ok _ _ _ _ _ Hrun)
    as (st1 & r1 & Hsteps & _ & Hr1 & Hrec & _).
  split; [by eapply recorded_length|].
  intros k s sr Hs Hsr. split.
  - by apply (recorded_name 0 _ _ k s sr Hrec).
  - destruct (run_steps_ok _ _ _ _ _ _ _ Hsteps)
      as (srs & evs & Hsrs & _ & _ & _ & Hexec).
    cbn [initial_results res_steps app] in Hsrs. rewrite Hr1, Hsrs in Hsr.
    destruct (steps_executed_lookup _ _ _ _ _ _ _ _ _ _ Hexec Hs Hsr)
      as (w1 & w2 & evs1 & _ & _ & Hstep & _).
    by eapply step_executed_fits.
Qed.

Lemma run_steps_outcome steps i namespace results (st st' : State W) results' :
  run_steps i steps namespace results st = (st', Ok results') →
  ∃ srs,
    res_steps results' = res_steps results ++ srs ∧
    match steps_succeed steps namespace (world st) with
    | Some (w', outputs) =>
        world st' = w' ∧ res_success results' = res_success results ∧
        sr_output <$> srs = outputs ∧ length srs = length steps
    | None => res_success results' = false
    end.
Proof.
  revert i results st. induction steps as [|step rest IH]; intros i results st.
  - intros [= <- <-]. exists []. rewrite app_nil_r. done.
  - cbn [run_steps steps_succeed]. unfold bind at 1.
    destruct (run_step i step namespace results st)
      as [st1 [[sr r1]|e]] eqn:Hstep; [|done].
    destruct (run_step_ok _ _ _ _ _ _ _ _ Hstep)
      as (Hsteps & Hsucc & _ & _ & evs1 & _ & Hexec).
    apply step_executed_succeeds in Hexec.
    destruct (sr_success sr) eqn:Hs; rewrite Hexec.
    + cbn [negb andb]. intros Hrun.
      destruct (IH _ _ _ Hrun) as (srs & Hsrs & Hout).
      exists (sr :: srs). rewrite Hsrs, Hsteps, <- app_assoc. split; [done|].
      destruct (steps_succeed rest namespace (world st1)) as [[w2 more]|].
      * destruct Hout as (-> & -> & <- & Hlen).
        rewrite Hsucc, andb_true_r. cbn. by rewrite Hlen.
      * done.
    + rewrite andb_false_r in Hsucc. cbn [negb andb].
      destruct (critical step).
      * unfold bind, print, ret. intros [= <- <-]. by exists [sr].
      * intros Hrun.
        destruct (run_steps_ok _ _ _ _ _ _ _ Hrun)
          as (srs & evs & Hsrs & Hsucc' & _).
        exists (sr :: srs). rewrite Hsrs, Hsteps, <- app_assoc. split; [done|].
        by rewrite Hsucc', Hsucc.
Qed.

(** X10. Success means that every command succeeded. In the result that
    [run_scenario] returns, the [success] entry is true exactly when the
    environment lets every command of every step of the definition,
    taken in order, exit successfully; the run then records every step,
    with the outputs captured. A definition without steps succeeds. *)
Theorem success_iff_every_command_succeeds scenario namespace
    (st st' : State W) results :
  let st0 := emit (EvPrint ("Running scenario " +:+ scenario_id_of scenario +:+
                            " in namespace " +:+ namespace)) st in
  let steps := default [] (sc_steps scenario) in
  run_scenario scenario namespace st = (st', Ok results) →
  (res_success results = true ↔
   is_Some (steps_succeed steps namespace (world (now_state st0)))) ∧
  (∀ w outputs,
     steps_succeed steps namespace (world (now_state st0)) = Some (w, outputs) →
     sr_output <$> res_steps results = outputs ∧
     length (res_steps results) = length steps) ∧
  (steps = [] → res_success results = true).
Proof.
  intros st0 steps. rewrite run_scenario_eq. fold st0. fold steps.
  destruct (run_steps _ _ _ _ _) as [st1 [r1|e]] eqn:Hsteps; [|done].
  intros [= <- <-].
  destruct (run_steps_outcome _ _ _ _ _ _ _ Hsteps) as (srs & Hsrs & Hout).
  rewrite evaluate_criteria_eq. cbn [res_success set_end_time set_criteria
                                     res_steps].
  cbn [res_steps initial_results app] in Hsrs. rewrite Hsrs.
  split; [|split].
  - destruct (steps_succeed _ _ _) as [[w outputs]|].
    + destruct Hout as (_ & -> & _). by split.
    + rewrite Hout. split; [done|]. by intros [? ?].
  - intros w outputs Hsome. rewrite Hsome in Hout. by destruct Hout as (_ & _ & ? & ?).
  - intros Hnil. rewrite Hnil in Hout. cbn in Hout. by destruct Hout as (_ & -> & _).
Qed.

Lemma run_steps_succeed steps i namespace results (st : State W) w outputs :
  steps_succeed steps namespace (world st) = Some (w, outputs) →
  run_steps i steps namespace results st =
    (mkState w (trace st ++ step_events i steps namespace),
     Ok (foldl (λ r sr, append_step sr r) results
               (step_successes i steps outputs))).
Proof.
  revert i results st w outputs.
  induction steps as [|step rest IH]; intros i results st w outputs Hall.
  - cbn in Hall. injection Hall as <- <-. cbn. rewrite app_nil_r.
    by destruct st.
  - cbn [steps_succeed] in Hall. cbn [run_steps]. unfold bind at 1.
    rewrite run_step_eq.
    destruct (all_succeed _ (world st)) as [[w1 output]|] eqn:Hcmds; [|done].
    destruct (steps_succeed rest namespace w1) as [[w2 more]|] eqn:Hrest;
      [|done].
    injection Hall as <- <-.
    pose proof (run_commands_prefix (default [] (step_commands step)) []
                  namespace
                  {| step_success := true; step_output := [];
                     step_results := results |}
                  (emit (EvPrint ("Executing step: " +:+ step_label i step)) st)
                  w1 output Hcmds) as Hrc.
    rewrite app_nil_r in Hrc. rewrite Hrc.
    cbn [run_commands ret step_success step_output step_results sr_success
         negb andb app].
    rewrite (IH (S i) _ (mkState w1 _) w2 more) by exact Hrest.
    cbn [emit trace step_events step_successes foldl].
    repeat (rewrite <- app_assoc || rewrite <- app_comm_cons). reflexivity.
Qed.

(** X11. A run in which every command succeeds. When the environment lets
    every command of every step exit successfully, the runner announces
    each step and runs its commands once each, in the order of the
    definition, and nothing else; the results hold one successful entry
    per step with the outputs captured, the placeholder entry of every
    criterion, the overall success true and the two time stamps. *)
Theorem successful_run scenario namespace (st : State W) w outputs :
  let st0 := emit (EvPrint ("Running scenario " +:+ scenario_id_of scenario +:+
                            " in namespace " +:+ namespace)) st in
  let steps := default [] (sc_steps scenario) in
  let criteria := default [] (sc_success_criteria scenario) in
  steps_succeed steps namespace (world (now_state st0)) = Some (w, outputs) →
  let st1 := mkState w (trace st0 ++ step_events 0 steps namespace) in
  run_scenario scenario namespace st =
    (now_state st1,
     Ok {| res_scenario_id := scenario_id_of scenario;
           res_start_time := isoformat (now_value st0);
           res_steps := step_successes 0 steps outputs;
           res_success := true;
           res_criteria := Some (criterion_result <$> criteria);
           res_end_time := Some (isoformat (now_value st1)) |}).
Proof.
  intros st0 steps criteria Hall st1. rewrite run_scenario_eq.
  fold st0. fold steps. fold criteria.
  rewrite (run_steps_succeed steps 0 namespace _ (now_state st0) w outputs Hall).
  fold st1. rewrite evaluate_criteria_eq. f_equal. f_equal.
  assert (∀ srs r, res_steps (foldl (λ r sr, append_step sr r) r srs) =
                   res_steps r ++ srs ∧
                   same_header r (foldl (λ r sr, append_step sr r) r srs) ∧
                   res_success (foldl (λ r sr, append_step sr r) r srs) =
                   res_success r) as Hfold.
  { induction srs as [|sr srs IH]; intros r; cbn [foldl].
    - rewrite app_nil_r. split; [done|]. split; [apply same_header_refl|done].
    - destruct (IH (append_step sr r)) as (H1 & H2 & H3).
      rewrite H1, H3. cbn [append_step res_steps res_success].
      rewrite <- app_assoc. split; [done|]. split; [|done].
      eapply same_header_trans; [|exact H2]. by repeat split. }
  destruct (Hfold (step_successes 0 steps outputs)
              (initial_results (scenario_id_of scenario) (now_value st0)))
    as (H1 & (H2 & H3 & H4 & H5) & H6).
  unfold set_end_time, set_criteria. cbn [res_scenario_id res_start_time
    res_steps res_success res_criteria res_end_time].
  rewrite H1, H2, H3, H6. reflexivity.
Qed.

End RunProperties.

Lemma step_results_fit_their_steps_witness :
  let run := Sim.run_demo (Some false) in
  let results := Sim.value Sim.no_results run in
  ∃ sr, res_steps results !! 1%nat = Some sr ∧
        sr_name sr = "wait" ∧ output_fits (Sim.wait_step (Some false)) sr.
Proof.
  intros run results.
  destruct (step_results_fit_their_steps (Sim.demo (Some false))
              Sim.demo_namespace (Sim.start (Sim.demo_world (Some false) []))
              (fst run) results) as [_ Hfit]; [vm_compute; reflexivity|].
  eexists. split; [vm_compute; reflexivity|].
  apply (Hfit 1%nat (Sim.wait_step (Some false))); vm_compute; reflexivity.
Defined.

Lemma success_iff_every_command_succeeds_witness :
  let run := Sim.run_demo (Some false) in
  let results := Sim.value Sim.no_results run in
  res_success results = false ∧
  steps_succeed (Sim.demo_steps (Some false)) Sim.demo_namespace
    (Sim.tick (Sim.demo_world (Some false) [])) = None.
Proof.
  intros run results. split; [vm_compute; reflexivity|].
  destruct (success_iff_every_command_succeeds (Sim.demo (Some false))
              Sim.demo_namespace (Sim.start (Sim.demo_world (Some false) []))
              (fst run) results) as [Hiff _]; [vm_compute; reflexivity|].
  destruct (steps_succeed _ _ _) as [p|] eqn:E; [|reflexivity].
  assert (res_success results = true) as Hs by (apply Hiff; by eexists).
  vm_compute in Hs. discriminate Hs.
Defined.

Lemma successful_run_witness :
  let st := Sim.start (Sim.no_apply_world []) in
  ∃ st' results,
    run_scenario Sim.no_apply "tf-k8s-tf-demo-3-noapply" st =
      (st', Ok results) ∧
    res_success results = true ∧
    sr_output <$> res_steps results =
      [["ran sleep 1"]; ["ran python verify.py"]; ["ran echo ok"]] ∧
    trace st' =
      [EvPrint "Running scenario TF-DEMO-3_NoApply in namespace tf-k8s-tf-demo-3-noapply";
       EvPrint "Executing step: wait";
       EvPrint "Running command: sleep 1"; EvShell "sleep 1";
       EvPrint "Executing step: verify";
       EvPrint "Running command: python verify.py"; EvShell "python verify.py";
       EvPrint "Executing step: report";
       EvPrint "Running command: echo ok"; EvShell "echo ok"].
Proof.
  intros st.
  eexists _, _. split.
  - apply (successful_run Sim.no_apply "tf-k8s-tf-demo-3-noapply" st
             (Sim.tick (Sim.no_apply_world []))
             [["ran sleep 1"]; ["ran python verify.py"]; ["ran echo ok"]]).
    vm_compute. reflexivity.
  - split; [reflexivity|]. split; [reflexivity|]. vm_compute. reflexivity.
Defined.

(** ** What each phase does to the outside world *)

Section PhaseEvents.

Context {W : Type} `{System W}.

Lemma prints_or_runs_weaken cmds cmds' evs :
  cmds ⊆ cmds' →
  Forall (prints_or_runs cmds) evs → Forall (prints_or_runs cmds') evs.
Proof.
  intros Hsub Hall. eapply Forall_impl; [exact Hall|].
  intros [line|cmd|argv|path|path text]; cbn; auto.
Qed.

Lemma Forall_two {A} (P : A → Prop) a b l :
  Forall P [a; b] → Forall P l → Forall P (a :: b :: l).
Proof. intros Hab Hl. by apply (Forall_app P [a; b] l). Qed.

Lemma run_commands_events commands namespace v (st : State W) :
  ∃ st' r evs,
    run_commands commands namespace v st = (st', r) ∧
    trace st' = trace st ++ evs ∧
    Forall (prints_or_runs (substituted namespace commands)) evs.
Proof.
  revert v st. induction commands as [|cmd rest IH]; intros v st.
  - exists st, (Ok v), []. by rewrite app_nil_r.
  - cbn [run_commands]. unfold bind at 1 2, print, check_output.
    cbn [emit world trace].
    assert (Forall (prints_or_runs (substituted namespace (cmd :: rest)))
              [EvPrint ("Running command: " +:+
                        Str.replace "{namespace}" namespace cmd);
               EvShell (Str.replace "{namespace}" namespace cmd)]) as Hhead.
    { repeat constructor. }
    destruct (sys_check_output _ (world st)) as [w [output|e]].
    + edestruct IH as (st' & r & evs & -> & Hevs & Hall).
      eexists _, _, _. split; [reflexivity|]. rewrite Hevs. cbn [trace].
      rewrite <- !app_assoc. split; [reflexivity|].
      cbn [app]. apply Forall_two; [exact Hhead|].
      eapply prints_or_runs_weaken; [|exact Hall].
      unfold substituted. cbn [fmap list_fmap].
      intros x Hx. by apply list_elem_of_further.
    + destruct e as [msg|msg|msg|msg];
        (unfold bind, print, ret; eexists _, _, _; split; [reflexivity|];
         cbn [emit trace]; rewrite <- ?app_assoc; split; [reflexivity|];
         cbn [app]; apply Forall_two; [exact Hhead|]; by repeat constructor).
Qed.

Lemma run_steps_events steps i namespace results (st : State W) :
  ∃ st' r evs,
    run_steps i steps namespace results st = (st', r) ∧
    trace st' = trace st ++ evs ∧
    Forall (prints_or_runs
              (substituted namespace
                 (concat ((λ s, default [] (step_commands s)) <$> steps)))) evs.
Proof.
  revert i results st. induction steps as [|step rest IH]; intros i results st.
  - exists st, (Ok results), []. by rewrite app_nil_r.
  - cbn [run_steps]. unfold bind at 1. rewrite run_step_eq.
    edestruct (run_commands_events (default [] (step_commands step)) namespace)
      as (st1 & r1 & evs1 & -> & Hevs1 & Hall1).
    cbn [emit trace] in Hevs1. cbv zeta.
    assert (Forall (prints_or_runs
                      (substituted namespace
                         (concat ((λ s, default [] (step_commands s)) <$>
                                  step :: rest)))) evs1) as Hall1'.
    { eapply prints_or_runs_weaken; [|exact Hall1].
      unfold substituted. cbn [fmap list_fmap concat]. rewrite fmap_app.
      intros x Hx. apply elem_of_app. by left. }
    destruct r1 as [v'|e].
    2:{ eexists _, _, _. split; [reflexivity|]. rewrite Hevs1, <- app_assoc.
        split; [reflexivity|]. constructor; [done|]. exact Hall1'. }
    cbn [sr_success].
    destruct (negb (step_success v') && critical step).
    + unfold bind, print, ret. eexists _, _, _. split; [reflexivity|].
      cbn [emit trace]. rewrite Hevs1, <- !app_assoc.
      split; [reflexivity|]. constructor; [done|].
      apply Forall_app. split; [done|]. by repeat constructor.
    + edestruct (IH (S i)) as (st' & r' & evs & -> & Hevs & Hall).
      eexists _, _, _. split; [reflexivity|].
      rewrite Hevs, Hevs1, <- !app_assoc. split; [reflexivity|].
      constructor; [done|]. apply Forall_app. split; [done|].
      eapply prints_or_runs_weaken; [|exact Hall].
      unfold substituted. cbn [fmap list_fmap concat]. rewrite fmap_app.
      intros x Hx. apply elem_of_app. by right.
Qed.

Lemma run_scenario_events scenario namespace (st : State W) :
  ∃ st' r evs,
    run_scenario scenario namespace st = (st', r) ∧
    trace st' = trace st ++ evs ∧
    Forall (prints_or_runs (listed_commands scenario namespace)) evs.
Proof.
  rewrite run_scenario_eq.
  edestruct (run_steps_events (default [] (sc_steps scenario)) 0 namespace)
    as (st1 & r1 & evs & -> & Hevs & Hall).
  unfold now_state in *. cbn [emit trace] in *.
  destruct r1 as [r1|e];
    (eexists _, _, _; split; [reflexivity|]; cbn [trace];
     rewrite Hevs, <- app_assoc; split; [reflexivity|];
     constructor; [done|]; exact Hall).
Qed.

(** X12. The run of a scenario touches the outside world only through the
    commands of the definition. Whether [run_scenario] returns or
    raises, apart from printing, everything it does is to run shell
    commands, and each of them is a command of one of the steps with the
    placeholder substituted: no [subprocess.run] call of its own, no
    directory and no file. *)
Theorem run_scenario_runs_only_listed_commands scenario namespace
    (st : State W) :
  ∃ st' r evs,
    run_scenario scenario namespace st = (st', r) ∧
    trace st' = trace st ++ evs ∧
    Forall (prints_or_runs (listed_commands scenario namespace)) evs.
Proof. apply run_scenario_events. Qed.

Lemma apply_manifests_events manifest_files namespace (st : State W) :
  ∃ st' r evs,
    apply_manifests manifest_files namespace st = (st', r) ∧
    trace st' = trace st ++ evs ∧
    Forall (λ e, deletes e = false) evs.
Proof.
  revert st. induction manifest_files as [|m rest IH]; intros st.
  - exists st, (Ok tt), []. by rewrite app_nil_r.
  - cbn [apply_manifests]. unfold bind at 1 2, print, run_checked.
    cbn [emit world trace].
    destruct (sys_run _ (world st)) as [w [msg|]].
    + eexists _, _, _. split; [reflexivity|]. cbn [trace].
      rewrite <- app_assoc. split; [reflexivity|]. by repeat constructor.
    + edestruct IH as (st' & r & evs & -> & Hevs & Hall).
      eexists _, _, _. split; [reflexivity|]. rewrite Hevs. cbn [trace].
      rewrite <- !app_assoc. split; [reflexivity|].
      by repeat (constructor; [done|]).
Qed.

Lemma setup_scenario_events scenario_path cluster_type (st : State W) :
  ∃ st' r evs,
    setup_scenario scenario_path cluster_type st = (st', r) ∧
    trace st' = trace st ++
      EvPrint ("Setting up scenario from " +:+ scenario_path) :: evs ∧
    Forall (λ e, deletes e = false) evs.
Proof.
  unfold setup_scenario.
  unfold bind at 1 2, print at 1, load_yaml. cbn [emit world trace].
  destruct (sys_load_yaml scenario_path (world st)) as [msg|scenario].
  { eexists _, _, []. split; [reflexivity|]. cbn [trace]. done. }
  unfold bind at 1, run_checked at 1. cbn [emit world trace].
  destruct (sys_run _ (world st)) as [w [msg|]].
  - eexists _, _, _. split; [reflexivity|]. cbn [trace].
    rewrite <- app_assoc. split; [reflexivity|]. by repeat constructor.
  - unfold bind at 1 2, print, path_exists. cbn [emit world trace].
    destruct (sys_exists _ w).
    + unfold bind at 1 2, glob. cbn [world].
      edestruct apply_manifests_events as (st' & r & evs & -> & Hevs & Hall).
      cbn [emit trace] in Hevs.
      destruct r as [[]|e];
        (eexists _, _, _; split; [reflexivity|]; unfold ret;
         rewrite Hevs, <- !app_assoc; split; [reflexivity|];
         by repeat (constructor; [done|])).
    + eexists _, _, _. split; [reflexivity|]. cbn [emit trace].
      rewrite <- !app_assoc. split; [reflexivity|]. by repeat constructor.
Qed.

Lemma save_results_events results output_dir (st : State W) :
  ∃ st' r evs,
    save_results results output_dir st = (st', r) ∧
    trace st' = trace st ++ evs ∧
    Forall (λ e, deletes e = false) evs.
Proof.
  unfold save_results. unfold bind at 1, makedirs.
  destruct (sys_makedirs _ (world st)) as [w [msg|]].
  { eexists _, _, _. split; [reflexivity|]. cbn [trace].
    split; [reflexivity|]. by repeat constructor. }
  unfold bind at 1, now. cbn [world trace].
  destruct (sys_now w) as [w1 d].
  unfold bind at 1, write_file. cbn [world trace].
  destruct (sys_write _ _ w1) as [w2 [msg|]].
  - eexists _, _, _. split; [reflexivity|]. cbn [trace].
    rewrite <- app_assoc. split; [reflexivity|]. by repeat constructor.
  - unfold bind, print, ret. eexists _, _, _. split; [reflexivity|].
    cbn [emit trace]. rewrite <- !app_assoc. split; [reflexivity|].
    by repeat constructor.
Qed.

Lemma prints_or_runs_no_delete cmds evs :
  Forall (prints_or_runs cmds) evs → Forall (λ e, deletes e = false) evs.
Proof.
  intros Hall. eapply Forall_impl; [exact Hall|].
  by intros [line|cmd|argv|path|path text].
Qed.

Lemma execute_scenario_events scenario_file cluster (st : State W) :
  ∃ st' r evs,
    execute_scenario scenario_file cluster st = (st', r) ∧
    trace st' =
      trace st ++ EvPrint ("Setting up scenario from " +:+ scenario_file) :: evs ∧
    ∀ e, e ∈ evs → deletes e = true →
      ∃ scenario namespace st1 results st2 filename st3,
        setup_scenario scenario_file cluster st =
          (st1, Ok (scenario, namespace)) ∧
        run_scenario scenario namespace st1 = (st2, Ok results) ∧
        save_results results default_output_dir st2 = (st3, Ok filename) ∧
        e = EvRun ["kubectl"; "delete"; "namespace"; namespace;
                   "--timeout=60s"].
Proof.
  unfold execute_scenario. unfold bind at 1.
  destruct (setup_scenario_events scenario_file cluster st)
    as (st1 & r1 & evs1 & Hsetup & Hevs1 & Hall1).
  rewrite Hsetup.
  set (head := EvPrint ("Setting up scenario from " +:+ scenario_file)) in *.
  assert (∀ evs, Forall (λ e, deletes e = false) evs →
                 ∀ e, e ∈ evs → deletes e = true → False) as Hno.
  { intros evs Hall e Hin Hdel. rewrite Forall_forall in Hall.
    specialize (Hall e Hin). congruence. }
  destruct r1 as [[scenario namespace]|e1].
  2:{ exists st1, (Raise e1), evs1. split; [reflexivity|].
      split; [exact Hevs1|].
      intros e Hin Hdel. destruct (Hno _ Hall1 e Hin Hdel). }
  unfold bind at 1.
  destruct (run_scenario_events scenario namespace st1)
    as (st2 & r2 & evs2 & Hrun & Hevs2 & Hall2).
  rewrite Hrun.
  apply prints_or_runs_no_delete in Hall2.
  destruct r2 as [results|e2].
  2:{ exists st2, (Raise e2), (evs1 ++ evs2). split; [reflexivity|].
      split.
      { rewrite Hevs2, Hevs1.
        repeat (rewrite <- app_assoc || rewrite <- app_comm_cons).
        reflexivity. }
      intros e Hin Hdel.
      assert (Forall (λ e, deletes e = false) (evs1 ++ evs2)) as Hall12
        by (apply Forall_app; by split).
      destruct (Hno _ Hall12 e Hin Hdel). }
  unfold bind at 1.
  destruct (save_results_events results default_output_dir st2)
    as (st3 & r3 & evs3 & Hsave & Hevs3 & Hall3).
  rewrite Hsave.
  assert (Forall (λ e, deletes e = false) (evs1 ++ evs2 ++ evs3))
    as Hall123.
  { apply Forall_app. split; [done|]. apply Forall_app. by split. }
  assert (trace st3 = trace st ++ head :: evs1 ++ evs2 ++ evs3) as Htrace.
  { rewrite Hevs3, Hevs2, Hevs1.
    repeat (rewrite <- app_assoc || rewrite <- app_comm_cons). reflexivity. }
  destruct r3 as [filename|e3].
  2:{ exists st3, (Raise e3), (evs1 ++ evs2 ++ evs3).
      split; [reflexivity|]. split; [exact Htrace|].
      intros e Hin Hdel. destruct (Hno _ Hall123 e Hin Hdel). }
  unfold bind at 1, cleanup_scenario. unfold bind at 1, print, run_checked.
  cbn [emit world trace].
  set (notice := EvPrint ("Cleaning up scenario in namespace " +:+ namespace)).
  set (argv := ["kubectl"; "delete"; "namespace"; namespace; "--timeout=60s"]).
  assert (∀ e, e ∈ (evs1 ++ evs2 ++ evs3) ++ [notice; EvRun argv] →
               deletes e = true → e = EvRun argv) as Hlast.
  { intros e Hin Hdel. apply elem_of_app in Hin as [Hin|Hin].
    - destruct (Hno _ Hall123 e Hin Hdel).
    - apply elem_of_cons in Hin as [-> | Hin]; [discriminate Hdel|].
      by apply list_elem_of_singleton in Hin. }
  assert ((trace st3 ++ [notice]) ++ [EvRun argv] =
          trace st ++ head :: (evs1 ++ evs2 ++ evs3) ++ [notice; EvRun argv])
    as Htrace'.
  { rewrite Htrace.
    repeat (rewrite <- app_assoc || rewrite <- app_comm_cons). reflexivity. }
  destruct (sys_run argv (world st3)) as [w4 [msg|]].
  - eexists _, _, _. split; [reflexivity|]. cbn [trace].
    split; [exact Htrace'|].
    intros e Hin Hdel.
    exists scenario, namespace, st1, results, st2, filename, st3.
    split; [done|]. split; [done|]. split; [done|]. by apply Hlast.
  - unfold ret. eexists _, _, _. split; [reflexivity|]. cbn [trace].
    split; [exact Htrace'|].
    intros e Hin Hdel.
    exists scenario, namespace, st1, results, st2, filename, st3.
    split; [done|]. split; [done|]. split; [done|]. by apply Hlast.
Qed.

(** X13. The runner's own [kubectl delete]. Among the [kubectl] calls
    that the body of the driver's loop makes itself, through
    [subprocess.run] (the commands of the steps go through the shell and
    are not among them), a [delete] is made only by the clean-up, after
    the set-up, the run and the saving of the results all returned, and
    it names the namespace the set-up returned. If the set-up, the run
    or the saving raises, the runner makes no [delete] call: it leaves
    the namespace it created to others. *)
Theorem namespace_deleted_only_after_save scenario_file cluster (st : State W) :
  ∃ st' r evs,
    execute_scenario scenario_file cluster st = (st', r) ∧
    trace st' = trace st ++ evs ∧
    ∀ e, e ∈ evs → deletes e = true →
      ∃ scenario namespace st1 results st2 filename st3,
        setup_scenario scenario_file cluster st =
          (st1, Ok (scenario, namespace)) ∧
        run_scenario scenario namespace st1 = (st2, Ok results) ∧
        save_results results default_output_dir st2 = (st3, Ok filename) ∧
        e = EvRun ["kubectl"; "delete"; "namespace"; namespace;
                   "--timeout=60s"].
Proof.
  destruct (execute_scenario_events scenario_file cluster st)
    as (st' & r & evs & Hrun & Hevs & Hdel).
  exists st', r, (EvPrint ("Setting up scenario from " +:+ scenario_file) :: evs).
  split; [done|]. split; [done|].
  intros e [-> | Hin]%elem_of_cons Hd; [discriminate Hd|]. by apply Hdel.
Qed.

Lemma main_loop_events scenario_files cluster success (st : State W) :
  ∃ st' b evs,
    main_loop scenario_files cluster success st = (st', Ok b) ∧
    trace st' = trace st ++ evs ∧
    ∀ f, f ∈ scenario_files →
         EvPrint ("Setting up scenario from " +:+ f) ∈ evs.
Proof.
  revert success st.
  induction scenario_files as [|f rest IH]; intros success st.
  - exists st, success, []. rewrite app_nil_r. split; [done|]. split; [done|].
    intros f Hin. inversion Hin.
  - cbn [main_loop]. unfold bind at 1, try_except.
    destruct (execute_scenario_events f cluster st)
      as (st1 & r & evs1 & -> & Hevs1 & _).
    destruct r as [ok|e].
    + destruct (IH (if ok then success else false) st1)
        as (st' & b & evs & -> & Hevs & Hin).
      exists st', b, (EvPrint ("Setting up scenario from " +:+ f) :: evs1 ++ evs).
      split; [done|]. split.
      { rewrite Hevs, Hevs1, <- app_assoc. done. }
      intros f' [-> | Hf']%elem_of_cons; [apply list_elem_of_here|].
      apply list_elem_of_further, elem_of_app. right. by apply Hin.
    + unfold bind at 1, print, ret.
      match goal with
      | |- context [main_loop rest cluster ?s0 ?st0] =>
          destruct (IH s0 st0) as (st' & b & evs & -> & Hevs & Hin)
      end.
      cbn [emit trace] in Hevs.
      eexists st', b, _. split; [done|]. split.
      { rewrite Hevs, Hevs1, <- !app_assoc. cbn [app]. reflexivity. }
      intros f' [-> | Hf']%elem_of_cons; [apply list_elem_of_here|].
      apply list_elem_of_further, elem_of_app. right.
      apply list_elem_of_further. by apply Hin.
Qed.

(** X14. Every scenario is attempted. The driver's loop never raises and
    never stops early: whatever happens to a scenario (an exception in
    any phase, or results that say failure), the set-up of every
    scenario file of the list is started, in the order of the list. A
    failure is not forgotten: once the success flag is false, the loop
    ends with false. *)
Theorem every_scenario_is_attempted scenario_files cluster success
    (st : State W) :
  ∃ st' b evs,
    main_loop scenario_files cluster success st = (st', Ok b) ∧
    trace st' = trace st ++ evs ∧
    (∀ f, f ∈ scenario_files →
          EvPrint ("Setting up scenario from " +:+ f) ∈ evs) ∧
    (success = false → b = false).
Proof.
  destruct (main_loop_events scenario_files cluster success st)
    as (st' & b & evs & Hloop & Hevs & Hin).
  exists st', b, evs. split; [done|]. split; [done|]. split; [done|].
  destruct (main_loop_outcome scenario_files cluster success st)
    as (st'' & b' & Hloop' & Hb).
  rewrite Hloop in Hloop'. injection Hloop' as <- <-.
  intros ->. destruct b; [|done]. by destruct Hb as [[? _] _].
Qed.

End PhaseEvents.

(** ** The validator's definition check *)

Section ValidatorProperties.

Import Validator.

Lemma skip_run_split p l :
  ∃ run, l = run ++ skip_run p l ∧ Forall (λ c, p c = true) run ∧
         match skip_run p l with
         | c :: _ => p c = false
         | [] => True
         end.
Proof.
  induction l as [|c l (run & Hl & Hrun & Hnext)].
  - by exists [].
  - cbn [skip_run]. destruct (p c) eqn:E.
    + exists (c :: run). split; [cbn; by rewrite <- Hl|]. split; [by constructor|done].
    + exists []. split; [done|]. by split.
Qed.

Lemma skip_run_app p run rest :
  Forall (λ c, p c = true) run →
  match rest with c :: _ => p c = false | [] => True end →
  skip_run p (run ++ rest) = rest.
Proof.
  intros Hrun Hrest. induction Hrun as [|c run Hc _ IH].
  - destruct rest as [|c rest]; [done|]. cbn. by rewrite Hrest.
  - cbn. by rewrite Hc.
Qed.

Lemma word_tail_cons c l :
  word_tail (c :: l) =
  match l with
  | [] => is_word c
  | [x] => if Ascii.eqb x "010" then is_word c else is_word c && is_word x
  | _ => is_word c && word_tail l
  end.
Proof.
  destruct l as [|x l]; [done|].
  destruct x as [[] [] [] [] [] [] [] []]; destruct l as [|y l]; reflexivity.
Qed.

Lemma word_tail_split l :
  word_tail l = true →
  ∃ name ending,
    l = name ++ ending ∧ name ≠ [] ∧ Forall (λ c, is_word c = true) name ∧
    (ending = [] ∨ ending = ["010"%char]).
Proof.
  induction l as [|c l IH]; [done|]. rewrite word_tail_cons.
  destruct l as [|x [|y l]].
  - intros Hc. exists [c], []. split; [done|]. split; [done|].
    split; [by repeat constructor|by left].
  - destruct (Ascii.eqb x "010") eqn:E.
    + apply Ascii.eqb_eq in E. subst. intros Hc. exists [c], ["010"%char].
      split; [done|]. split; [done|]. split; [by repeat constructor|by right].
    + intros [Hc Hx]%andb_true_iff. exists [c; x], []. split; [done|].
      split; [done|]. split; [by repeat constructor|by left].
  - intros [Hc Ht]%andb_true_iff.
    destruct (IH Ht) as (name & ending & Hl & Hne & Hname & Hend).
    exists (c :: name), ending. rewrite Hl. split; [done|]. split; [done|].
    split; [by constructor|done].
Qed.

Lemma word_tail_join name ending :
  name ≠ [] → Forall (λ c, is_word c = true) name →
  ending = [] ∨ ending = ["010"%char] →
  word_tail (name ++ ending) = true.
Proof.
  intros Hne Hname Hend. induction Hname as [|c name Hc Hname IH]; [done|].
  rewrite <- app_comm_cons, word_tail_cons.
  destruct name as [|x name].
  - destruct Hend as [-> | ->]; done.
  - assert (word_tail ((x :: name) ++ ending) = true) as Ht by (by apply IH).
    rewrite <- app_comm_cons in Ht |- *.
    destruct (name ++ ending) as [|y l] eqn:E.
    + apply app_eq_nil in E as [-> ->].
      apply Forall_cons in Hname as [Hx _].
      destruct (Ascii.eqb x "010") eqn:Ex.
      * done.
      * by rewrite Hc, Hx.
    + by rewrite Hc, Ht.
Qed.

Lemma id_matches_iff s :
  id_matches s = true ↔ WellFormed.identifier s.
Proof.
  unfold id_matches, WellFormed.identifier. split.
  - destruct (list_ascii_of_string s) as [|t l]; [done|].
    destruct t as [[] [] [] [] [] [] [] []]; try done.
    destruct l as [|f l]; [done|].
    destruct f as [[] [] [] [] [] [] [] []]; try done.
    destruct l as [|h l]; [done|].
    destruct h as [[] [] [] [] [] [] [] []]; try done.
    destruct l as [|c l1]; [done|].
    intros [Hc Hrest]%andb_true_iff.
    destruct (skip_run_split is_upper (c :: l1)) as (category & Hl1 & Hcat & _).
    destruct (skip_run is_upper (c :: l1)) as [|h l] eqn:E1; [done|].
    destruct h as [[] [] [] [] [] [] [] []]; try done.
    destruct l as [|d l2]; [done|].
    apply andb_true_iff in Hrest as [Hd Hrest].
    destruct (skip_run_split is_digit (d :: l2)) as (number & Hl2 & Hnum & _).
    destruct (skip_run is_digit (d :: l2)) as [|u l3] eqn:E2; [done|].
    destruct u as [[] [] [] [] [] [] [] []]; try done.
    destruct (word_tail_split l3 Hrest) as (name & ending & -> & Hne & Hname & Hend).
    exists category, number, name, ending.
    split. { cbn [app]. rewrite Hl1. by rewrite Hl2. }
    split. { intros ->. cbn in Hl1. injection Hl1 as -> _. done. }
    split; [done|].
    split. { intros ->. cbn in Hl2. injection Hl2 as -> _. done. }
    done.
  - intros (category & number & name & ending & -> & Hc & Hcat & Hn & Hnum &
            Hne & Hname & Hend).
    destruct category as [|c category]; [done|].
    destruct number as [|d number]; [done|].
    cbn [app].
    change (c :: category ++ "-"%char :: d :: number ++ "_"%char :: name ++ ending)
      with ((c :: category) ++ "-"%char :: (d :: number) ++ "_"%char :: name ++ ending).
    rewrite (skip_run_app is_upper (c :: category)) by done.
    cbn [app]. rewrite (app_comm_cons number _ d).
    rewrite (skip_run_app is_digit (d :: number)) by done.
    apply Forall_cons in Hcat as [-> _]. apply Forall_cons in Hnum as [-> _].
    cbn [andb]. by apply word_tail_join.
Qed.

(** X15. The identifier pattern of the validator. An identifier passes the
    format check exactly when it reads [TF-], a non-empty run of
    upper-case letters, a hyphen, a non-empty run of digits, an
    underscore and a non-empty run of letters, digits and underscores,
    possibly followed by one final line break (which [$] lets through). *)
Theorem id_pattern_characterised s :
  id_matches s = true ↔ WellFormed.identifier s.
Proof. split; apply id_matches_iff. Qed.

Lemma missing_nil {A} (field : option A) msg :
  missing field msg = [] ↔ is_Some field.
Proof.
  destruct field; cbn; split; done.
Qed.

Lemma check_metadata_nil md :
  check_metadata md = [] ↔ WellFormed.metadata md.
Proof.
  unfold check_metadata, WellFormed.metadata.
  rewrite !app_nil, !missing_nil.
  destruct (md_id md) as [i|].
  - destruct (id_matches i) eqn:E.
    + split.
      * intros (_ & ? & ? & ? & ? & ? & _). split; [by exists i|done].
      * intros (_ & ? & ? & ? & ? & ?). split; [by eexists|done].
    + split; [by intros (_ & _ & _ & _ & _ & _ & ?)|].
      intros [(i' & [= <-] & Hi) _]. congruence.
  - split; [by intros ([? ?] & _)|]. by intros [(i' & ? & _) _].
Qed.

Lemma check_requirements_nil rq :
  check_requirements rq = [] ↔ WellFormed.requirements rq.
Proof.
  unfold check_requirements, WellFormed.requirements. rewrite app_nil.
  destruct (req_cluster_type rq) as [ct|], (req_components rq) as [[|c cs]|];
    try (split; [by intros [? ?] | by intros [[? | ?] (? & ? & ?)]]).
  destruct (bool_decide (ct = "kind")) eqn:E1.
  { apply bool_decide_eq_true in E1 as ->. cbn. split; [|done].
    intros _. split; [by left|by eexists _, _]. }
  destruct (bool_decide (ct = "k3d-duo")) eqn:E2.
  { apply bool_decide_eq_true in E2 as ->. cbn. split; [|done].
    intros _. split; [by right|by eexists _, _]. }
  apply bool_decide_eq_false in E1, E2. cbn.
  split; [by intros [? _]|]. intros [[[= ->] | [= ->]] _]; done.
Qed.

Lemma filter_mentions_nil needle (l : list Step) :
  filter (λ s, step_mentions needle s = true) l ≠ [] ↔
  ∃ s, s ∈ l ∧ step_mentions needle s = true.
Proof.
  split.
  - intros Hne. destruct (filter _ l) as [|s l'] eqn:E; [done|].
    assert (s ∈ filter (λ s, step_mentions needle s = true) l) as Hin
      by (rewrite E; apply list_elem_of_here).
    apply list_elem_of_filter in Hin as [Hs Hin]. by exists s.
  - intros (s & Hin & Hs) Hnil.
    assert (s ∈ filter (λ s, step_mentions needle s = true) l) as Hf
      by (by apply list_elem_of_filter).
    rewrite Hnil in Hf. inversion Hf.
Qed.

Lemma check_steps_nil l : check_steps l = [] ↔ WellFormed.steps l.
Proof.
  unfold check_steps, WellFormed.steps, deploy_steps, verify_steps.
  rewrite <- !filter_mentions_nil, !app_nil.
  destruct (Nat.ltb_spec (length l) 3) as [Hlt|Hge].
  { split; [by intros [? _]|]. intros [? _]. lia. }
  destruct (filter (λ s, step_mentions "kubectl apply" s = true) l);
    [split; [by intros (_ & ? & _) | by intros (_ & ? & _)]|].
  destruct (filter (λ s, step_mentions "verify" s = true) l);
    [split; [by intros (_ & _ & ?) | by intros (_ & _ & ?)]|].
  done.
Qed.

Lemma check_each_criterion_nil i cs :
  check_each_criterion i cs = [] ↔ Forall WellFormed.criterion cs.
Proof.
  revert i. induction cs as [|c cs IH]; intros i.
  - done.
  - cbn [check_each_criterion]. rewrite app_nil, IH, Forall_cons.
    unfold check_criterion, WellFormed.criterion.
    rewrite !app_nil, !missing_nil. tauto.
Qed.

Lemma check_criteria_nil cs :
  check_criteria cs = [] ↔ WellFormed.criteria cs.
Proof.
  unfold check_criteria, WellFormed.criteria.
  rewrite app_nil, check_each_criterion_nil.
  destruct cs; [split; [by intros [? _] | by intros [? _]]|].
  split; intros [_ ?]; by split.
Qed.

Lemma definition_errors_nil sc :
  definition_errors sc = [] ↔ WellFormed.definition sc.
Proof.
  unfold definition_errors, check_sections, WellFormed.definition.
  rewrite !app_nil, !missing_nil. split.
  - intros (([md Hmd] & [rq Hrq] & [l Hl] & [cs Hcs]) & H1 & H2 & H3 & H4).
    rewrite Hmd, Hrq, Hl, Hcs in *. cbn [on_section] in *.
    exists md, rq, l, cs.
    rewrite <- check_metadata_nil, <- check_requirements_nil,
            <- check_steps_nil, <- check_criteria_nil. done.
  - intros (md & rq & l & cs & -> & -> & -> & -> & H1 & H2 & H3 & H4).
    cbn [on_section].
    rewrite check_metadata_nil, check_requirements_nil, check_steps_nil,
            check_criteria_nil. done.
Qed.

(** X16. What the definition check accepts. The check returns true exactly
    when no error was recorded before it, the definition could be read,
    and the definition has the four sections as the validator wants
    them: complete metadata with a well-formed identifier; a cluster type
    [kind] or [k3d-duo] and at least one component; at least three steps,
    one with a command containing [kubectl apply] and one with a command
    containing [verify]; at least one success criterion, each with a
    name, a threshold and a metric. The list of errors is then empty. *)
Theorem definition_check_accepts loaded errors :
  snd (validate_scenario_definition loaded errors) = true ↔
  errors = [] ∧ ∃ sc, loaded = inr sc ∧ WellFormed.definition sc.
Proof.
  unfold validate_scenario_definition. destruct loaded as [msg|sc]; cbn [snd].
  - split; [done|]. by intros (_ & sc & ? & _).
  - rewrite bool_decide_eq_true, length_zero_iff_nil, app_nil,
            definition_errors_nil.
    split.
    + intros [-> Hsc]. split; [done|]. by exists sc.
    + intros (-> & sc' & [= <-] & Hsc). done.
Qed.

(** X17. Errors accumulate. The definition check keeps the errors recorded
    before it and adds its own after them; its answer is about the whole
    list, so that it is false whenever an earlier check recorded an
    error, however good the definition. A definition that cannot be
    read adds exactly one error. *)
Theorem definition_check_accumulates loaded errors :
  let out := validate_scenario_definition loaded errors in
  (∃ added, fst out = errors ++ added ∧
            (∀ msg, loaded = inl msg → length added = 1%nat)) ∧
  (snd out = true → fst out = []) ∧
  (errors ≠ [] → snd out = false).
Proof.
  unfold validate_scenario_definition. destruct loaded as [msg|sc]; cbn.
  - split; [|done]. eexists. split; [done|]. done.
  - split.
    { eexists. split; [done|]. done. }
    split.
    + intros Hl%bool_decide_eq_true. by apply length_zero_iff_nil.
    + intros Hne. apply bool_decide_eq_false. rewrite length_app.
      destruct errors; [done|]. cbn. lia.
Qed.

End ValidatorProperties.

Lemma id_pattern_characterised_witness :
  WellFormed.identifier "TF-SEC-1_SBOM_Validation" ∧
  ¬ WellFormed.identifier "TF-SLO-VOL_DataVolumeReduction_SteadyWorkload".
Proof.
  split.
  - apply (proj1 (id_pattern_characterised "TF-SEC-1_SBOM_Validation")).
    vm_compute. reflexivity.
  - intros Hid.
    apply (proj2 (id_pattern_characterised
                    "TF-SLO-VOL_DataVolumeReduction_SteadyWorkload")) in Hid.
    vm_compute in Hid. discriminate Hid.
Defined.

Lemma definition_check_accepts_witness :
  WellFormed.definition (Sim.demo None) ∧
  ¬ WellFormed.definition Sim.no_apply.
Proof.
  split.
  - destruct (proj1 (definition_check_accepts (inr (Sim.demo None)) []))
      as (_ & sc & Heq & Hsc); [vm_compute; reflexivity|].
    by injection Heq as <-.
  - intros Hsc.
    assert (snd (Validator.validate_scenario_definition (inr Sim.no_apply) [])
            = true) as Hv.
    { apply definition_check_accepts. split; [done|]. by exists Sim.no_apply. }
    vm_compute in Hv. discriminate Hv.
Defined.

(** ** The whole validator *)

Section TestValidatorProperties.

Import TestValidator.

Context {P : Type} `{Files P}.

Variable scenario_path : P.
Variable verbose : bool.

Lemma grows_refl r : grows [] r r.
Proof. unfold grows. by rewrite app_nil_r. Qed.

Lemma grows_trans a b r1 r2 r3 :
  grows a r1 r2 → grows b r2 r3 → grows (a ++ b) r1 r3.
Proof.
  intros (He1 & Hw1 & Hp1) (He2 & Hw2 & Hp2). unfold grows.
  rewrite He2, He1, app_assoc. split; [done|].
  split; etrans; done.
Qed.

Lemma grows_error msg r : grows [msg] r (add_error msg r).
Proof. by unfold grows. Qed.

Lemma grows_warning msg r : grows [] r (add_warning msg r).
Proof.
  unfold grows. cbn. rewrite app_nil_r. split; [done|].
  split; [by apply prefix_app_r|done].
Qed.

Lemma grows_log msg r : grows [] r (log verbose msg r).
Proof.
  unfold log. destruct verbose; [|apply grows_refl].
  unfold grows. cbn. rewrite app_nil_r. split; [done|].
  split; [done|by apply prefix_app_r].
Qed.

Lemma grows_nil a r1 r2 r3 :
  grows [] r1 r2 → grows a r2 r3 → grows a r1 r3.
Proof. intros H1 H2. by apply (grows_trans [] a r1 r2 r3). Qed.

Lemma grows_nil_r a r1 r2 r3 :
  grows a r1 r2 → grows [] r2 r3 → grows a r1 r3.
Proof.
  intros H1 H2. rewrite <- (app_nil_r a). by apply (grows_trans a [] r1 r2 r3).
Qed.

Lemma no_errors_true r : no_errors r = true ↔ errors r = [].
Proof.
  unfold no_errors. rewrite bool_decide_eq_true. apply length_zero_iff_nil.
Qed.

Lemma grows_errors_nil added r r' :
  grows added r r' → errors r' = [] → errors r = [] ∧ added = [].
Proof. intros (He & _) Hnil. rewrite He in Hnil. by apply app_nil in Hnil. Qed.

Lemma check_required_spec file_names r :
  match check_required scenario_path file_names r with
  | Some r' =>
      (∃ msg, grows [msg] r r') ∧
      ¬ (∀ file_name, file_name ∈ file_names →
                      fs_exists (fs_child scenario_path file_name) = true)
  | None =>
      ∀ file_name, file_name ∈ file_names →
                   fs_exists (fs_child scenario_path file_name) = true
  end.
Proof.
  induction file_names as [|f rest IH]; cbn [check_required].
  - intros f Hf. inversion Hf.
  - destruct (fs_exists (fs_child scenario_path f)) eqn:E; cbn [negb].
    + destruct (check_required scenario_path rest r) as [r'|].
      * destruct IH as [Hg Hnot]. split; [done|]. intros Hall. apply Hnot.
        intros f' Hf'. apply Hall. by apply list_elem_of_further.
      * intros f' [-> | Hf']%elem_of_cons; [done|]. by apply IH.
    + split; [eexists; apply grows_error|].
      intros Hall. specialize (Hall f (list_elem_of_here _ _)). congruence.
Qed.

Lemma check_directory_structure_spec r :
  ∃ r' ok added,
    check_directory_structure scenario_path verbose r = (r', ok) ∧
    grows added r r' ∧
    (added = [] ↔ directory_ok scenario_path) ∧
    (errors r' = [] → ok = true).
Proof.
  unfold check_directory_structure, directory_ok.
  set (r0 := log verbose _ r).
  assert (grows [] r r0) as H0 by apply grows_log.
  destruct (fs_exists scenario_path) eqn:E; cbn [negb].
  2:{ eexists _, _, _. split; [reflexivity|].
      split; [eapply grows_nil; [exact H0|apply grows_error]|].
      split; [by split; [|intros [? _]]|].
      intros Hnil. cbn in Hnil. by apply app_nil in Hnil as [_ ?]. }
  pose proof (check_required_spec required_files r0) as Hreq.
  destruct (check_required scenario_path required_files r0) as [r1|].
  - destruct Hreq as [[msg Hg] Hnot].
    eexists _, _, _. split; [reflexivity|].
    split; [eapply grows_nil; [exact H0|exact Hg]|].
    split; [by split; [|intros [_ ?]]|].
    intros Hnil. destruct Hg as (He & _). rewrite He in Hnil.
    by apply app_nil in Hnil as [_ ?].
  - match goal with
    | |- ∃ r' ok added, (?r2, no_errors _) = _ ∧ _ =>
        assert (grows [] r0 r2) as H2
    end.
    { destruct (fs_exists (fs_child scenario_path "k8s")); cbn [negb];
        [|apply grows_warning].
      destruct (resource_files _); [apply grows_warning|apply grows_refl]. }
    eexists _, _, []. split; [reflexivity|].
    split; [eapply grows_nil; [exact H0|exact H2]|].
    split; [by split|]. intros Hnil. by apply no_errors_true.
Qed.

Lemma validate_scenario_definition_spec r :
  ∃ r' ok added,
    TestValidator.validate_scenario_definition scenario_path verbose r =
      (r', ok) ∧
    grows added r r' ∧
    (added = [] ↔ definition_ok scenario_path) ∧
    (errors r' = [] → ok = true).
Proof.
  unfold TestValidator.validate_scenario_definition, definition_ok.
  set (r0 := log verbose _ r).
  assert (grows [] r r0) as H0 by apply grows_log.
  destruct (fs_load_definition _) as [sc|msg|msg];
    cbn [Validator.validate_scenario_definition].
  - exists (set_errors (errors r0 ++ Validator.definition_errors sc) r0),
           (bool_decide (length (errors r0 ++ Validator.definition_errors sc)
                         = 0%nat)),
           (Validator.definition_errors sc).
    split; [reflexivity|]. split.
    { eapply grows_nil; [exact H0|]. by unfold grows. }
    split.
    + rewrite definition_errors_nil. split; [by exists sc|].
      by intros (sc' & [= <-] & ?).
    + cbn [errors set_errors]. intros Hnil. apply bool_decide_eq_true.
      by rewrite Hnil.
  - eexists _, _, [_]. split; [reflexivity|]. split.
    { eapply grows_nil; [exact H0|]. by unfold grows. }
    split; [by split; [|intros (? & ? & _)]|].
    cbn. intros Hnil. by apply app_nil in Hnil as [_ ?].
  - eexists _, _, [_]. split; [reflexivity|]. split.
    { eapply grows_nil; [exact H0|]. apply grows_error. }
    split; [by split; [|intros (? & ? & _)]|].
    cbn. intros Hnil. by apply app_nil in Hnil as [_ ?].
Qed.

Lemma check_patterns_grows l content r :
  grows [] r (check_patterns l content r).
Proof.
  revert r. induction l as [|[pattern description] l IH]; intros r;
    cbn [check_patterns]; [apply grows_refl|].
  eapply grows_nil; [|apply IH].
  destruct (fs_search pattern content); cbn [negb];
    [apply grows_refl|apply grows_warning].
Qed.

Lemma check_verification_script_spec r :
  ∃ r', check_verification_script scenario_path verbose r = (r', true) ∧
        grows [] r r'.
Proof.
  unfold check_verification_script.
  destruct (fs_glob scenario_path "verify*.py") as [|script rest].
  { eexists. split; [reflexivity|]. apply grows_warning. }
  set (r0 := log verbose _ r).
  assert (grows [] r r0) as H0 by apply grows_log.
  match goal with
  | |- context [fs_read script] =>
      match goal with
      | |- context [check_patterns _ _ ?r1] => assert (grows [] r0 r1) as H1
      end
  end.
  { destruct (fs_executable script); cbn [negb];
      [apply grows_refl|apply grows_warning]. }
  destruct (fs_read script) as [e|content].
  - eexists. split; [reflexivity|].
    eapply grows_nil; [exact H0|]. eapply grows_nil; [exact H1|].
    apply grows_warning.
  - eexists. split; [reflexivity|].
    eapply grows_nil; [exact H0|]. eapply grows_nil; [exact H1|].
    apply check_patterns_grows.
Qed.

Lemma check_documents_grows yaml_file i docs r :
  grows [] r (check_documents yaml_file i docs r).
Proof.
  revert i r. induction docs as [|doc docs IH]; intros i r;
    cbn [check_documents]; [apply grows_refl|].
  eapply grows_nil; [|apply IH].
  unfold check_document. destruct doc as [doc|]; [|apply grows_warning].
  eapply (grows_nil _ _ (match rs_kind doc with
                         | Some _ => r
                         | None => add_warning _ r
                         end)).
  - destruct (rs_kind doc); [apply grows_refl|apply grows_warning].
  - destruct (rs_metadata doc) as [metadata|]; [|apply grows_warning].
    destruct (rm_name metadata); [apply grows_refl|apply grows_warning].
Qed.

Lemma check_resource_file_spec yaml_file r :
  ∃ added,
    grows added r (check_resource_file yaml_file r) ∧
    (added = [] ↔ ∀ msg, fs_load_all yaml_file ≠ DocumentsYamlError msg).
Proof.
  unfold check_resource_file.
  destruct (fs_load_all yaml_file) as [[|doc docs]|msg|msg].
  - exists []. split; [apply grows_warning|done].
  - exists []. split; [apply check_documents_grows|done].
  - eexists [_]. split; [apply grows_error|].
    split; [done|]. intros Hno. by destruct (Hno msg).
  - exists []. split; [apply grows_warning|done].
Qed.

Lemma check_resource_files_spec yaml_files r :
  ∃ added,
    grows added r
      (foldl (λ r yaml_file, check_resource_file yaml_file r) r yaml_files) ∧
    (added = [] ↔
     ∀ yaml_file msg, yaml_file ∈ yaml_files →
                      fs_load_all yaml_file ≠ DocumentsYamlError msg).
Proof.
  revert r. induction yaml_files as [|f rest IH]; intros r; cbn [foldl].
  - exists []. split; [apply grows_refl|]. split; [|done].
    intros _ f msg Hf. inversion Hf.
  - destruct (check_resource_file_spec f r) as (a1 & Hg1 & Ha1).
    destruct (IH (check_resource_file f r)) as (a2 & Hg2 & Ha2).
    exists (a1 ++ a2). split; [by eapply grows_trans|].
    rewrite app_nil, Ha1, Ha2. split.
    + intros [H1 H2] f' msg [-> | Hf']%elem_of_cons; [apply H1|by apply H2].
    + intros Hall. split.
      * intros msg. apply Hall, list_elem_of_here.
      * intros f' msg Hf'. by apply Hall, list_elem_of_further.
Qed.

Lemma check_k8s_resources_spec r :
  ∃ r' ok added,
    check_k8s_resources scenario_path verbose r = (r', ok) ∧
    grows added r r' ∧
    (added = [] ↔ resources_ok scenario_path) ∧
    (errors r' = [] → ok = true).
Proof.
  unfold check_k8s_resources, resources_ok.
  destruct (fs_exists (fs_child scenario_path "k8s")); cbn [negb].
  2:{ exists r, true, []. split; [done|]. split; [apply grows_refl|]. done. }
  destruct (resource_files (fs_child scenario_path "k8s")) as [|f rest] eqn:E.
  { exists r, true, []. split; [done|]. split; [apply grows_refl|].
    split; [|done]. split; [|done]. intros _ _ f0 msg Hf. inversion Hf. }
  set (r0 := log verbose _ r).
  assert (grows [] r r0) as H0 by apply grows_log.
  destruct (check_resource_files_spec (f :: rest) r0) as (added & Hg & Ha).
  eexists _, _, added. split; [reflexivity|].
  split; [eapply grows_nil; [exact H0|exact Hg]|].
  split.
  - rewrite Ha. split; [by intros Hall _|]. intros Hall. by apply Hall.
  - intros Hnil. by apply no_errors_true.
Qed.

Lemma check_python_file_spec py_file r :
  ∃ added,
    grows added r (check_python_file py_file r) ∧
    (added = [] ↔
     ∀ returncode stdout stderr,
       fs_py_compile py_file = Exited returncode stdout stderr →
       returncode = 0).
Proof.
  unfold check_python_file.
  destruct (fs_py_compile py_file) as [code out err|msg].
  - destruct (Z.eqb_spec code 0) as [->|Hne]; cbn [negb].
    + exists []. split; [apply grows_refl|]. split; [|done].
      by intros _ code out' err' [= <- _ _].
    + eexists [_]. split; [apply grows_error|]. split; [done|].
      intros Hall. destruct Hne. by eapply Hall.
  - exists []. split; [apply grows_warning|done].
Qed.

Lemma check_python_files_spec py_files r :
  ∃ added,
    grows added r
      (foldl (λ r py_file, check_python_file py_file r) r py_files) ∧
    (added = [] ↔
     ∀ py_file returncode stdout stderr,
       py_file ∈ py_files →
       fs_py_compile py_file = Exited returncode stdout stderr →
       returncode = 0).
Proof.
  revert r. induction py_files as [|f rest IH]; intros r; cbn [foldl].
  - exists []. split; [apply grows_refl|]. split; [|done].
    intros _ f code out err Hf. inversion Hf.
  - destruct (check_python_file_spec f r) as (a1 & Hg1 & Ha1).
    destruct (IH (check_python_file f r)) as (a2 & Hg2 & Ha2).
    exists (a1 ++ a2). split; [by eapply grows_trans|].
    rewrite app_nil, Ha1, Ha2. split.
    + intros [H1 H2] f' code out err [-> | Hf']%elem_of_cons;
        [apply H1|by apply H2].
    + intros Hall. split.
      * intros code out err. apply Hall, list_elem_of_here.
      * intros f' code out err Hf'. by apply Hall, list_elem_of_further.
Qed.

Lemma lint_yaml_files_grows yaml_files r :
  grows [] r (foldl (λ r yaml_file, lint_yaml_file yaml_file r) r yaml_files).
Proof.
  revert r. induction yaml_files as [|f rest IH]; intros r; cbn [foldl];
    [apply grows_refl|].
  eapply grows_nil; [|apply IH]. unfold lint_yaml_file.
  destruct (fs_yamllint f) as [code out err|msg]; [|apply grows_warning].
  destruct (negb (code =? 0)); [apply grows_warning|apply grows_refl].
Qed.

Lemma check_syntax_spec r :
  ∃ r' added,
    check_syntax scenario_path verbose r = (r', no_errors r') ∧
    grows added r r' ∧
    (added = [] ↔ python_ok scenario_path).
Proof.
  unfold check_syntax, python_ok.
  set (r0 := log verbose _ r).
  assert (grows [] r r0) as H0 by apply grows_log.
  destruct (check_python_files_spec (fs_glob scenario_path "*.py") r0)
    as (added & Hg & Ha).
  set (r1 := foldl _ r0 _) in *.
  match goal with
  | |- ∃ r' added0, (?r2, _) = _ ∧ _ => assert (grows [] r1 r2) as H2
  end.
  { destruct fs_which_yamllint as [code out err|msg]; [|apply grows_log].
    destruct (code =? 0); [apply lint_yaml_files_grows|apply grows_refl]. }
  eexists _, added. split; [reflexivity|].
  split; [|exact Ha].
  eapply grows_nil; [exact H0|]. eapply grows_nil_r; [exact Hg|exact H2].
Qed.

(** What the five checks did, one after the other. *)
Lemma validate_spec r :
  ∃ r' ok a1 a2 a4 a5,
    validate scenario_path verbose r = (r', ok) ∧
    grows (a1 ++ a2 ++ a4 ++ a5) r r' ∧
    (a1 = [] ↔ directory_ok scenario_path) ∧
    (a2 = [] ↔ definition_ok scenario_path) ∧
    (a4 = [] ↔ resources_ok scenario_path) ∧
    (a5 = [] ↔ python_ok scenario_path) ∧
    ok = no_errors r'.
Proof.
  unfold validate, checks. cbn [run_checks].
  set (r0 := log verbose _ r).
  assert (grows [] r r0) as H0 by apply grows_log.
  destruct (check_directory_structure_spec r0)
    as (r1 & ok1 & a1 & -> & Hg1 & Ha1 & Hok1).
  destruct (validate_scenario_definition_spec r1)
    as (r2 & ok2 & a2 & -> & Hg2 & Ha2 & Hok2).
  destruct (check_verification_script_spec r2) as (r3 & -> & Hg3).
  destruct (check_k8s_resources_spec r3)
    as (r4 & ok4 & a4 & -> & Hg4 & Ha4 & Hok4).
  destruct (check_syntax_spec r4) as (r5 & a5 & -> & Hg5 & Ha5).
  exists r5, (if negb (no_errors r5) then false
              else if negb ok4 then false
              else if negb true then false
              else if negb ok2 then false
              else if negb ok1 then false else true), a1, a2, a4, a5.
  split; [reflexivity|].
  assert (grows (a1 ++ a2 ++ a4 ++ a5) r r5) as Hg.
  { eapply grows_nil; [exact H0|]. eapply grows_trans; [exact Hg1|].
    eapply grows_trans; [exact Hg2|]. eapply grows_nil; [exact Hg3|].
    eapply grows_trans; [exact Hg4|exact Hg5]. }
  split; [exact Hg|]. do 4 (split; [done|]).
  destruct (no_errors r5) eqn:E5; cbn [negb]; [|done].
  apply no_errors_true in E5.
  destruct (grows_errors_nil _ _ _ Hg5 E5) as [E4 _].
  destruct (grows_errors_nil _ _ _ Hg4 E4) as [E3 _].
  destruct (grows_errors_nil _ _ _ Hg3 E3) as [E2 _].
  destruct (grows_errors_nil _ _ _ Hg2 E2) as [E1 _].
  by rewrite (Hok4 E4), (Hok2 E2), (Hok1 E1).
Qed.

Lemma print_results_spec r :
  snd (print_results scenario_path r) = no_errors r ∧
  errors (fst (print_results scenario_path r)) = errors r ∧
  warnings (fst (print_results scenario_path r)) = warnings r.
Proof.
  unfold print_results, no_errors.
  destruct (errors r) as [|e l] eqn:Ee, (warnings r) as [|w l'] eqn:Ew;
    cbn [fst snd errors warnings print_line]; by rewrite ?Ee, ?Ew.
Qed.

(** X18. The verdict of the validator. [validate] returns true exactly
    when no error is recorded at the end of the five checks; this is
    also what [print_results] returns, and the script exits with status
    0 exactly then. Warnings never change the verdict. Every check keeps
    what was recorded before it: the errors and warnings on entry are a
    prefix of those on exit. *)
Theorem validator_verdict_is_no_errors r :
  let out := validate scenario_path verbose r in
  snd out = bool_decide (errors (fst out) = []) ∧
  snd (print_results scenario_path (fst out)) = snd out ∧
  errors r `prefix_of` errors (fst out) ∧
  warnings r `prefix_of` warnings (fst out) ∧
  (snd (script scenario_path verbose) = 0 ↔
   errors (fst (script scenario_path verbose)) = []).
Proof.
  cbv zeta.
  destruct (validate_spec r)
    as (r' & ok & a1 & a2 & a4 & a5 & -> & Hg & _ & _ & _ & _ & ->).
  cbn [fst snd].
  destruct (print_results_spec r') as (Hp & _).
  split.
  { unfold no_errors. apply bool_decide_ext. apply length_zero_iff_nil. }
  split; [done|].
  destruct Hg as (He & Hw & _).
  split; [rewrite He; by apply prefix_app_r|]. split; [done|].
  unfold script.
  destruct (validate_spec fresh)
    as (r1 & ok1 & b1 & b2 & b4 & b5 & -> & _ & _ & _ & _ & _ & ->).
  destruct (print_results_spec r1) as (_ & Hpe & _).
  destruct (print_results scenario_path r1) as [r2 b]. cbn [fst snd] in *.
  rewrite Hpe. destruct (no_errors r1) eqn:E.
  - by apply no_errors_true in E.
  - split; [done|]. intros Hnil. apply no_errors_true in Hnil. congruence.
Qed.

(** X19. What the validator accepts. Started on a fresh validator,
    [validate] returns true exactly when the scenario directory and the
    definition file exist, the definition is read and is well formed, no
    resource file of the [k8s] directory has a YAML error, and no Python
    file of the directory is refused by [py_compile]. A missing [k8s]
    directory, a missing or odd verification script, incomplete resource
    documents and lint findings only give warnings. *)
Theorem validator_accepts :
  snd (validate scenario_path verbose fresh) = true ↔
  directory_ok scenario_path ∧ definition_ok scenario_path ∧
  resources_ok scenario_path ∧ python_ok scenario_path.
Proof.
  destruct (validate_spec fresh)
    as (r' & ok & a1 & a2 & a4 & a5 & -> & Hg & H1 & H2 & H4 & H5 & ->).
  cbn [fst snd]. rewrite no_errors_true.
  destruct Hg as (He & _). rewrite He. cbn [errors fresh app].
  rewrite !app_nil, H1, H2, H4, H5. done.
Qed.

End TestValidatorProperties.

Lemma validator_accepts_witness :
  let good := {| SimDir.syntax_error := false; SimDir.bad_resource := false |} in
  let bad := {| SimDir.syntax_error := true; SimDir.bad_resource := false |} in
  (@TestValidator.directory_ok _ (SimDir.files good) "dir" ∧
   @TestValidator.definition_ok _ (SimDir.files good) "dir" ∧
   @TestValidator.resources_ok _ (SimDir.files good) "dir" ∧
   @TestValidator.python_ok _ (SimDir.files good) "dir") ∧
  ¬ @TestValidator.python_ok _ (SimDir.files bad) "dir".
Proof.
  intros good bad. split.
  - apply (@validator_accepts _ (SimDir.files good) "dir" false).
    vm_compute. reflexivity.
  - intros Hpy.
    specialize (Hpy "dir/verify_demo.py" 1 "" "SyntaxError: invalid syntax").
    assert (1 = 0) as Hfalse; [|discriminate Hfalse].
    apply Hpy; vm_compute; [|reflexivity].
    apply list_elem_of_here.
Defined.

(** ** Identifiers the validator accepts, as namespaces *)

Section AcceptedIdentifiers.

Import Validator.

Lemma namespace_char_of_upper c :
  is_upper c = true → is_lower (Str.lower_ascii c) = true.
Proof. destruct c as [[] [] [] [] [] [] [] []]; vm_compute; congruence. Qed.

Lemma namespace_char_of_word c :
  is_word c = true →
  let c' := Str.lower_ascii c in
  is_lower (if Ascii.eqb "_" c' then "-"%char else c') ||
  is_digit (if Ascii.eqb "_" c' then "-"%char else c') ||
  Ascii.eqb (if Ascii.eqb "_" c' then "-"%char else c') "-" = true.
Proof. destruct c as [[] [] [] [] [] [] [] []]; vm_compute; congruence. Qed.

(** X20. An identifier the validator accepts gives a namespace made of
    lower-case letters, digits and hyphens only, the characters of a
    Kubernetes name, provided it has no final line break (which the
    pattern lets through). *)
Theorem accepted_identifier_namespace s :
  id_matches s = true →
  "010"%char ∉ list_ascii_of_string s →
  ∀ c, c ∈ list_ascii_of_string (namespace_of s) →
       is_lower c || is_digit c || Ascii.eqb c "-" = true.
Proof.
  intros Hid Hnl c.
  apply id_matches_iff in Hid
    as (category & number & name & ending & Hs & _ & Hcat & _ & Hnum & _ &
        Hname & Hend).
  assert (ending = []) as ->.
  { destruct Hend as [-> | ->]; [done|]. destruct Hnl. rewrite Hs.
    apply elem_of_app; right. apply elem_of_app; right.
    apply list_elem_of_further. apply elem_of_app; right.
    apply list_elem_of_further. apply elem_of_app; right.
    apply list_elem_of_here. }
  assert (∀ c0, c0 ∈ list_ascii_of_string s → is_word c0 = true ∨ c0 = "-"%char)
    as Hchars.
  { intros c0. rewrite Hs, app_nil_r.
    rewrite !elem_of_app, !elem_of_cons, !elem_of_app, !elem_of_cons.
    rewrite Forall_forall in Hcat, Hnum, Hname.
    intros [[-> | [-> | [-> | Hin]]] | [Hin | [-> | [Hin | [-> | Hin]]]]];
      try (by left); try (by right); try (by inversion Hin).
    - left. unfold is_word. by rewrite (Hcat _ Hin).
    - left. unfold is_word. rewrite (Hnum _ Hin). by rewrite !orb_true_r.
    - left. by apply Hname. }
  unfold namespace_of.
  rewrite list_of_string_app, replace_underscore_chars, lower_chars.
  rewrite elem_of_app. intros [Hc | Hc].
  - cbn in Hc. set_unfold.
    by destruct Hc as [-> | [-> | [-> | [-> | [-> | [-> | [-> | []]]]]]]].
  - apply list_elem_of_fmap in Hc as (c1 & -> & Hc).
    apply list_elem_of_fmap in Hc as (c0 & -> & Hc).
    destruct (Hchars c0 Hc) as [Hw | ->]; [|done].
    by apply namespace_char_of_word.
Qed.

End AcceptedIdentifiers.

Lemma accepted_identifier_namespace_witness :
  Forall (λ c, Validator.is_lower c || Validator.is_digit c ||
               Ascii.eqb c "-" = true)
         (list_ascii_of_string (namespace_of "TF-SEC-1_SBOM_Validation")).
Proof.
  apply Forall_forall.
  apply (accepted_identifier_namespace "TF-SEC-1_SBOM_Validation").
  - vm_compute. reflexivity.
  - apply (bool_decide_unpack _). vm_compute. exact I.
Defined.

(** ** The verification script of the command-line hashing scenario *)

Section HashingProperties.

Import Hashing.

Context {F : Type} `{FloatArith F}.

Lemma take_hex_shape n s h rest :
  take_hex n s = Some (h, rest) →
  String.length h = n ∧
  Forall (λ c, is_hex c = true) (list_ascii_of_string h).
Proof.
  revert s h rest. induction n as [|n IH]; intros s h rest; cbn [take_hex].
  - intros [= <- <-]. by split.
  - destruct s as [|c s]; [done|]. destruct (is_hex c) eqn:E; [|done].
    destruct (take_hex n s) as [[h' rest']|] eqn:Et; [|done].
    intros [= <- <-]. destruct (IH _ _ _ Et) as [Hl Hh].
    cbn. split; [by rewrite Hl|by constructor].
Qed.

Lemma match_hash_shape s group :
  match_hash s = Some group →
  String.length group = 64%nat ∧
  Forall (λ c, is_hex c = true) (list_ascii_of_string group).
Proof.
  unfold match_hash.
  destruct (strip_prefix "process" s) as [[|c rest]|]; try done.
  destruct (Ascii.eqb c "." || Ascii.eqb c "_"); [|done].
  destruct (strip_prefix _ rest) as [rest'|]; [|done].
  destruct (take_hex 64 rest') as [[g [|q tail]]|] eqn:E; try done.
  destruct (Ascii.eqb q "034"); [|done].
  intros [= <-]. by eapply take_hex_shape.
Qed.

Lemma findall_shape skip s group :
  group ∈ findall skip s →
  String.length group = 64%nat ∧
  Forall (λ c, is_hex c = true) (list_ascii_of_string group).
Proof.
  revert skip. induction s as [|c s IH]; intros skip; cbn [findall].
  - intros Hin. inversion Hin.
  - destruct skip as [|k]; [|apply IH].
    destruct (match_hash (String c s)) as [g|] eqn:E; [|apply IH].
    intros [-> | Hin]%elem_of_cons; [by eapply match_hash_shape|].
    by eapply IH.
Qed.

Lemma findall_length skip s :
  (length (findall skip s) ≤ String.length s)%nat.
Proof.
  revert skip. induction s as [|c s IH]; intros skip; cbn [findall]; [done|].
  cbn [String.length]. destruct skip as [|k].
  - destruct (match_hash (String c s)); cbn [length].
    + specialize (IH (Nat.pred match_length)). lia.
    + specialize (IH 0%nat). lia.
  - specialize (IH k). lia.
Qed.

Lemma count_true_from acc l :
  foldl (λ a (b : bool), a + (if b then 1 else 0)) acc l = acc + count_true l.
Proof.
  unfold count_true. revert acc. induction l as [|b l IH]; intros acc.
  - cbn. lia.
  - cbn [foldl]. rewrite IH, (IH (0 + _)). lia.
Qed.

Lemma count_true_cons b l :
  count_true (b :: l) = (if b then 1 else 0) + count_true l.
Proof. unfold count_true at 1. cbn [foldl]. by rewrite count_true_from. Qed.

Lemma count_true_bounds l :
  0 <= count_true l ∧ count_true l <= Z.of_nat (length l) ∧
  (count_true l = Z.of_nat (length l) ↔ Forall (λ b, b = true) l).
Proof.
  induction l as [|b l (H0 & H1 & H2)].
  - cbn. split; [done|]. split; [done|]. by split.
  - rewrite count_true_cons. cbn [length]. rewrite Forall_cons.
    destruct b.
    + split; [lia|]. split; [lia|]. rewrite <- H2. lia.
    + split; [lia|]. split; [lia|]. split; [lia|]. by intros [? _].
Qed.

Lemma filter_contains_nil (content : string) patterns :
  filter (λ pattern, Str.contains pattern content = true) patterns = [] ↔
  ∀ pattern, pattern ∈ patterns → Str.contains pattern content = false.
Proof.
  induction patterns as [|p l IH].
  - split; [|done]. intros _ p Hp. inversion Hp.
  - rewrite filter_cons.
    destruct (decide (Str.contains p content = true)) as [Hp|Hp].
    + split; [done|]. intros Hall.
      specialize (Hall p (list_elem_of_here _ _)). congruence.
    + rewrite IH. apply not_true_is_false in Hp. split.
      * intros Hall p' [-> | Hp']%elem_of_cons; [done|]. by apply Hall.
      * intros Hall p' Hp'. by apply Hall, list_elem_of_further.
Qed.

Lemma check_hashed_command_lines_verdict metrics_content :
  exact_percentage →
  Z.of_nat (String.length metrics_content) < 2 ^ 53 →
  let code := snd (check_hashed_command_lines metrics_content) in
  (code = 0 ∨ code = 1) ∧
  (code = 0 ↔
   findall 0 metrics_content ≠ [] ∧
   (∀ pattern, pattern ∈ sensitive_patterns →
               Str.contains pattern metrics_content = false) ∧
   (∀ h, h ∈ findall 0 metrics_content → h = expected_hash)).
Proof.
  intros Hexact Hsize.
  pose proof (findall_length 0 metrics_content) as Hcount.
  unfold check_hashed_command_lines. cbv zeta.
  cbn [hashing_success_percentage original_command_found_count
       hash_consistency_percentage].
  match goal with
  | |- context [if ?c then _ else _] => set (cond := c)
  end.
  assert (cond = true ↔
          findall 0 metrics_content ≠ [] ∧
          (∀ pattern, pattern ∈ sensitive_patterns →
                      Str.contains pattern metrics_content = false) ∧
          (∀ h, h ∈ findall 0 metrics_content → h = expected_hash)) as Hcond.
  { subst cond. rewrite !andb_true_iff, <- filter_contains_nil.
    rewrite Nat.eqb_eq, length_zero_iff_nil.
    destruct (findall 0 metrics_content) as [|h0 l] eqn:E.
    { cbn. split; [by intros [[? _] _] | by intros [? _]]. }
    assert (Z.of_nat (length (h0 :: l)) < 2 ^ 53) as Hbound by lia.
    cbn [number_eq].
    set (matches := (λ h, bool_decide (h = expected_hash)) <$> h0 :: l).
    destruct (count_true_bounds matches) as (H0 & H1 & H2).
    assert (length matches = length (h0 :: l)) as Hlen
      by (subst matches; by rewrite length_fmap).
    rewrite Hlen in H1, H2.
    rewrite (Hexact (count_true matches) (Z.of_nat (length (h0 :: l))));
      [|lia|lia|cbn [length]; lia|exact Hbound].
    rewrite H2. subst matches. rewrite Forall_fmap, Forall_forall.
    split.
    - intros [[_ Hleak] Hall]. split; [done|]. split; [done|].
      intros h Hh. specialize (Hall h Hh). cbn in Hall.
      by apply bool_decide_eq_true in Hall.
    - intros (_ & Hleak & Hall). split; [done|].
      intros h Hh. cbn. apply bool_decide_eq_true. by apply Hall. }
  destruct cond; cbn [snd].
  - split; [by left|]. split; [intros _; by apply Hcond|done].
  - split; [by right|]. split; [done|].
    intros Hc. apply Hcond in Hc. discriminate Hc.
Qed.

(** X21. The verdict of the hashing check. With arithmetic in which a
    share of fewer than [2 ^ 53] items times 100 equals 100 only for the
    whole, the script started with one argument on a readable metrics
    file of fewer than [2 ^ 53] bytes exits with status 0 or 1, and with
    0 exactly when the text has at least one hashed command line,
    contains none of the three sensitive texts, and every hash found is
    the expected digest. Every hash found is 64 characters of
    [[a-f0-9]]. An empty file fails. *)
Theorem hashing_verdict read_text program metrics_file metrics_content :
  exact_percentage →
  Z.of_nat (String.length metrics_content) < 2 ^ 53 →
  read_text metrics_file = inr metrics_content →
  ∃ printed code,
    main read_text [program; metrics_file] = (printed, Exit code) ∧
    (code = 0 ∨ code = 1) ∧
    (code = 0 ↔
     findall 0 metrics_content ≠ [] ∧
     (∀ pattern, pattern ∈ sensitive_patterns →
                 Str.contains pattern metrics_content = false) ∧
     (∀ h, h ∈ findall 0 metrics_content → h = expected_hash)) ∧
    (∀ h, h ∈ findall 0 metrics_content →
          String.length h = 64%nat ∧
          Forall (λ c, is_hex c = true) (list_ascii_of_string h)) ∧
    (metrics_content = "" → code = 1).
Proof.
  intros Hexact Hsize Hread. unfold main. rewrite Hread.
  destruct (check_hashed_command_lines_verdict metrics_content Hexact Hsize)
    as [Hcode Hiff].
  destruct (check_hashed_command_lines metrics_content) as [printed code].
  cbn [snd] in *. exists printed, code. split; [done|]. split; [done|].
  split; [done|]. split; [intros h; apply findall_shape|].
  intros ->. destruct Hcode as [-> | ->]; [|done].
  by destruct (proj1 Hiff eq_refl) as [? _].
Qed.

End HashingProperties.

Lemma fractions_exact : @Hashing.exact_percentage _ Hashing.fractions.
Proof.
  intros k n Hk Hkn Hn _. cbn. rewrite Z.eqb_eq. lia.
Qed.

Lemma hashing_verdict_witness :
  let read_text := λ path : string,
    if bool_decide (path = "metrics.txt")
    then inr (Hashing.sample Hashing.expected_hash)
    else inl ("No such file or directory: " +:+ path) in
  ∃ printed,
    @Hashing.main _ Hashing.fractions read_text
      ["verify_hashing.py"; "metrics.txt"] = (printed, Hashing.Exit 0).
Proof.
  intros read_text.
  destruct (@hashing_verdict _ Hashing.fractions read_text "verify_hashing.py"
              "metrics.txt" (Hashing.sample Hashing.expected_hash)
              fractions_exact eq_refl eq_refl)
    as (printed & code & Hmain & _ & Hiff & _).
  exists printed. rewrite Hmain. f_equal. f_equal. apply Hiff.
  split; [by vm_compute|]. split.
  - intros pattern Hin. vm_compute in Hin.
    repeat (apply elem_of_cons in Hin as [-> | Hin]; [vm_compute; reflexivity|]).
    inversion Hin.
  - intros h Hin. vm_compute in Hin.
    apply elem_of_cons in Hin as [-> | Hin]; [reflexivity|]. inversion Hin.
Defined.

(** ** Where the results are saved *)

Section SavedResults.

Context {W : Type} `{System W}.

(** X22. Where the results are saved. When [save_results] returns, it has
    made the output directory, read the clock, written one file and
    printed its path, in this order and nothing else; the path it returns
    is [<output dir>/<scenario id>_<stamp>.json], the stamp being the
    time read, to the second. A result with another scenario identifier
    saved into the same directory within the same second gets another
    path. *)
Theorem saved_results_path results output_dir (st st' : State W) filename :
  save_results results output_dir st = (st', Ok filename) →
  ∃ w1 w2 d text,
    sys_makedirs output_dir (world st) = (w1, None) ∧
    sys_now w1 = (w2, d) ∧
    filename = output_dir +:+ "/" +:+ res_scenario_id results +:+ "_" +:+
               strftime_stamp d +:+ ".json" ∧
    sys_write filename text w2 = (world st', None) ∧
    trace st' = trace st ++ [EvMakedirs output_dir; EvWrite filename text;
                             EvPrint ("Results saved to " +:+ filename)] ∧
    ∀ other d',
      res_scenario_id other ≠ res_scenario_id results → same_second d' d →
      results_filename output_dir (res_scenario_id other) d' ≠ filename.
Proof.
  unfold save_results, bind at 1, makedirs.
  destruct (sys_makedirs output_dir (world st)) as [w1 [msg|]] eqn:Hmk; [done|].
  unfold bind at 1, now. cbn [world trace].
  destruct (sys_now w1) as [w2 d] eqn:Hnow.
  unfold bind at 1, write_file. cbn [world trace].
  destruct (sys_write _ _ w2) as [w3 [msg|]] eqn:Hwrite; [done|].
  unfold bind, print, ret. intros [= <- <-].
  exists w1, w2, d, (Json.dumps (results_json results)).
  split; [done|]. split; [done|]. split; [done|]. split; [exact Hwrite|].
  split.
  - cbn [emit trace]. by rewrite <- !app_assoc.
  - intros other d' Hne Hsec. by apply results_filename_distinct.
Qed.

End SavedResults.

Lemma saved_results_path_witness :
  let results := Sim.value Sim.no_results (Sim.run_demo None) in
  let st := Sim.start (Sim.demo_world None []) in
  ∃ st',
    save_results results "tf-k8s/reports" st =
      (st', Ok "tf-k8s/reports/TF-DEMO-1_Wait_20250601-120000.json") ∧
    ∃ text,
      trace st' =
        [EvMakedirs "tf-k8s/reports";
         EvWrite "tf-k8s/reports/TF-DEMO-1_Wait_20250601-120000.json" text;
         EvPrint "Results saved to tf-k8s/reports/TF-DEMO-1_Wait_20250601-120000.json"].
Proof.
  intros results st.
  destruct (save_results results "tf-k8s/reports" st) as [st' r] eqn:Hsave.
  assert (r = Ok "tf-k8s/reports/TF-DEMO-1_Wait_20250601-120000.json") as ->.
  { vm_compute in Hsave. by injection Hsave as _ <-. }
  exists st'. split; [reflexivity|].
  destruct (saved_results_path results "tf-k8s/reports" st st' _ Hsave)
    as (w1 & w2 & d & text & _ & _ & _ & _ & Htrace & _).
  exists text. exact Htrace.
Defined.
